(** * Scroll-synchronised video player of [assets/js/alt_slider/slider_main.js]

    The script binds a video element to a scroll region ([create]), maps
    scroll progress to a playback frame ([adjustScrollPct], [jumpToTime]),
    falls back to still images while the video is not buffered
    ([checkBuffered], [showFallback], [hideFallback]), preloads those
    images one after the other ([loadFallbackImages]) and picks the video
    rendition by viewport width ([setSrc]).

    JavaScript numbers are modelled as exact rationals [Q]: the script only
    adds, subtracts, multiplies, divides and compares them.  Values produced
    by [Number.parseInt] are integers ([Z]).  Times are milliseconds.
    A quotient by zero is 0 in [Q], where JavaScript has [NaN] or an
    infinity: a statement that depends on a quotient assumes its divisor
    is not zero ([frameRate], [frameLength], [endScroll - startScroll],
    the height of the viewport, the width of the window, the root of the
    depth of a sprite).  Rounding is modelled where
    it decides a choice between integers: the product [s * 1.1] of [setSrc]
    is the binary64 product, taken from the Standard Library's
    specification of IEEE 754 ([SpecFloat]). *)

From Stdlib Require Import ZArith QArith Qabs Qround Qminmax Qpower List Sorted Bool Lia Lqa.
From Stdlib Require Import SpecFloat.
From Stdlib Require String Ascii.
Import ListNotations.

Open Scope Q_scope.

(** ** Comparisons of numbers, as the script writes them *)

Definition Qlt_bool (x y : Q) : bool := negb (Qle_bool y x).

Module JsNotations.
Notation "x <? y" := (Qlt_bool x y) (at level 70, no associativity) : Q_scope.
Notation "x >? y" := (Qlt_bool y x) (at level 70, no associativity) : Q_scope.
Notation "x <=? y" := (Qle_bool x y) (at level 70, no associativity) : Q_scope.
Notation "x >=? y" := (Qle_bool y x) (at level 70, no associativity) : Q_scope.
Notation "x !== y" := (negb (Qeq_bool x y)) (at level 70, no associativity) : Q_scope.
End JsNotations.
Import JsNotations.

(** [arr.forEach (function (value, index) ...)] that rebuilds the array. *)
Fixpoint forEach_from {A B : Type} (f : A -> nat -> B) (index : nat) (arr : list A) : list B :=
  match arr with
  | [] => []
  | value :: rest => f value index :: forEach_from f (S index) rest
  end.

Definition forEach {A B : Type} (f : A -> nat -> B) (arr : list A) : list B :=
  forEach_from f 0%nat arr.

(** ** Data model *)

(** One entry of [obj.slides]; [percent] is the number its string denotes. *)
Record Slide := { percent : Q }.

(** One entry of [obj.pauses]. *)
Record Pause := { pause_start : Q; pause_end : Q }.

(** The configuration record [obj] handed to [create], after the
    [parseInt]/[parseFloat] defaults of its first lines. *)
Record Binding := {
  keyFrameLength : Z;
  frameRate : Z;
  frameLength : Z;
  startScroll : Q;
  endScroll : Q;
  slides : list Slide;
  pauses : option (list Pause);      (* [None]: [obj.pauses === undefined] *)
  single_frames : bool               (* [typeof obj.single_frames !== 'undefined'] *)
}.

(** An element of the closure's [fallbackImages]: [{ start, image }], the
    image reduced to whether its class list holds [g-show]. *)
Record FallbackImage := { start : Q; g_show : bool }.

Inductive Visibility := visible | hidden.

(** The part of the [video] element the script reads and writes. *)
Record Video := {
  currentTime : Q;
  opacity : Q;
  visibility : Visibility;
  buffered : list (Q * Q);           (* [video.buffered]: (start i, end i) *)
  video_readyState : Z               (* [video.readyState], 0 .. 4 *)
}.

(** [obj.stillImage]. *)
Record StillImage := {
  still_g_show : bool;
  still_opacity : Q;
  still_src : option Z               (* frame number of the requested still *)
}.

(** What a pending [setTimeout] will call. *)
Inductive Callback :=
| call_jumpToTime (pct : Q)
| call_loadFallbackImages (index : nat).

Record Timer := { due : Z; callback : Callback }.

(** What is recorded of the traffic of the fallback images: the request
    issued by [img.src = ...] and the run of the image's [onload]. *)
Inductive Action :=
| request_fallback (index : nat)
| onload_fallback (index : nat).

(** The closure variables of [create] together with the DOM objects and the
    browser facilities it touches. *)
Record State := {
  scrollPct : Q;
  videoLastFrame : Q;
  videoShouldUpdate : bool;
  readyState : bool;
  playThroughTimer : bool;           (* the polling interval is still set *)
  fallbackImages : list FallbackImage;
  video : Video;
  stillImage : StillImage;
  now : Z;                           (* the clock of the event loop *)
  timers : list Timer;               (* pending [setTimeout] callbacks *)
  log : list (Z * Action)            (* time-stamped actions, oldest first *)
}.

Definition stepDivisor : Q := 10.

(** *** Field updates *)

Definition set_scrollPct (v : Q) (st : State) : State :=
  {| scrollPct := v; videoLastFrame := videoLastFrame st;
     videoShouldUpdate := videoShouldUpdate st; readyState := readyState st;
     playThroughTimer := playThroughTimer st;
     fallbackImages := fallbackImages st; video := video st;
     stillImage := stillImage st; now := now st; timers := timers st;
     log := log st |}.

Definition set_videoLastFrame (v : Q) (st : State) : State :=
  {| scrollPct := scrollPct st; videoLastFrame := v;
     videoShouldUpdate := videoShouldUpdate st; readyState := readyState st;
     playThroughTimer := playThroughTimer st;
     fallbackImages := fallbackImages st; video := video st;
     stillImage := stillImage st; now := now st; timers := timers st;
     log := log st |}.

Definition set_videoShouldUpdate (v : bool) (st : State) : State :=
  {| scrollPct := scrollPct st; videoLastFrame := videoLastFrame st;
     videoShouldUpdate := v; readyState := readyState st;
     playThroughTimer := playThroughTimer st;
     fallbackImages := fallbackImages st; video := video st;
     stillImage := stillImage st; now := now st; timers := timers st;
     log := log st |}.

Definition set_ready (ready polling : bool) (st : State) : State :=
  {| scrollPct := scrollPct st; videoLastFrame := videoLastFrame st;
     videoShouldUpdate := videoShouldUpdate st; readyState := ready;
     playThroughTimer := polling;
     fallbackImages := fallbackImages st; video := video st;
     stillImage := stillImage st; now := now st; timers := timers st;
     log := log st |}.

Definition set_fallbackImages (v : list FallbackImage) (st : State) : State :=
  {| scrollPct := scrollPct st; videoLastFrame := videoLastFrame st;
     videoShouldUpdate := videoShouldUpdate st; readyState := readyState st;
     playThroughTimer := playThroughTimer st;
     fallbackImages := v; video := video st;
     stillImage := stillImage st; now := now st; timers := timers st;
     log := log st |}.

Definition set_video (v : Video) (st : State) : State :=
  {| scrollPct := scrollPct st; videoLastFrame := videoLastFrame st;
     videoShouldUpdate := videoShouldUpdate st; readyState := readyState st;
     playThroughTimer := playThroughTimer st;
     fallbackImages := fallbackImages st; video := v;
     stillImage := stillImage st; now := now st; timers := timers st;
     log := log st |}.

Definition set_stillImage (v : StillImage) (st : State) : State :=
  {| scrollPct := scrollPct st; videoLastFrame := videoLastFrame st;
     videoShouldUpdate := videoShouldUpdate st; readyState := readyState st;
     playThroughTimer := playThroughTimer st;
     fallbackImages := fallbackImages st; video := video st;
     stillImage := v; now := now st; timers := timers st;
     log := log st |}.

Definition set_now (v : Z) (st : State) : State :=
  {| scrollPct := scrollPct st; videoLastFrame := videoLastFrame st;
     videoShouldUpdate := videoShouldUpdate st; readyState := readyState st;
     playThroughTimer := playThroughTimer st;
     fallbackImages := fallbackImages st; video := video st;
     stillImage := stillImage st; now := v; timers := timers st;
     log := log st |}.

Definition set_timers (v : list Timer) (st : State) : State :=
  {| scrollPct := scrollPct st; videoLastFrame := videoLastFrame st;
     videoShouldUpdate := videoShouldUpdate st; readyState := readyState st;
     playThroughTimer := playThroughTimer st;
     fallbackImages := fallbackImages st; video := video st;
     stillImage := stillImage st; now := now st; timers := v;
     log := log st |}.

Definition set_log (v : list (Z * Action)) (st : State) : State :=
  {| scrollPct := scrollPct st; videoLastFrame := videoLastFrame st;
     videoShouldUpdate := videoShouldUpdate st; readyState := readyState st;
     playThroughTimer := playThroughTimer st;
     fallbackImages := fallbackImages st; video := video st;
     stillImage := stillImage st; now := now st; timers := timers st;
     log := v |}.

(** [setTimeout (f, delay)]: the callback is queued for [now + delay]. *)
Definition setTimeout (f : Callback) (delay : Z) (st : State) : State :=
  set_timers (timers st ++ [{| due := (now st + delay)%Z; callback := f |}]) st.

(** [video.style.opacity = o; video.style.visibility = v]. *)
Definition set_video_style (o : Q) (v : Visibility) (vid : Video) : Video :=
  {| currentTime := currentTime vid; opacity := o; visibility := v;
     buffered := buffered vid; video_readyState := video_readyState vid |}.

Definition set_currentTime (t : Q) (vid : Video) : Video :=
  {| currentTime := t; opacity := opacity vid; visibility := visibility vid;
     buffered := buffered vid; video_readyState := video_readyState vid |}.

Definition set_g_show (b : bool) (img : FallbackImage) : FallbackImage :=
  {| start := start img; g_show := b |}.

(** ** The closure built by [create (obj)] *)

(** [fallbackRange] of [checkBuffered]. *)
Record Range := { range_start : Q; range_end : Q }.

(** The event object of the scroll trigger's [progress] notification. *)
Inductive Phase := BEFORE | DURING | AFTER.
Record ProgressEvent := { state : Phase; progress : Q }.

Section create.

Variable obj : Binding.

Definition getTimeFromKeyframe (keyframe : Q) : Q :=
  keyframe / inject_Z (frameRate obj).

Definition showFallback (st : State) : State :=
  let imgs :=
    forEach (fun img index =>
               if (scrollPct st >=? start img) && (scrollPct st >? 0)
                  || (scrollPct st <? start img) && (index =? 0)%nat
               then set_g_show true img
               else set_g_show false img)
            (fallbackImages st) in
  set_video (set_video_style 0 hidden (video st)) (set_fallbackImages imgs st).

Definition hideFallback (st : State) : State :=
  let imgs := forEach (fun img index => set_g_show false img) (fallbackImages st) in
  set_video (set_video_style 1 visible (video st)) (set_fallbackImages imgs st).

(** The still's [onload] handler is modelled by [stillImage_onload]. *)
Definition updateStill (pct : Q) (st : State) : State :=
  let cleared := {| still_g_show := false; still_opacity := 0;
                    still_src := still_src (stillImage st) |} in
  if single_frames obj then
    let frameToUse := Qfloor pct in
    set_stillImage {| still_g_show := false; still_opacity := 0;
                      still_src := Some frameToUse |} st
  else set_stillImage cleared st.

Definition stillImage_onload (st : State) : State :=
  set_stillImage {| still_g_show := true; still_opacity := 1;
                    still_src := still_src (stillImage st) |} st.

(** The first loop of [checkBuffered]: [while (fallbackLen--)] runs its
    body with [fallbackLen] = [n - 1], ..., [0].  [None] is the
    [TypeError] of reading [.start] of [undefined]. *)
Fixpoint fallbackRange_loop (fallbackLen : nat) (currPct : Q) (st : State)
  : option Range :=
  match fallbackLen with
  | O => Some {| range_start := 0; range_end := 0 |}
  | S fallbackLen =>
      match nth_error (fallbackImages st) fallbackLen with
      | None => Some {| range_start := 0; range_end := 0 |}
      | Some img =>
          if currPct >? start img then
            if (Z.of_nat fallbackLen =? Z.of_nat (length (slides obj)) - 1)%Z
            then Some {| range_start := start img; range_end := 1 |}
            else match nth_error (fallbackImages st) (fallbackLen + 1) with
                 | Some next => Some {| range_start := start img;
                                        range_end := start next |}
                 | None => None
                 end
          else fallbackRange_loop fallbackLen currPct st
      end
  end.

(** The test of the second loop of [checkBuffered] on one buffered range. *)
Definition range_buffered (currPct : Q) (fallbackRange : Range) (b : Q * Q) : bool :=
  let buffStart := fst b in
  let buffEnd := snd b in
  (currPct >=? buffStart) && (currPct <=? buffEnd)
  && ((range_start fallbackRange >=? buffStart)
      && (range_end fallbackRange <=? buffEnd)).

(** [currPct] of [checkBuffered], after its clamp. *)
Definition currPct_of (frameToUse : Q) : Q :=
  let currPct := frameToUse / inject_Z (frameLength obj) in
  if currPct <? 0 then 0 else if currPct >? 1 then 1 else currPct.

(** [while (bufferedLen--)] visits [video.buffered] from its last range to
    its first and stops at the first range that passes the test. *)
Definition checkBuffered (frameToUse : Q) (st : State) : option bool :=
  if negb (readyState st) then Some false
  else
    let fallbackLen := length (slides obj) in
    let currPct := currPct_of frameToUse in
    match fallbackRange_loop fallbackLen currPct st with
    | None => None
    | Some fallbackRange =>
        Some (existsb (range_buffered currPct fallbackRange)
                      (rev (buffered (video st))))
    end.

(** [while (pausesLen--)] visits [obj.pauses] from its last entry to its
    first; [rest] is [obj.pauses] reversed. *)
Fixpoint checkForPauses_loop (rest : list Pause) (frameToUse pct : Q) (st : State) : Q :=
  match rest with
  | [] => frameToUse
  | p :: rest =>
      if (pct >? pause_start p) && (pct <? pause_end p) then
        let adjNextFrame := inject_Z (frameLength obj) * pause_start p in
        let adjCurFrame :=
          videoLastFrame st + ((adjNextFrame - videoLastFrame st) / stepDivisor) in
        adjCurFrame
      else checkForPauses_loop rest frameToUse pct st
  end.

Definition checkForPauses (frameToUse pct : Q) (st : State) : Q :=
  match pauses obj with
  | Some ps => checkForPauses_loop (rev ps) frameToUse pct st
  | None => frameToUse
  end.

Definition videoNextFrame_of (pct : Q) : Q := inject_Z (frameLength obj) * pct.

(** [frameToUse] of [jumpToTime] before the buffering check. *)
Definition frameToUse_of (pct : Q) (st : State) : Q :=
  let videoNextFrame := videoNextFrame_of pct in
  let videoCurrFrame :=
    videoLastFrame st + ((videoNextFrame - videoLastFrame st) / stepDivisor) in
  if videoCurrFrame <? 0 then 0
  else if videoCurrFrame >? inject_Z (frameLength obj) then inject_Z (frameLength obj)
  else videoCurrFrame.

(** The value assigned to [video.currentTime]. *)
Definition seek_time (timeFromKeyrame : Q) : Q :=
if timeFromKeyrame <? 0 then 0
else if timeFromKeyrame >? inject_Z (frameLength obj) then inject_Z (frameLength obj)
else timeFromKeyrame.

Definition jumpToTime (pct : Q) (st : State) : option State :=
  let videoNextFrame := videoNextFrame_of pct in
  let frameToUse := frameToUse_of pct st in
  match checkBuffered frameToUse st with
  | None => None
  | Some true =>
      let st1 := hideFallback st in
      let frameToUse := checkForPauses frameToUse pct st1 in
      let timeFromKeyrame := getTimeFromKeyframe frameToUse in
      let st2 := set_video (set_currentTime (seek_time timeFromKeyrame) (video st1)) st1 in
      let st3 :=
        if Qabs (videoNextFrame - frameToUse) <? inject_Z (keyFrameLength obj) + 1
        then updateStill frameToUse (set_videoShouldUpdate false st2)
        else set_videoShouldUpdate true
               (set_stillImage {| still_g_show := false; still_opacity := 0;
                                  still_src := still_src (stillImage st2) |} st2) in
      Some (set_videoLastFrame frameToUse st3)
  | Some false =>
      let st1 := showFallback st in
      Some (set_videoLastFrame frameToUse st1)
  end.

(** [jumpToPct] of [adjustScrollPct]. *)
Definition jumpToPct_of (scrollPct : Q) : Q :=
  if (scrollPct >? startScroll obj) && (scrollPct <? endScroll obj) then
    let adjustedPct := (scrollPct - startScroll obj) / (endScroll obj - startScroll obj) in
    if adjustedPct >? 1 then 1 else if adjustedPct <? 0 then 0 else adjustedPct
  else if scrollPct >=? endScroll obj then 1
  else 0.

(** [custTimer] is never assigned: [clearTimeout (custTimer)] does nothing. *)
Definition adjustScrollPct (st : State) : State :=
  let jumpToPct := jumpToPct_of (scrollPct st) in
  setTimeout (call_jumpToTime jumpToPct) 10 st.

(** The [progress] handler installed by [startScrollAnimation];
    [hideAllElements] has an empty body. *)
Definition on_progress (e : ProgressEvent) (st : State) : State :=
  let st :=
    match state e with
    | BEFORE | AFTER => set_videoShouldUpdate false st
    | DURING => st
    end in
  if scrollPct st !== progress e then
    let st := set_scrollPct (progress e) st in
    if negb (videoShouldUpdate st) then adjustScrollPct st else st
  else st.

(** The video's [timeupdate] listener. *)
Definition on_timeupdate (st : State) : State :=
  if videoShouldUpdate st then adjustScrollPct st else st.

(** The callback of the [playThroughTimer] interval. *)
Definition playThroughTimer_tick (st : State) : State :=
  if (video_readyState (video st) >? 3)%Z then
    set_ready true false (set_video (set_currentTime 0 (video st)) st)
  else st.

(** [loadFallbackImages (index, imagesArr)] up to the assignments of
    [img.onload] and [img.src]; the handler is [fallback_onload]. *)
Definition loadFallbackImages (index : nat) (imagesArr : list Slide) (st : State)
  : option State :=
  if (Z.of_nat index >? Z.of_nat (length imagesArr) - 1)%Z then Some st
  else
    match nth_error imagesArr index with
    | None => None
    | Some fallback =>
        let start := percent fallback in
        let st := set_fallbackImages
                    (fallbackImages st ++ [{| start := start; g_show := false |}]) st in
        Some (set_log (log st ++ [(now st, request_fallback index)]) st)
    end.

(** [img.onload] of the image created by [loadFallbackImages (index, _)].
    The loader starts at index 0 on an empty [fallbackImages], so that
    image is [fallbackImages[index]]. *)
Definition fallback_onload (index : nat) (st : State) : State :=
  let st := set_log (log st ++ [(now st, onload_fallback index)]) st in
  let st :=
    if (index =? 0)%nat then
      set_fallbackImages
        (forEach (fun img i => if (i =? index)%nat then set_g_show true img else img)
                 (fallbackImages st)) st
    else st in
  setTimeout (call_loadFallbackImages (S index)) 100 st.

End create.

(** ** The event loop of one binding *)

Definition Action_eqb (a b : Action) : bool :=
  match a, b with
  | request_fallback i, request_fallback j => (i =? j)%nat
  | onload_fallback i, onload_fallback j => (i =? j)%nat
  | _, _ => false
  end.

(** Whether action [a] has been recorded. *)
Definition logged (a : Action) (st : State) : bool :=
  existsb (fun entry => Action_eqb a (snd entry)) (log st).

(** A fallback image is in flight from its request to its [onload]. *)
Definition in_flight (st : State) (index : nat) : bool :=
  logged (request_fallback index) st && negb (logged (onload_fallback index) st).

(** What the browser can deliver to the binding. *)
Inductive Event :=
| ev_progress (e : ProgressEvent)        (* the scroll trigger's [progress] *)
| ev_timeupdate                          (* the video's [timeupdate] *)
| ev_interval                            (* a tick of [playThroughTimer] *)
| ev_timeout (k : nat)                   (* pending timer number [k] runs *)
| ev_fallback_onload (index : nat)       (* [onload] of fallback image [index] *)
| ev_still_onload                        (* [onload] of [obj.stillImage] *)
| ev_media (rs : Z) (buf : list (Q * Q)). (* the video's load state changes *)

Section event_loop.

Variable obj : Binding.

Definition run_callback (f : Callback) (st : State) : option State :=
  match f with
  | call_jumpToTime pct => jumpToTime obj pct st
  | call_loadFallbackImages index => loadFallbackImages index (slides obj) st
  end.

(** Delivery of one event at time [t].  [None]: the browser cannot deliver
    it in this state (time running backwards, a timer that is not due, an
    image that is not loading, a cleared interval), or the handler threw. *)
Definition fire (t : Z) (ev : Event) (st : State) : option State :=
  if (t <? now st)%Z then None
  else
    let st := set_now t st in
    match ev with
    | ev_progress e => Some (on_progress obj e st)
    | ev_timeupdate => Some (on_timeupdate obj st)
    | ev_interval =>
        if playThroughTimer st then Some (playThroughTimer_tick st) else None
    | ev_timeout k =>
        match nth_error (timers st) k with
        | Some tm =>
            if (due tm <=? t)%Z then
              run_callback (callback tm)
                           (set_timers (firstn k (timers st) ++ skipn (S k) (timers st)) st)
            else None
        | None => None
        end
    | ev_fallback_onload index =>
        if in_flight st index then Some (fallback_onload index st) else None
    | ev_still_onload => Some (stillImage_onload st)
    | ev_media rs buf =>
        Some (set_video {| currentTime := currentTime (video st);
                           opacity := opacity (video st);
                           visibility := visibility (video st);
                           buffered := buf; video_readyState := rs |} st)
    end.

Fixpoint run (evs : list (Z * Event)) (st : State) : option State :=
  match evs with
  | [] => Some st
  | (t, ev) :: evs =>
      match fire t ev st with
      | Some st => run evs st
      | None => None
      end
  end.

(** The state [create] leaves behind at time [t0]: fresh closure
    variables, the first fallback image requested, the polling interval
    set. *)
Definition create (t0 : Z) (vid : Video) (still : StillImage) : option State :=
  loadFallbackImages 0 (slides obj)
    {| scrollPct := 0; videoLastFrame := 0; videoShouldUpdate := false;
       readyState := false; playThroughTimer := true; fallbackImages := [];
       video := vid; stillImage := still; now := t0; timers := []; log := [] |}.

End event_loop.

(** ** Choice and loading of the video assets ([init], [setSrc]) *)

Module Init.

Inductive Aspect := desktop | mobile.

(** [x|0] on an integer. *)
Definition to_int32 (x : Z) : Z := ((x + 2 ^ 31) mod 2 ^ 32 - 2 ^ 31)%Z.

(** The double that holds the integer [s], exactly when [s] is an int32. *)
Definition binary64_of_int32 (s : Z) : spec_float := binary_normalize 53 1024 s 0 false.

(** The double the literal [1.1] denotes, [0x1.199999999999ap+0]. *)
Definition binary64_1_1 : spec_float := S754_finite false 4953959590107546 (-52).

(** The number a finite double holds.  The product of an int32 and [1.1]
    is finite; the other doubles do not arise. *)
Definition number_of_binary64 (x : spec_float) : Q :=
  match x with
  | S754_finite sign m e => (if sign then -1 else 1) * inject_Z (Z.pos m) * 2 ^ e
  | _ => 0
  end.

(** [s * 1.1] as the script computes it: the product of two doubles,
    rounded to the nearest double, ties to even.  So [800 * 1.1] is
    [880.0000000000001], not 880. *)
Definition times_1_1 (s : Z) : Q :=
  number_of_binary64 (SFmul 53 1024 (binary64_of_int32 s) binary64_1_1).

(** The size chosen by [setSrc]; [self_desktop] and [self_mobile] are the
    integers listed in [self.desktop] and [self.mobile].  [None] is
    [undefined]. *)
Definition setSrc_size (self_desktop self_mobile : list Z) (aspect : Aspect)
           (winWidth : Q) : option Z :=
  let desktopSizes := map to_int32 self_desktop in
  let mobileSizes := map to_int32 self_mobile in
  let videoSizes := fun a => match a with desktop => desktopSizes | mobile => mobileSizes end in
  let size := find (fun s => times_1_1 s >? winWidth) (videoSizes aspect) in
  match size with
  | Some s =>
      if (s =? 0)%Z
      then nth_error (videoSizes aspect) (length (videoSizes aspect) - 1)
      else Some s
  | None => nth_error (videoSizes aspect) (length (videoSizes aspect) - 1)
  end.

(** One element of [videos]: what [setSrc] and [next] change of it. *)
Record VideoEl := {
  loadNextVideo : option Z;          (* due time of the armed timeout *)
  canplaythrough_listener : bool;    (* [next] is registered *)
  playing : bool
}.

Record Page := {
  clock : Z;
  vidsLoaded : nat;
  videos : list VideoEl
}.

Definition grace_period : Z := 7500.

Definition update_video (k : nat) (v : VideoEl) (pg : Page) : Page :=
  {| clock := clock pg; vidsLoaded := vidsLoaded pg;
     videos := firstn k (videos pg) ++ v :: skipn (S k) (videos pg) |}.

(** [videos[k].setSrc (loadCallback)]: arm the timeout, listen for
    [canplaythrough], assign the source and play.  Its call of [create] is
    the event loop above; its choice of size is [setSrc_size]. *)
Definition setSrc (k : nat) (pg : Page) : Page :=
  update_video k {| loadNextVideo := Some (clock pg + grace_period)%Z;
                    canplaythrough_listener := true;
                    playing := true |} pg.

(** [loadVideosAsync]. *)
Definition loadVideosAsync (pg : Page) : Page :=
  let pg := if (vidsLoaded pg <? length (videos pg))%nat
            then setSrc (vidsLoaded pg) pg else pg in
  {| clock := clock pg; vidsLoaded := S (vidsLoaded pg); videos := videos pg |}.

(** [next] of video [k]; its [loadCallback] is [loadVideosAsync]. *)
Definition next (k : nat) (pg : Page) : Page :=
  loadVideosAsync
    (update_video k {| loadNextVideo := None;
                       canplaythrough_listener := false;
                       playing := false |} pg).

Inductive LoadEvent :=
| ev_canplaythrough (k : nat)
| ev_loadNextVideo (k : nat).          (* the timeout of video [k] runs *)

Definition deliver (t : Z) (ev : LoadEvent) (pg : Page) : option Page :=
  if (t <? clock pg)%Z then None
  else
    let pg := {| clock := t; vidsLoaded := vidsLoaded pg; videos := videos pg |} in
    match ev with
    | ev_canplaythrough k =>
        match nth_error (videos pg) k with
        | Some v => if canplaythrough_listener v then Some (next k pg) else None
        | None => None
        end
    | ev_loadNextVideo k =>
        match nth_error (videos pg) k with
        | Some v =>
            match loadNextVideo v with
            | Some d => if (d <=? t)%Z then Some (next k pg) else None
            | None => None
            end
        | None => None
        end
    end.

End Init.

(** ** The bindings of the page and the vocabulary of the properties *)

(** [scrolling_video_top], the first [scrollingvideo] entry of [DOC.body]. *)
Definition scrolling_video_top : Binding :=
  {| keyFrameLength := 3; frameRate := 30; frameLength := 600;
     startScroll := 0.1; endScroll := 0.9;
     slides := [ {| percent := 0.065 |}; {| percent := 0.21 |};
                 {| percent := 0.40 |}; {| percent := 0.50 |};
                 {| percent := 0.62 |}; {| percent := 0.72 |};
                 {| percent := 0.95 |} ];
     pauses := None; single_frames := true |}.

(** A number clamped to [0, 1]. *)
Definition clamp01 (x : Q) : Q := Qmax 0 (Qmin 1 x).

(** A number clamped to [lo, hi]. *)
Definition clamp (lo hi x : Q) : Q := Qmax lo (Qmin hi x).

(** The slot of fallback images that owns the percentage [currPct].
    While some slide has no image yet it is the empty range at 0.  Once
    every slide has its image it is the slot of the last image that starts
    below [currPct], reaching to the start of the next image, or to 1 for
    the last slide, and the empty range at 0 when no image starts below
    [currPct].  The four cases exclude each other. *)
Inductive applicable_slot (obj : Binding) (st : State) (currPct : Q) : Range -> Prop :=
| slot_not_loaded :
    (length (fallbackImages st) < length (slides obj))%nat ->
    applicable_slot obj st currPct {| range_start := 0; range_end := 0 |}
| slot_none :
    (length (slides obj) <= length (fallbackImages st))%nat ->
    (forall j img, (j < length (slides obj))%nat ->
                   nth_error (fallbackImages st) j = Some img ->
                   currPct <= start img) ->
    applicable_slot obj st currPct {| range_start := 0; range_end := 0 |}
| slot_last (i : nat) (img : FallbackImage) :
    (length (slides obj) <= length (fallbackImages st))%nat ->
    S i = length (slides obj) ->
    nth_error (fallbackImages st) i = Some img ->
    start img < currPct ->
    applicable_slot obj st currPct {| range_start := start img; range_end := 1 |}
| slot_inner (i : nat) (img next : FallbackImage) :
    (length (slides obj) <= length (fallbackImages st))%nat ->
    (S i < length (slides obj))%nat ->
    nth_error (fallbackImages st) i = Some img ->
    nth_error (fallbackImages st) (S i) = Some next ->
    start img < currPct ->
    (forall j img', (i < j < length (slides obj))%nat ->
                    nth_error (fallbackImages st) j = Some img' ->
                    currPct <= start img') ->
    applicable_slot obj st currPct {| range_start := start img; range_end := start next |}.

(** A buffered range [b] of the video covers [currPct] and the slot. *)
Definition covers (b : Q * Q) (currPct : Q) (slot : Range) : Prop :=
(fst b <= currPct <= snd b)
/\ fst b <= range_start slot /\ range_end slot <= snd b.

(** The size test of [setSrc]: [s * 1.1 > winWidth], the product being the
    binary64 product. *)
Definition adequate (winWidth : Q) (s : Z) : Prop := winWidth < Init.times_1_1 s.

(** ** Example bindings and states *)

(** A binding of 600 frames without slides, with one pause region
    from 0.25 to 0.5. *)
Definition paused_binding : Binding :=
{| keyFrameLength := 3; frameRate := 30; frameLength := 600;
   startScroll := 0; endScroll := 1; slides := [];
   pauses := Some [ {| pause_start := 0.25; pause_end := 0.5 |} ];
   single_frames := false |}.

(** A binding with two slides, at 0.25 and 0.5. *)
Definition two_slides : Binding :=
{| keyFrameLength := 3; frameRate := 30; frameLength := 600;
   startScroll := 0; endScroll := 1;
   slides := [ {| percent := 0.25 |}; {| percent := 0.5 |} ];
   pauses := None; single_frames := false |}.

(** The state of a binding whose fallback images are all in place, at
    scroll percentage [pct], with the ready flag [ready] and the buffered
    ranges [buf]. *)
Definition settled (obj : Binding) (pct : Q) (ready : bool) (buf : list (Q * Q)) : State :=
{| scrollPct := pct; videoLastFrame := 0; videoShouldUpdate := false;
   readyState := ready; playThroughTimer := negb ready;
   fallbackImages := map (fun s => {| start := percent s; g_show := false |}) (slides obj);
   video := {| currentTime := 0; opacity := 1; visibility := visible;
               buffered := buf;
               video_readyState := if ready then 4 else 0 |};
   stillImage := {| still_g_show := false; still_opacity := 0; still_src := None |};
   now := 0; timers := []; log := [] |}.

(** No pause region holds the percentage [pct]. *)
Definition no_pause (obj : Binding) (pct : Q) : Prop :=
match pauses obj with
| Some ps => Forall (fun r => ~ (pause_start r < pct < pause_end r)) ps
| None => True
end.

(** A page with two videos, before [loadVideosAsync] has run. *)
Definition two_videos : Init.Page :=
{| Init.clock := 0; Init.vidsLoaded := 0;
   Init.videos := [ {| Init.loadNextVideo := None;
                       Init.canplaythrough_listener := false;
                       Init.playing := false |};
                    {| Init.loadNextVideo := None;
                       Init.canplaythrough_listener := false;
                       Init.playing := false |} ] |}.

(** A video element on which nothing has been loaded. *)
Definition empty_video : Video :=
{| currentTime := 0; opacity := 1; visibility := visible;
   buffered := []; video_readyState := 0 |}.

(** A still image that shows nothing. *)
Definition blank_still : StillImage :=
{| still_g_show := false; still_opacity := 0; still_src := None |}.

(** The state [jumpToTime] builds on its buffered branch. *)
Definition honoured (obj : Binding) (pct : Q) (st : State) : State :=
let videoNextFrame := videoNextFrame_of obj pct in
let st1 := hideFallback st in
let frameToUse := checkForPauses obj (frameToUse_of obj pct st) pct st1 in
let st2 := set_video (set_currentTime (seek_time obj (getTimeFromKeyframe obj frameToUse))
                                      (video st1)) st1 in
let st3 :=
  if Qabs (videoNextFrame - frameToUse) <? inject_Z (keyFrameLength obj) + 1
  then updateStill obj frameToUse (set_videoShouldUpdate false st2)
  else set_videoShouldUpdate true
         (set_stillImage {| still_g_show := false; still_opacity := 0;
                            still_src := still_src (stillImage st2) |} st2) in
set_videoLastFrame frameToUse st3.

(** The state [jumpToTime] builds on its other branch. *)
Definition degraded (obj : Binding) (pct : Q) (st : State) : State :=
set_videoLastFrame (frameToUse_of obj pct st) (showFallback st).

(** No event raises the video's ready state above 3 ([HAVE_FUTURE_DATA]). *)
Definition never_playable (evs : list (Z * Event)) : Prop :=
Forall (fun entry => match snd entry with
                     | ev_media rs _ => (rs <= 3)%Z
                     | _ => True
                     end) evs.

(** The ready flag is down and the video is not playable. *)
Definition unready (st : State) : Prop :=
readyState st = false /\ (video_readyState (video st) <= 3)%Z.

(** The indices of the images requested, in the order of the requests. *)
Definition req_indices (l : list (Z * Action)) : list nat :=
flat_map (fun entry => match snd entry with
                       | request_fallback i => [i]
                       | onload_fallback _ => []
                       end) l.

(** The indices of the images whose [onload] has run, in that order. *)
Definition load_indices (l : list (Z * Action)) : list nat :=
flat_map (fun entry => match snd entry with
                       | request_fallback _ => []
                       | onload_fallback i => [i]
                       end) l.

(** The pending timers that will call [loadFallbackImages]. *)
Definition is_loader (tm : Timer) : bool :=
match callback tm with
| call_loadFallbackImages _ => true
| call_jumpToTime _ => false
end.

Definition loader_timers (ts : list Timer) : list Timer := filter is_loader ts.

(** Each request after the first comes at least 100 ms after the [onload]
    of the image before it. *)
Definition spaced (l : list (Z * Action)) : Prop :=
forall pre t i post,
  l = pre ++ (t, request_fallback (S i)) :: post ->
  exists t', In (t', onload_fallback i) pre /\ (t' + 100 <= t)%Z.

(** The phases of the loader after [k] requests. *)
Inductive loader_phase (st : State) (k : nat) : Prop :=
| phase_loading (j : nat) :
    k = S j ->
    load_indices (log st) = seq 0 j ->
    loader_timers (timers st) = [] ->
    loader_phase st k
| phase_waiting (t' : Z) (j : nat) :
    k = S j ->
    load_indices (log st) = seq 0 k ->
    In (t', onload_fallback j) (log st) ->
    loader_timers (timers st)
    = [{| due := (t' + 100)%Z; callback := call_loadFallbackImages k |}] ->
    loader_phase st k
| phase_idle :
    load_indices (log st) = seq 0 k ->
    loader_timers (timers st) = [] ->
    loader_phase st k.

(** What holds of the loader in every state the binding reaches, [k]
    being the number of images requested so far. *)
Record loader_inv (obj : Binding) (st : State) (k : nat) : Prop := {
  inv_requests : req_indices (log st) = seq 0 k;
  inv_images : length (fallbackImages st) = k;
  inv_bound : (k <= length (slides obj))%nat;
  inv_phase : loader_phase st k;
  inv_spaced : spaced (log st)
}.

(** The events the browser can deliver in a state: time does not run
    backwards, an interval ticks while it is set, a timer runs when it is
    due, an image loads while it is in flight. *)
Definition deliverable (t : Z) (ev : Event) (st : State) : Prop :=
(now st <= t)%Z
/\ match ev with
   | ev_interval => playThroughTimer st = true
   | ev_timeout k => exists tm, nth_error (timers st) k = Some tm /\ (due tm <= t)%Z
   | ev_fallback_onload index => in_flight st index = true
   | _ => True
   end.

(** The loading of two fallback images: the first [onload] at 5 ms, its
    timer at 105 ms, the second [onload] at 110 ms, its timer at 210 ms. *)
Definition two_loads : list (Z * Event) :=
[ (5%Z, ev_fallback_onload 0); (105%Z, ev_timeout 0);
  (110%Z, ev_fallback_onload 1); (210%Z, ev_timeout 0) ].

(** The state [create] leaves for [two_slides] at time 0. *)
Definition two_slides_created : State :=
{| scrollPct := 0; videoLastFrame := 0; videoShouldUpdate := false;
   readyState := false; playThroughTimer := true;
   fallbackImages := [ {| start := 0.25; g_show := false |} ];
   video := empty_video; stillImage := blank_still; now := 0; timers := [];
   log := [ (0%Z, request_fallback 0) ] |}.

(** ** Further vocabulary *)

(** [n] calls of [jumpToTime] with the same percentage, one after the
    other, as the [timeupdate] loop makes them. *)
Fixpoint jumpToTime_n (obj : Binding) (n : nat) (pct : Q) (st : State) : option State :=
match n with
| O => Some st
| S n =>
    match jumpToTime obj pct st with
    | Some st => jumpToTime_n obj n pct st
    | None => None
    end
end.

(** Every pause region of the binding starts inside [0, 1]. *)
Definition pauses_start_in_range (obj : Binding) : Prop :=
match pauses obj with
| Some ps => Forall (fun r => 0 <= pause_start r <= 1) ps
| None => True
end.

(** The last frame lies inside the video. *)
Definition frame_in_range (obj : Binding) (st : State) : Prop :=
0 <= videoLastFrame st <= inject_Z (frameLength obj).

(** The starts of the fallback images do not decrease along the list. *)
Definition starts_ordered (imgs : list FallbackImage) : Prop :=
forall i j a b,
  (i <= j)%nat -> nth_error imgs i = Some a -> nth_error imgs j = Some b ->
  start a <= start b.

(** The fallback images in place are the images of the first slides. *)
Definition mirrors_slides (obj : Binding) (st : State) : Prop :=
map start (fallbackImages st)
= map percent (firstn (length (fallbackImages st)) (slides obj)).

(** The interval is set exactly while the ready flag is down. *)
Definition polling_until_ready (st : State) : Prop :=
playThroughTimer st = negb (readyState st).

(** Two ticks of the poll around the moment the video becomes playable. *)
Definition becomes_ready : list (Z * Event) :=
[ (10%Z, ev_interval); (15%Z, ev_media 4 [(0, 20)]); (20%Z, ev_interval) ].

(** A binding whose first slide starts at the top of the scroll range. *)
Definition from_top : Binding :=
{| keyFrameLength := 3; frameRate := 30; frameLength := 600;
   startScroll := 0; endScroll := 1;
   slides := [ {| percent := 0 |}; {| percent := 0.5 |} ];
   pauses := None; single_frames := false |}.

(** A video element [init] has created and [setSrc] has not touched, or
    whose [next] has run. *)
Definition idle_video : Init.VideoEl :=
{| Init.loadNextVideo := None; Init.canplaythrough_listener := false;
   Init.playing := false |}.

(** The page [init] leaves at time [t0] with [n] scrolling videos: the
    elements are created, [vidsLoaded] is 0, and [loadVideosAsync] has been
    called once. *)
Definition init_page (t0 : Z) (n : nat) : Init.Page :=
Init.loadVideosAsync
  {| Init.clock := t0; Init.vidsLoaded := 0; Init.videos := repeat idle_video n |}.

(** Delivery of a sequence of load events. *)
Fixpoint run_loads (evs : list (Z * Init.LoadEvent)) (pg : Init.Page) : option Init.Page :=
match evs with
| [] => Some pg
| (t, ev) :: evs =>
    match Init.deliver t ev pg with
    | Some pg => run_loads evs pg
    | None => None
    end
end.

(** [setSrc] has run on the video and [next] has not: the listener is
    registered or the timeout is armed. *)
Definition loading (v : Init.VideoEl) : Prop :=
Init.canplaythrough_listener v = true \/ Init.loadNextVideo v <> None.

(** After [m] runs of [next]: video [m] is loading and no other is. *)
Definition one_loading (n : nat) (pg : Init.Page) (m : nat) : Prop :=
Init.vidsLoaded pg = S m
/\ length (Init.videos pg) = n
/\ forall j v, nth_error (Init.videos pg) j = Some v ->
               (j = m -> exists d, v = {| Init.loadNextVideo := Some d;
                                          Init.canplaythrough_listener := true;
                                          Init.playing := true |})
               /\ (j <> m -> v = idle_video).

(** ** Underscore's [debounce] *)

Module Debounce.

Section debounce.

Variables Args Result : Type.
Variable func : Args -> Result.
Variable wait : Z.
Variable immediate : bool.

(** The variables of the closure [debounce] returns, and the calls of
    [func] it has made. *)
Record Closure := {
  result : option Result;            (* [None]: [undefined] *)
  timeout : option (Z * Args);       (* due time and arguments of the pending [later] *)
  invoked : list (Z * Args)          (* the calls of [func], oldest first *)
}.

(** The state right after [debounce (func, wait, immediate)]. *)
Definition fresh : Closure :=
{| result := None; timeout := None; invoked := [] |}.

(** A call of the debounced function at time [t]: the pending timer is
    cleared and a new one set; [func] runs at once only on the leading
    edge of the immediate mode.  The value returned is the first
    component. *)
Definition call (t : Z) (args : Args) (c : Closure) : option Result * Closure :=
let callNow := immediate && (match timeout c with Some _ => false | None => true end) in
let c := {| result := result c; timeout := Some ((t + wait)%Z, args);
            invoked := invoked c |} in
let c := if callNow
         then {| result := Some (func args); timeout := timeout c;
                 invoked := invoked c ++ [(t, args)] |}
         else c in
(result c, c).

(** The run of the pending [later] at time [t]; [None] when no timer is
    pending or it is not due. *)
Definition later (t : Z) (c : Closure) : option Closure :=
match timeout c with
| Some (due, args) =>
    if (due <=? t)%Z then
      Some (if negb immediate
            then {| result := Some (func args); timeout := None;
                    invoked := invoked c ++ [(t, args)] |}
            else {| result := result c; timeout := None; invoked := invoked c |})
    else None
| None => None
end.

(** A burst: calls one after the other with no timer running in between. *)
Fixpoint burst (calls : list (Z * Args)) (c : Closure) : Closure :=
match calls with
| [] => c
| (t, args) :: calls => burst calls (snd (call t args c))
end.

End debounce.

Arguments result {Args Result}.
Arguments timeout {Args Result}.
Arguments invoked {Args Result}.
Arguments call {Args Result}.
Arguments later {Args Result}.
Arguments burst {Args Result}.

End Debounce.

(** ** The resize listeners of the bindings *)

Module Resize.

(** The module variable [throttled], shared by the listeners of all
    bindings, the pending timers that reset it, and the scenes whose offset
    and duration have been recomputed (time and binding). *)
Record State := {
  clock : Z;
  throttled : bool;
  pending : list Z;
  recomputed : list (Z * nat)
}.

Definition start (t0 : Z) : State :=
{| clock := t0; throttled := false; pending := []; recomputed := [] |}.

(** The [resize] listener of one binding, at the time of the clock. *)
Definition listener (binding : nat) (st : State) : State :=
if negb (throttled st) then
  {| clock := clock st; throttled := true;
     pending := pending st ++ [(clock st + 150)%Z];
     recomputed := recomputed st ++ [(clock st, binding)] |}
else st.

Inductive Event :=
| resize                               (* the window's [resize] event *)
| timer (k : nat).                     (* pending timer number [k] runs *)

(** Delivery of an event at time [t] on a page with [n] bindings: a resize
    runs the listeners in the order the bindings were created. *)
Definition fire (n : nat) (t : Z) (ev : Event) (st : State) : option State :=
if (t <? clock st)%Z then None
else
  let st := {| clock := t; throttled := throttled st; pending := pending st;
               recomputed := recomputed st |} in
  match ev with
  | resize => Some (fold_left (fun st binding => listener binding st) (seq 0 n) st)
  | timer k =>
      match nth_error (pending st) k with
      | Some due =>
          if (due <=? t)%Z then
            Some {| clock := t; throttled := false;
                    pending := firstn k (pending st) ++ skipn (S k) (pending st);
                    recomputed := recomputed st |}
          else None
      | None => None
      end
  end.

Fixpoint run (n : nat) (evs : list (Z * Event)) (st : State) : option State :=
match evs with
| [] => Some st
| (t, ev) :: evs =>
    match fire n t ev st with
    | Some st => run n evs st
    | None => None
    end
end.

(** Recomputations are at least 150 ms apart. *)
Fixpoint apart (l : list (Z * nat)) : Prop :=
match l with
| [] => True
| (t1, _) :: rest =>
    match rest with
    | [] => True
    | (t2, _) :: _ => (t1 + 150 <= t2)%Z
    end /\ apart rest
end.

(** What holds between events: every recomputation is of binding 0 and
    not after the clock; a set flag has exactly one timer behind it, due
    150 ms after the last recomputation; a cleared flag has none, and the
    last recomputation is 150 ms old. *)
Definition inv (st : State) : Prop :=
apart (recomputed st)
/\ Forall (fun entry => snd entry = 0%nat /\ (fst entry <= clock st)%Z) (recomputed st)
/\ (if throttled st
    then exists t b, last (recomputed st) (0%Z, 0%nat) = (t, b)
                     /\ recomputed st <> []
                     /\ pending st = [(t + 150)%Z]
    else pending st = []
         /\ Forall (fun entry => (fst entry + 150 <= clock st)%Z) (recomputed st)).

End Resize.

(** ** The environment classes of the page *)

Module Environment.

Import String Ascii.

(** [html.classList], a list of class names without repetition. *)
Definition contains (classList : list string) (className : string) : bool :=
existsb (String.eqb className) classList.

Definition add (className : string) (classList : list string) : list string :=
if contains classList className then classList else (classList ++ [className])%list.

Definition remove (className : string) (classList : list string) : list string :=
filter (fun c => negb (String.eqb className c)) classList.

Definition classNamePrefixes_env : string := "g-page"%string.
Definition classNamePrefixes_breakpoint : string := "g-viewport"%string.

(** The object [breakpoints], in the order of its keys. *)
Definition breakpoints : list (string * Z) :=
[ ("xxsmall"%string, 320%Z); ("xsmall"%string, 480%Z); ("small"%string, 600%Z);
  ("medium"%string, 740%Z); ("large"%string, 1024%Z); ("xlarge"%string, 1150%Z);
  ("xxlarge"%string, 1440%Z) ].

Definition breakpoints_medium : Z := 740.
Definition breakpoints_xlarge : Z := 1150.
Definition breakpoints_xxlarge : Z := 1440.

(** [cachedViewport].  The aspect ratio is a number when the height is not
    zero; what is stated of it through [setViewport] assumes so. *)
Record Viewport := { width : Q; height : Q; aspectRatio : Q }.

Definition setViewport (clientWidth innerWidth clientHeight innerHeight : Q) : Viewport :=
let width := Qmax clientWidth innerWidth in
let height := Qmax clientHeight innerHeight in
let aspectRatio := width / height in
{| width := width; height := height; aspectRatio := aspectRatio |}.

Record Breakpoint := { bp_width : Z; bp_name : string; active : bool }.

Definition getBreakpoints (vp : Viewport) : list Breakpoint :=
let vw := width vp in
map (fun entry => {| bp_width := snd entry; bp_name := fst entry;
                     active := vw >=? inject_Z (snd entry) |})
    breakpoints.

Definition isLandscape (vp : Viewport) : bool := aspectRatio vp >? 1.
Definition isPortrait (vp : Viewport) : bool := negb (isLandscape vp).
Definition isWideScreen (vp : Viewport) : bool :=
aspectRatio vp >? inject_Z breakpoints_xxlarge / 1029.
Definition isSmallScreen (vp : Viewport) : bool :=
width vp <=? inject_Z breakpoints_medium.
Definition isLargeScreen (vp : Viewport) : bool :=
width vp >=? inject_Z breakpoints_xlarge.

(** The tests of [getState] that read the user agent, the location and
    the media queries: their results are facts of the browser. *)
Record Browser := {
  isApp : bool; isIos : bool; isAndroid : bool; isIphone : bool;
  isMobile : bool; isHighDensity : bool; isRetina : bool
}.

(** [isDesktop] stores and returns [!isMobile ()]. *)
Definition isDesktop (br : Browser) : bool := negb (isMobile br).

(** [getState ()], as the list of its keys and values. *)
Definition getState (br : Browser) (vp : Viewport) : list (string * bool) :=
[ ("isApp"%string, isApp br); ("isIos"%string, isIos br);
  ("isAndroid"%string, isAndroid br); ("isIphone"%string, isIphone br);
  ("isMobile"%string, isMobile br); ("isDesktop"%string, isDesktop br);
  ("isLandscape"%string, isLandscape vp); ("isPortrait"%string, isPortrait vp);
  ("isWideScreen"%string, isWideScreen vp); ("isSmallScreen"%string, isSmallScreen vp);
  ("isLargeScreen"%string, isLargeScreen vp); ("isHighDensity"%string, isHighDensity br);
  ("isRetina"%string, isRetina br) ].

(** [toLowerCase] on a string of ASCII characters. *)
Definition toLowerCase_ascii (ch : ascii) : ascii :=
let n := nat_of_ascii ch in
if ((65 <=? n) && (n <=? 90))%nat then ascii_of_nat (n + 32) else ch.

Fixpoint toLowerCase (s : string) : string :=
match s with
| EmptyString => EmptyString
| String ch rest => String (toLowerCase_ascii ch) (toLowerCase rest)
end.

(** [prepEnvironment]: the viewport is measured again, then one class per
    breakpoint and one per test is added or removed. *)
Definition prepEnvironment (br : Browser)
           (clientWidth innerWidth clientHeight innerHeight : Q)
           (html : list string) : Viewport * list string :=
let vp := setViewport clientWidth innerWidth clientHeight innerHeight in
let html :=
  fold_left (fun html breakpoint =>
               let className :=
                 String.append classNamePrefixes_breakpoint
                               (String.append "-" (bp_name breakpoint)) in
               if active breakpoint then add className html else remove className html)
            (getBreakpoints vp) html in
let testResults := getState br vp in
let html :=
  fold_left (fun (html : list string) (entry : string * bool) =>
               let fnName := fst entry in
               let className :=
                 String.append classNamePrefixes_env
                               (String.append "-" (toLowerCase fnName)) in
               let result := snd entry in
               if result then add className html else remove className html)
            testResults html in
(vp, html).

(** [string.replace (' ', '_')]: a string pattern replaces its first
    occurrence only. *)
Fixpoint replace_space (s : string) : string :=
match s with
| EmptyString => EmptyString
| String ch rest =>
    if Ascii.eqb ch " " then String "_" rest else String ch (replace_space rest)
end.

Definition slugify (s : string) : string := replace_space (toLowerCase s).

(** The number of spaces of a string. *)
Fixpoint spaces (s : string) : nat :=
match s with
| EmptyString => 0
| String ch rest => ((if Ascii.eqb ch " " then 1 else 0) + spaces rest)%nat
end.

(** Every character of the string is an ASCII character. *)
Fixpoint is_ascii (s : string) : Prop :=
match s with
| EmptyString => True
| String ch rest => (nat_of_ascii ch < 128)%nat /\ is_ascii rest
end.

(** The classes [prepEnvironment] decides, with what it decides of them. *)
Definition decided (br : Browser) (vp : Viewport) : list (string * bool) :=
(map (fun breakpoint =>
        (String.append classNamePrefixes_breakpoint
                       (String.append "-" (bp_name breakpoint)),
         active breakpoint))
     (getBreakpoints vp)
 ++ map (fun entry =>
           (String.append classNamePrefixes_env
                          (String.append "-" (toLowerCase (fst entry))),
            snd entry))
        (getState br vp))%list.

(** Adding or removing one class. *)
Definition toggle (html : list string) (entry : string * bool) : list string :=
if snd entry then add (fst entry) html else remove (fst entry) html.

(** The names of the classes [prepEnvironment] decides. *)
Definition decided_names : list string :=
[ "g-viewport-xxsmall"; "g-viewport-xsmall"; "g-viewport-small";
  "g-viewport-medium"; "g-viewport-large"; "g-viewport-xlarge";
  "g-viewport-xxlarge";
  "g-page-isapp"; "g-page-isios"; "g-page-isandroid"; "g-page-isiphone";
  "g-page-ismobile"; "g-page-isdesktop"; "g-page-islandscape";
  "g-page-isportrait"; "g-page-iswidescreen"; "g-page-issmallscreen";
  "g-page-islargescreen"; "g-page-ishighdensity"; "g-page-isretina" ]%string.

(** Whether a list of class names holds no name twice. *)
Fixpoint nodupb (l : list string) : bool :=
match l with
| [] => true
| x :: l => negb (existsb (String.eqb x) l) && nodupb l
end.

End Environment.

(** ** The sprite of a slider and the aspect of the window *)

Section sprite.

(** [Math.sqrt], on the depths whose root is a number other than 0: there
    the quotient [val / square] is a number. *)
Variable Math_sqrt : Q -> Q.

Definition getSpritePos (value depth : Q) : Q * Q :=
let val := value - 1 in
let square := Math_sqrt depth in
let floor := inject_Z (Qfloor (val / square)) in
let extra := val - floor in
let offsetX := (floor + extra) * -300 in
let offsetY := floor * -300 in
(offsetX, offsetY).

End sprite.

(** The square root on rationals that hold a perfect square. *)
Definition sqrt_of_square (x : Q) : Q := inject_Z (Z.sqrt (Qfloor x)).

(** [aspect], from [winWidth] and [winHeight]. *)
Definition aspect_of (winWidth winHeight : Q) : Init.Aspect :=
let ratio := winHeight / winWidth in
if ratio >? 1 then Init.mobile else Init.desktop.

(** When the loader is at rest, with every requested image loaded and no
    timer of its own pending, every slide has its image. *)
Definition rests_when_done (obj : Binding) (st : State) : Prop :=
load_indices (log st) = req_indices (log st) ->
loader_timers (timers st) = [] ->
length (fallbackImages st) = length (slides obj).

(** A scroll to 0.75 on a video that stops at ready state 2: the first
    image loads at 5 ms, the progress event comes at 20 ms and its update
    runs at 30 ms. *)
Definition unplayable_scroll : list (Z * Event) :=
[ (5%Z, ev_fallback_onload 0); (10%Z, ev_media 2 [(0, 1)]);
  (20%Z, ev_progress {| state := DURING; progress := 0.75 |});
  (30%Z, ev_timeout 1) ].

(** Both images load, then the page is scrolled to 0.5 and back to the
    top, each progress event followed by its update. *)
Definition back_to_top : list (Z * Event) :=
[ (5%Z, ev_fallback_onload 0); (105%Z, ev_timeout 0);
  (110%Z, ev_fallback_onload 1); (210%Z, ev_timeout 0);
  (220%Z, ev_progress {| state := DURING; progress := 0.5 |}); (230%Z, ev_timeout 0);
  (240%Z, ev_progress {| state := BEFORE; progress := 0 |}); (250%Z, ev_timeout 0) ].

(** ** Numbers *)

Lemma Qlt_bool_iff (x y : Q) : Qlt_bool x y = true <-> x < y.
Proof.
  unfold Qlt_bool. rewrite negb_true_iff. split.
  - intros H. apply Qnot_le_lt. intros Hle.
    apply Qle_bool_iff in Hle. congruence.
  - intros H. destruct (Qle_bool y x) eqn:E; [|reflexivity].
    apply Qle_bool_iff in E. exfalso. apply (Qlt_not_le _ _ H E).
Qed.

Lemma Qlt_bool_false_iff (x y : Q) : Qlt_bool x y = false <-> y <= x.
Proof.
  unfold Qlt_bool. rewrite negb_false_iff. apply Qle_bool_iff.
Qed.

Lemma Qle_bool_false_iff (x y : Q) : Qle_bool x y = false <-> y < x.
Proof.
  rewrite <- Qlt_bool_iff. unfold Qlt_bool.
  destruct (Qle_bool x y); simpl; split; congruence.
Qed.

(** Case analysis on the comparisons of a goal or hypothesis. *)
Ltac q_case x y :=
  let E := fresh "E" in
  destruct (Qlt_bool x y) eqn:E;
  [apply Qlt_bool_iff in E | apply Qlt_bool_false_iff in E].

Ltac q_case_le x y :=
  let E := fresh "E" in
  destruct (Qle_bool x y) eqn:E;
  [apply Qle_bool_iff in E | apply Qle_bool_false_iff in E].

Lemma clamp01_above (x : Q) : 1 <= x -> clamp01 x == 1.
Proof.
  intros H. unfold clamp01. rewrite (Q.min_l 1 x H). apply Q.max_r. lra.
Qed.

Lemma clamp01_below (x : Q) : x <= 0 -> clamp01 x == 0.
Proof.
  intros H. unfold clamp01. rewrite (Q.min_r 1 x) by lra. apply Q.max_l. exact H.
Qed.

Lemma clamp01_inside (x : Q) : 0 <= x <= 1 -> clamp01 x == x.
Proof.
  intros [H0 H1]. unfold clamp01. rewrite (Q.min_r 1 x H1). apply Q.max_r. exact H0.
Qed.

Lemma clamp_spec (lo hi x : Q) :
  lo <= hi ->
  clamp lo hi x == (if x <? lo then lo else if x >? hi then hi else x).
Proof.
  intros Hlh. unfold clamp. q_case x lo.
  - rewrite (Q.min_r hi x) by lra. apply Q.max_l. lra.
  - q_case hi x.
    + rewrite (Q.min_l hi x) by lra. apply Q.max_r. exact Hlh.
    + rewrite (Q.min_r hi x) by lra. apply Q.max_r. exact E.
Qed.

(** ** Scroll percentage to target frame *)

Section target_frame.

Variable obj : Binding.

Lemma jumpToPct_of_before (p : Q) :
  p <= startScroll obj -> p < endScroll obj -> jumpToPct_of obj p = 0.
Proof.
  intros H1 H2. unfold jumpToPct_of.
  apply Qlt_bool_false_iff in H1. rewrite H1. simpl.
  apply Qle_bool_false_iff in H2. rewrite H2. reflexivity.
Qed.

Lemma jumpToPct_of_after (p : Q) :
  endScroll obj <= p -> jumpToPct_of obj p = 1.
Proof.
  intros H. unfold jumpToPct_of.
  assert (Hlt : Qlt_bool p (endScroll obj) = false)
    by (apply Qlt_bool_false_iff; exact H).
  rewrite Hlt, andb_false_r.
  apply Qle_bool_iff in H. rewrite H. reflexivity.
Qed.

Lemma jumpToPct_of_during (p : Q) :
  startScroll obj < p < endScroll obj ->
  jumpToPct_of obj p
  == clamp01 ((p - startScroll obj) / (endScroll obj - startScroll obj)).
Proof.
  intros [H1 H2]. unfold jumpToPct_of.
  apply Qlt_bool_iff in H1. apply Qlt_bool_iff in H2. rewrite H1, H2. simpl.
  set (a := (p - startScroll obj) / (endScroll obj - startScroll obj)).
  q_case 1 a.
  - symmetry. apply clamp01_above. lra.
  - q_case a 0.
    + symmetry. apply clamp01_below. lra.
    + symmetry. apply clamp01_inside. lra.
Qed.

Lemma jumpToPct_of_range (p : Q) : 0 <= jumpToPct_of obj p <= 1.
Proof.
  unfold jumpToPct_of.
  destruct (_ && _).
  - set (a := (p - startScroll obj) / (endScroll obj - startScroll obj)).
    q_case 1 a; [lra|]. q_case a 0; lra.
  - destruct (Qle_bool _ _); lra.
Qed.

End target_frame.

(** C1.  With the scroll range of the binding in order ([startScroll] below
    [endScroll]), a progress handler that stores the percentage [p] and
    recomputes queues [jumpToTime] with a percentage whose target frame
    ([videoNextFrame]) is 0 when [p] is at or below [startScroll],
    [frameLength] times the clamped [(p - startScroll) / (endScroll -
    startScroll)] when [p] lies strictly between the two, and [frameLength]
    when [p] is at or above [endScroll].  For [scrolling_video_top]
    (frame rate 30, 600 frames, range 0.1 to 0.9) and [p = 0.5] the target
    frame is 300. *)
Theorem target_frame_of_progress :
  (forall (obj : Binding) (st : State) (p : Q),
      startScroll obj < endScroll obj ->
      let target := videoNextFrame_of obj (jumpToPct_of obj p) in
      timers (adjustScrollPct obj (set_scrollPct p st))
      = timers st ++ [{| due := (now st + 10)%Z;
                         callback := call_jumpToTime (jumpToPct_of obj p) |}]
      /\ (p <= startScroll obj -> target == 0)
      /\ (startScroll obj < p < endScroll obj ->
          target == inject_Z (frameLength obj)
                    * clamp01 ((p - startScroll obj) / (endScroll obj - startScroll obj)))
      /\ (endScroll obj <= p -> target == inject_Z (frameLength obj)))
  /\ videoNextFrame_of scrolling_video_top (jumpToPct_of scrolling_video_top 0.5) == 300.
Proof.
  split.
  - intros obj st p Hrange target. subst target. unfold videoNextFrame_of.
    split; [reflexivity|]. split; [|split].
    + intros Hp. rewrite jumpToPct_of_before by lra. ring.
    + intros Hp. rewrite jumpToPct_of_during by exact Hp. reflexivity.
    + intros Hp. rewrite jumpToPct_of_after by exact Hp. ring.
  - vm_compute. reflexivity.
Qed.

Lemma target_frame_of_progress_witness :
  startScroll scrolling_video_top < endScroll scrolling_video_top
  /\ videoNextFrame_of scrolling_video_top (jumpToPct_of scrolling_video_top 0.5)
     == 600 * clamp01 ((0.5 - 0.1) / (0.9 - 0.1)).
Proof.
  assert (H : startScroll scrolling_video_top < endScroll scrolling_video_top)
    by (vm_compute; reflexivity).
  split; [exact H|].
  destruct (proj1 target_frame_of_progress scrolling_video_top
              {| scrollPct := 0; videoLastFrame := 0; videoShouldUpdate := false;
                 readyState := false; playThroughTimer := true;
                 fallbackImages := [];
                 video := {| currentTime := 0; opacity := 1; visibility := visible;
                             buffered := []; video_readyState := 0 |};
                 stillImage := {| still_g_show := false; still_opacity := 0;
                                  still_src := None |};
                 now := 0; timers := []; log := [] |}
              0.5 H) as (_ & _ & Hmid & _).
  apply Hmid. split; vm_compute; reflexivity.
Defined.

(** ** Choice of the video size *)

Lemma to_int32_small (x : Z) :
(- 2 ^ 31 <= x < 2 ^ 31)%Z -> Init.to_int32 x = x.
Proof.
intros H. unfold Init.to_int32. rewrite Z.mod_small by lia. lia.
Qed.

Lemma map_to_int32_small (l : list Z) :
Forall (fun s => 0 < s < 2 ^ 31)%Z l -> map Init.to_int32 l = l.
Proof.
induction 1 as [|s l Hs _ IH]; simpl; [reflexivity|].
rewrite IH, to_int32_small by lia. reflexivity.
Qed.

(** [find] returns the first element that passes the test. *)
Lemma find_first {A : Type} (f : A -> bool) (l : list A) (x : A) :
find f l = Some x ->
exists l1 l2, l = l1 ++ x :: l2 /\ f x = true /\ forall y, In y l1 -> f y = false.
Proof.
induction l as [|a l IH]; simpl; [discriminate|].
destruct (f a) eqn:Ea.
- intros [= ->]. exists [], l. repeat split; [exact Ea | intros y []].
- intros H. destruct (IH H) as (l1 & l2 & -> & Hx & Hl1).
  exists (a :: l1), l2. repeat split; [exact Hx|].
  intros y [<-|Hy]; [exact Ea | exact (Hl1 y Hy)].
Qed.

Lemma nth_error_last {A : Type} (l : list A) (a : A) :
nth_error (l ++ [a]) (length (l ++ [a]) - 1) = Some a.
Proof.
rewrite length_app. simpl.
replace (length l + 1 - 1)%nat with (length l) by lia.
rewrite nth_error_app2 by lia. rewrite Nat.sub_diag. reflexivity.
Qed.

Lemma sorted_app_le (l1 l2 : list Z) (x y : Z) :
StronglySorted Z.le (l1 ++ x :: l2) -> In y (x :: l2) -> (x <= y)%Z.
Proof.
induction l1 as [|a l1 IH]; simpl; intros Hs Hy.
- inversion Hs as [|? ? _ Hall]; subst. destruct Hy as [<-|Hy]; [lia|].
  rewrite Forall_forall in Hall. exact (Hall y Hy).
- inversion Hs; subst. auto.
Qed.

Lemma sorted_le_last (l : list Z) (a y : Z) :
StronglySorted Z.le (l ++ [a]) -> In y (l ++ [a]) -> (y <= a)%Z.
Proof.
induction l as [|b l IH]; simpl; intros Hs Hy.
- destruct Hy as [<-|[]]. lia.
- inversion Hs as [|? ? Hs' Hall]; subst. destruct Hy as [<-|Hy].
  + rewrite Forall_forall in Hall. apply Hall. apply in_or_app. right. left. reflexivity.
  + exact (IH Hs' Hy).
Qed.

(** The choice on one list of sizes that [x|0] leaves unchanged. *)
Lemma setSrc_size_sorted (declared : list Z) (winWidth : Q) :
declared <> [] ->
StronglySorted Z.le declared ->
Forall (fun s => 0 < s < 2 ^ 31)%Z declared ->
exists size,
  (forall other, Init.setSrc_size declared other Init.desktop winWidth = Some size)
  /\ (forall other, Init.setSrc_size other declared Init.mobile winWidth = Some size)
  /\ In size declared
  /\ ((exists s, In s declared /\ adequate winWidth s) ->
      adequate winWidth size
      /\ forall s, In s declared -> adequate winWidth s -> (size <= s)%Z)
  /\ ((forall s, In s declared -> ~ adequate winWidth s) ->
      forall s, In s declared -> (s <= size)%Z).
Proof.
intros Hne Hsorted Hpos.
unfold Init.setSrc_size. rewrite (map_to_int32_small declared Hpos).
destruct (find (fun s => Qlt_bool winWidth (Init.times_1_1 s)) declared) as [s0|] eqn:Hfind.
- destruct (find_first _ _ _ Hfind) as (l1 & l2 & Hdecl & Hs0 & Hl1).
  apply Qlt_bool_iff in Hs0.
  assert (Hin : In s0 declared)
    by (rewrite Hdecl; apply in_or_app; right; left; reflexivity).
  assert (Hs0pos : (0 < s0 < 2 ^ 31)%Z)
    by (rewrite Forall_forall in Hpos; exact (Hpos s0 Hin)).
  destruct (Z.eqb_spec s0 0) as [->|_]; [lia|].
  exists s0. repeat split; try exact Hin; try exact Hs0.
  + intros s Hs Had. rewrite Hdecl in Hs, Hsorted.
    apply in_app_or in Hs. destruct Hs as [Hs|Hs].
    * apply Hl1 in Hs. apply Qlt_bool_false_iff in Hs.
      unfold adequate in Had. lra.
    * exact (sorted_app_le l1 l2 s0 s Hsorted Hs).
  + intros Hnone. exfalso. exact (Hnone s0 Hin Hs0).
- destruct (exists_last Hne) as (l & a & Hdecl).
  assert (Hnone : forall s, In s declared -> ~ adequate winWidth s).
  { intros s Hs Had. apply (find_none _ _ Hfind) in Hs.
    apply Qlt_bool_false_iff in Hs. unfold adequate in Had. lra. }
  subst declared. exists a. rewrite nth_error_last.
  assert (Hin : In a (l ++ [a]))
    by (apply in_or_app; right; left; reflexivity).
  repeat split; try exact Hin.
  + destruct H as (s & Hs & Had). exfalso. exact (Hnone s Hs Had).
  + destruct H as (s & Hs & Had). exfalso. exact (Hnone s Hs Had).
  + intros _ s Hs. exact (sorted_le_last l a s Hsorted Hs).
Qed.

(** The double of the literal [1.1] is a multiple of [2 ^ -52] within half
    of that step of 11/10: it is the double nearest to it. *)
Lemma binary64_1_1_nearest :
Init.number_of_binary64 Init.binary64_1_1 == 4953959590107546 * 2 ^ (-52)
/\ Qabs (Init.number_of_binary64 Init.binary64_1_1 - 11 / 10) < 2 ^ (-53).
Proof. split; vm_compute; reflexivity. Qed.

(** The products of the sizes used below: [640 * 1.1] is 704, and
    [800 * 1.1] is one unit in the last place above 880. *)
Lemma times_1_1_values :
Init.times_1_1 640 == 704
/\ Init.times_1_1 800 == 880 + 2 ^ (-43)
/\ Init.times_1_1 960 == 1056
/\ Init.times_1_1 0 == 0.
Proof. repeat split; vm_compute; reflexivity. Qed.

(** C2, as the code has it.  For every ascending list of declared sizes
    (positive, below 2^31) and every viewport width, [setSrc] chooses the
    smallest declared size [s] whose product [s * 1.1], as binary64
    computes it, is above the viewport width, and the largest declared size
    when no size passes that test.  With sizes [640, 800] a viewport width
    of 700 selects 640 (704 exceeds 700) and a width of 1000 selects 800.
    With sizes [800, 960] a width of 880 selects 800: the product
    [800 * 1.1] is 880.0000000000001, which exceeds 880. *)
Theorem setSrc_size_smallest_adequate :
(forall (declared other : list Z) (aspect : Init.Aspect) (winWidth : Q),
    declared <> [] ->
    StronglySorted Z.le declared ->
    Forall (fun s => 0 < s < 2 ^ 31)%Z declared ->
    exists size,
      match aspect with
      | Init.desktop => Init.setSrc_size declared other aspect winWidth
      | Init.mobile => Init.setSrc_size other declared aspect winWidth
      end = Some size
      /\ In size declared
      /\ ((exists s, In s declared /\ adequate winWidth s) ->
          adequate winWidth size
          /\ forall s, In s declared -> adequate winWidth s -> (size <= s)%Z)
      /\ ((forall s, In s declared -> ~ adequate winWidth s) ->
          forall s, In s declared -> (s <= size)%Z))
/\ Init.setSrc_size [640; 800]%Z [640; 800]%Z Init.desktop 700 = Some 640%Z
/\ Init.setSrc_size [640; 800]%Z [640; 800]%Z Init.desktop 1000 = Some 800%Z
/\ Init.setSrc_size [800; 960]%Z [800; 960]%Z Init.desktop 880 = Some 800%Z
/\ adequate 880 800
/\ ~ adequate 704 640.
Proof.
split; [|repeat split; try (vm_compute; reflexivity); vm_compute; discriminate].
intros declared other aspect winWidth Hne Hsorted Hpos.
destruct (setSrc_size_sorted declared winWidth Hne Hsorted Hpos)
  as (size & Hd & Hm & Hin & Hsome & Hnone).
exists size. split; [destruct aspect; [apply Hd | apply Hm]|].
repeat split; try assumption; apply Hsome; assumption.
Qed.

Lemma setSrc_size_smallest_adequate_witness :
exists size,
  Init.setSrc_size [640; 800]%Z [960; 1280; 1600]%Z Init.desktop 700 = Some size
  /\ In size [640; 800]%Z.
Proof.
assert (Hne : [640; 800]%Z <> []) by discriminate.
assert (Hsorted : StronglySorted Z.le [640; 800]%Z).
{ repeat constructor; lia. }
assert (Hpos : Forall (fun s => 0 < s < 2 ^ 31)%Z [640; 800]%Z).
{ repeat constructor; lia. }
destruct (proj1 setSrc_size_smallest_adequate [640; 800]%Z [960; 1280; 1600]%Z
            Init.desktop 700 Hne Hsorted Hpos) as (size & Hsize & Hin & _).
exists size. split; assumption.
Defined.

(** C2, as stated, fails: with sizes [640, 800] and a viewport width of
    700 the choice is 640, not 800. *)
Lemma setSrc_size_700_not_800 :
Init.setSrc_size [640; 800]%Z [640; 800]%Z Init.desktop 700 = Some 640%Z
/\ Init.setSrc_size [640; 800]%Z [640; 800]%Z Init.mobile 700 = Some 640%Z
/\ Init.setSrc_size [640; 800]%Z [640; 800]%Z Init.desktop 700 <> Some 800%Z.
Proof.
repeat split. discriminate.
Qed.

(** ** Arrays rebuilt by [forEach] *)

Lemma forEach_from_length {A B : Type} (f : A -> nat -> B) (index : nat) (arr : list A) :
length (forEach_from f index arr) = length arr.
Proof.
revert index. induction arr as [|a arr IH]; intros index; simpl; [reflexivity|].
rewrite IH. reflexivity.
Qed.

Lemma forEach_from_nth {A B : Type} (f : A -> nat -> B) (index : nat) (arr : list A) (j : nat) :
nth_error (forEach_from f index arr) j
= option_map (fun value => f value (index + j)%nat) (nth_error arr j).
Proof.
revert index j. induction arr as [|a arr IH]; intros index [|j]; simpl; try reflexivity.
- rewrite Nat.add_0_r. reflexivity.
- rewrite IH. replace (S index + j)%nat with (index + S j)%nat by lia. reflexivity.
Qed.

Lemma forEach_length {A B : Type} (f : A -> nat -> B) (arr : list A) :
length (forEach f arr) = length arr.
Proof. apply forEach_from_length. Qed.

Lemma forEach_nth {A B : Type} (f : A -> nat -> B) (arr : list A) (j : nat) :
nth_error (forEach f arr) j = option_map (fun value => f value j) (nth_error arr j).
Proof. unfold forEach. rewrite forEach_from_nth. reflexivity. Qed.

Lemma forEach_In {A B : Type} (f : A -> nat -> B) (arr : list A) (y : B) :
In y (forEach f arr) -> exists x j, nth_error arr j = Some x /\ y = f x j.
Proof.
intros Hy. apply In_nth_error in Hy. destruct Hy as (j & Hj).
rewrite forEach_nth in Hj. destruct (nth_error arr j) as [x|] eqn:Hx; [|discriminate].
injection Hj as <-. exists x, j. split; [exact Hx | reflexivity].
Qed.

(** ** The buffering check *)

Section buffering.

Variable obj : Binding.

(** The first loop of [checkBuffered], started at the number of slides,
    never reads past the array and finds the applicable slot. *)
Lemma fallbackRange_loop_spec (st : State) (currPct : Q) (n : nat) :
(n <= length (slides obj))%nat ->
n = length (slides obj) \/ (length (slides obj) <= length (fallbackImages st))%nat ->
(forall j img, (n <= j < length (slides obj))%nat ->
               nth_error (fallbackImages st) j = Some img -> currPct <= start img) ->
exists slot,
  fallbackRange_loop obj n currPct st = Some slot
  /\ applicable_slot obj st currPct slot.
Proof.
induction n as [|i IH]; intros Hle Hinv Hskipped; simpl.
- eexists. split; [reflexivity|]. apply slot_none.
  + destruct Hinv as [<-|H]; [apply Nat.le_0_l | exact H].
  + intros j img Hj. apply Hskipped. lia.
- destruct (nth_error (fallbackImages st) i) as [img|] eqn:Himg.
  + assert (Hi : (i < length (fallbackImages st))%nat)
      by (apply nth_error_Some; congruence).
    destruct (Qlt_bool (start img) currPct) eqn:Hcmp.
    * apply Qlt_bool_iff in Hcmp.
      destruct (Z.eqb_spec (Z.of_nat i) (Z.of_nat (length (slides obj)) - 1)) as [Hlast|Hlast].
      -- eexists. split; [reflexivity|].
         apply (slot_last obj st currPct i img); [lia | lia | exact Himg | exact Hcmp].
      -- assert (Hlen : (length (slides obj) <= length (fallbackImages st))%nat)
           by (destruct Hinv as [Hn|Hn]; [lia | exact Hn]).
         replace (i + 1)%nat with (S i) by lia.
         destruct (nth_error (fallbackImages st) (S i)) as [next|] eqn:Hnext.
         ++ eexists. split; [reflexivity|].
            apply (slot_inner obj st currPct i img next); try assumption; lia.
         ++ apply nth_error_None in Hnext. lia.
    * apply Qlt_bool_false_iff in Hcmp.
      apply IH; [lia | right; destruct Hinv as [Hn|Hn]; [lia | exact Hn] |].
      intros j img' Hj Hj'.
      destruct (Nat.eq_dec j i) as [->|Hne].
      -- rewrite Himg in Hj'. injection Hj' as <-. exact Hcmp.
      -- apply (Hskipped j img'); [lia | exact Hj'].
  + eexists. split; [reflexivity|]. apply slot_not_loaded.
    apply nth_error_None in Himg.
    destruct Hinv as [Hn|Hn]; lia.
Qed.

Lemma fallbackRange_total (st : State) (currPct : Q) :
exists slot,
  fallbackRange_loop obj (length (slides obj)) currPct st = Some slot
  /\ applicable_slot obj st currPct slot.
Proof.
apply fallbackRange_loop_spec; [lia | left; reflexivity | intros j img Hj; lia].
Qed.

Lemma range_buffered_iff (currPct : Q) (slot : Range) (b : Q * Q) :
range_buffered currPct slot b = true <-> covers b currPct slot.
Proof.
unfold range_buffered, covers. rewrite !andb_true_iff, !Qle_bool_iff. tauto.
Qed.

Lemma existsb_rev {A : Type} (f : A -> bool) (l : list A) :
existsb f (rev l) = true <-> exists x, In x l /\ f x = true.
Proof.
rewrite existsb_exists. split; intros (x & Hx & Hf); exists x; split;
  try exact Hf; [apply in_rev; exact Hx | apply in_rev in Hx; exact Hx].
Qed.

(** [checkBuffered] always returns, and returns [true] exactly when the
    ready flag is set and one buffered range covers the percentage and the
    applicable slot. *)
Lemma checkBuffered_spec (frameToUse : Q) (st : State) :
exists isBuffered slot,
  checkBuffered obj frameToUse st = Some isBuffered
  /\ fallbackRange_loop obj (length (slides obj)) (currPct_of obj frameToUse) st = Some slot
  /\ applicable_slot obj st (currPct_of obj frameToUse) slot
  /\ (isBuffered = true <->
      readyState st = true
      /\ exists b, In b (buffered (video st))
                   /\ covers b (currPct_of obj frameToUse) slot).
Proof.
destruct (fallbackRange_total st (currPct_of obj frameToUse)) as (slot & Hloop & Hslot).
unfold checkBuffered. rewrite Hloop.
destruct (readyState st) eqn:Hready; simpl.
- eexists. exists slot. split; [reflexivity|]. split; [reflexivity|].
  split; [exact Hslot|].
  rewrite existsb_rev. split.
  + intros (b & Hb & Hcov). split; [reflexivity|]. exists b. split; [exact Hb|].
    apply range_buffered_iff. exact Hcov.
  + intros (_ & b & Hb & Hcov). exists b. split; [exact Hb|].
    apply range_buffered_iff. exact Hcov.
- exists false, slot. split; [reflexivity|]. split; [reflexivity|].
  split; [exact Hslot|].
  split; [discriminate | intros [H _]; discriminate].
Qed.

Lemma checkBuffered_total (frameToUse : Q) (st : State) :
exists isBuffered, checkBuffered obj frameToUse st = Some isBuffered.
Proof.
destruct (checkBuffered_spec frameToUse st) as (b & _ & H & _). exists b. exact H.
Qed.

Lemma checkBuffered_not_ready (frameToUse : Q) (st : State) :
readyState st = false -> checkBuffered obj frameToUse st = Some false.
Proof.
intros H. unfold checkBuffered. rewrite H. reflexivity.
Qed.

Lemma jumpToTime_cases (pct : Q) (st : State) :
exists isBuffered,
  checkBuffered obj (frameToUse_of obj pct st) st = Some isBuffered
  /\ jumpToTime obj pct st
     = Some (if isBuffered then honoured obj pct st else degraded obj pct st).
Proof.
destruct (checkBuffered_total (frameToUse_of obj pct st) st) as (b & Hb).
exists b. split; [exact Hb|].
unfold jumpToTime. rewrite Hb. destruct b; reflexivity.
Qed.

Lemma jumpToTime_total (pct : Q) (st : State) :
exists st', jumpToTime obj pct st = Some st'.
Proof.
destruct (jumpToTime_cases pct st) as (b & _ & H). eexists. exact H.
Qed.

Lemma updateStill_frame (pct : Q) (st : State) :
video (updateStill obj pct st) = video st
/\ fallbackImages (updateStill obj pct st) = fallbackImages st
/\ videoShouldUpdate (updateStill obj pct st) = videoShouldUpdate st
/\ still_g_show (stillImage (updateStill obj pct st)) = false.
Proof.
unfold updateStill. destruct (single_frames obj); repeat split.
Qed.

Lemma honoured_video (pct : Q) (st : State) :
video (honoured obj pct st)
= set_currentTime
    (seek_time obj (getTimeFromKeyframe obj
                      (checkForPauses obj (frameToUse_of obj pct st) pct (hideFallback st))))
    (set_video_style 1 visible (video st)).
Proof.
unfold honoured, updateStill. cbv zeta.
destruct (Qlt_bool _ _); destruct (single_frames obj); reflexivity.
Qed.

Lemma honoured_fallbackImages (pct : Q) (st : State) :
fallbackImages (honoured obj pct st)
= forEach (fun img index => set_g_show false img) (fallbackImages st).
Proof.
unfold honoured. cbv zeta.
destruct (Qlt_bool _ _); simpl.
- unfold updateStill. destruct (single_frames obj); reflexivity.
- reflexivity.
Qed.

End buffering.

(** ** The two branches of [jumpToTime] *)

Section branches.

Variable obj : Binding.

Lemma checkForPauses_loop_ext (rest : list Pause) (frameToUse pct : Q) (st1 st2 : State) :
videoLastFrame st1 = videoLastFrame st2 ->
checkForPauses_loop obj rest frameToUse pct st1
= checkForPauses_loop obj rest frameToUse pct st2.
Proof.
intros H. induction rest as [|p rest IH]; simpl; [reflexivity|].
rewrite H, IH. reflexivity.
Qed.

Lemma checkForPauses_ext (frameToUse pct : Q) (st1 st2 : State) :
videoLastFrame st1 = videoLastFrame st2 ->
checkForPauses obj frameToUse pct st1 = checkForPauses obj frameToUse pct st2.
Proof.
intros H. unfold checkForPauses. destruct (pauses obj); [|reflexivity].
apply checkForPauses_loop_ext. exact H.
Qed.

Lemma hideFallback_hides (st : State) :
Forall (fun img => g_show img = false) (fallbackImages (hideFallback st)).
Proof.
apply Forall_forall. intros img Himg. simpl in Himg.
apply forEach_In in Himg. destruct Himg as (x & j & _ & ->). reflexivity.
Qed.

Lemma honoured_properties (pct : Q) (st : State) :
visibility (video (honoured obj pct st)) = visible
/\ opacity (video (honoured obj pct st)) = 1
/\ currentTime (video (honoured obj pct st))
   = seek_time obj (getTimeFromKeyframe obj
                      (checkForPauses obj (frameToUse_of obj pct st) pct st))
/\ videoLastFrame (honoured obj pct st)
   = checkForPauses obj (frameToUse_of obj pct st) pct st
/\ Forall (fun img => g_show img = false) (fallbackImages (honoured obj pct st)).
Proof.
rewrite honoured_video, honoured_fallbackImages.
rewrite (checkForPauses_ext _ _ (hideFallback st) st) by reflexivity.
repeat split.
- unfold honoured. cbv zeta.
  rewrite (checkForPauses_ext _ _ (hideFallback st) st) by reflexivity.
  unfold updateStill.
  destruct (Qlt_bool _ _); destruct (single_frames obj); reflexivity.
- apply (hideFallback_hides st).
Qed.

Lemma degraded_properties (pct : Q) (st : State) :
visibility (video (degraded obj pct st)) = hidden
/\ opacity (video (degraded obj pct st)) = 0
/\ currentTime (video (degraded obj pct st)) = currentTime (video st)
/\ videoLastFrame (degraded obj pct st) = frameToUse_of obj pct st
/\ fallbackImages (degraded obj pct st) = fallbackImages (showFallback st).
Proof. repeat split. Qed.

End branches.

(** C10.  Every call of [jumpToTime] returns, and ends in one of two
    states: after a buffered check, the video visible with opacity 1 and no
    fallback image carrying the show class; otherwise the video hidden with
    opacity 0.  The video and a fallback image are never both shown. *)
Theorem jumpToTime_visibility (obj : Binding) (st : State) (pct : Q) :
exists st' : State,
  jumpToTime obj pct st = Some st'
  /\ ((checkBuffered obj (frameToUse_of obj pct st) st = Some true
       /\ opacity (video st') = 1
       /\ visibility (video st') = visible
       /\ Forall (fun img => g_show img = false) (fallbackImages st'))
      \/ (checkBuffered obj (frameToUse_of obj pct st) st = Some false
          /\ opacity (video st') = 0
          /\ visibility (video st') = hidden
          /\ fallbackImages st' = fallbackImages (showFallback st)))
  /\ ~ (visibility (video st') = visible
        /\ exists img, In img (fallbackImages st') /\ g_show img = true).
Proof.
destruct (jumpToTime_cases obj pct st) as ([|] & Hb & Hj); eexists; (split; [exact Hj|]).
- destruct (honoured_properties obj pct st) as (H1 & H2 & _ & _ & H5). split.
  + left. repeat split; assumption.
  + intros (_ & img & Himg & Hshow).
    rewrite Forall_forall in H5. rewrite (H5 img Himg) in Hshow. discriminate.
- destruct (degraded_properties obj pct st) as (H1 & H2 & _ & _ & H5). split.
  + right. repeat split; assumption.
  + intros (Hvis & _). rewrite H1 in Hvis. discriminate.
Qed.

(** ** The fallback images shown *)

Lemma showFallback_nth (st : State) (i : nat) (img : FallbackImage) :
nth_error (fallbackImages st) i = Some img ->
exists img',
  nth_error (fallbackImages (showFallback st)) i = Some img'
  /\ start img' = start img
  /\ (g_show img' = true <->
      (start img <= scrollPct st /\ 0 < scrollPct st)
      \/ (scrollPct st < start img /\ i = 0%nat)).
Proof.
intros Himg. simpl. rewrite forEach_nth, Himg. simpl.
eexists. split; [reflexivity|].
q_case_le (start img) (scrollPct st); q_case 0 (scrollPct st);
  q_case (scrollPct st) (start img); destruct (Nat.eqb_spec i 0); simpl;
  (split; [reflexivity|]);
  (split; [intros H; try discriminate; try (left; split; assumption);
           try (right; split; assumption)
          | intros [[H1 H2]|[H1 H2]]; try reflexivity; try lra; try contradiction]).
Qed.

(** C4, as the code has it.  When the buffering check fails, [jumpToTime]
    gives the show class to every fallback image that starts at or below
    the stored scroll percentage, provided that percentage is positive, and
    to the first image when the percentage is below its start; it takes the
    class from every other image and hides the video. *)
Theorem showFallback_marks (obj : Binding) (st : State) (pct : Q) :
checkBuffered obj (frameToUse_of obj pct st) st = Some false ->
exists st' : State,
  jumpToTime obj pct st = Some st'
  /\ length (fallbackImages st') = length (fallbackImages st)
  /\ (forall i img,
         nth_error (fallbackImages st) i = Some img ->
         exists img',
           nth_error (fallbackImages st') i = Some img'
           /\ start img' = start img
           /\ (g_show img' = true <->
               (start img <= scrollPct st /\ 0 < scrollPct st)
               \/ (scrollPct st < start img /\ i = 0%nat)))
  /\ opacity (video st') = 0
  /\ visibility (video st') = hidden.
Proof.
intros Hb. exists (degraded obj pct st). split.
- unfold jumpToTime. rewrite Hb. reflexivity.
- split; [simpl; apply forEach_length|]. split.
  + intros i img Himg. apply (showFallback_nth st i img Himg).
  + split; reflexivity.
Qed.

Lemma showFallback_marks_witness :
exists st' : State,
  jumpToTime two_slides 0.75 (settled two_slides 0.75 false []) = Some st'
  /\ visibility (video st') = hidden.
Proof.
assert (H : checkBuffered two_slides
              (frameToUse_of two_slides 0.75 (settled two_slides 0.75 false []))
              (settled two_slides 0.75 false []) = Some false) by reflexivity.
destruct (showFallback_marks two_slides (settled two_slides 0.75 false []) 0.75 H)
  as (st' & Hj & _ & _ & _ & Hv).
exists st'. split; [exact Hj | exact Hv].
Defined.

(** C4, as stated, fails: with images starting at 0.25 and 0.5 and a scroll
    percentage of 0.75, the update on an unready video shows both images,
    not only the one that starts at 0.5. *)
Lemma showFallback_shows_two :
exists st' : State,
  jumpToTime two_slides 0.75 (settled two_slides 0.75 false []) = Some st'
  /\ map g_show (fallbackImages st') = [true; true].
Proof.
eexists. split; reflexivity.
Qed.

(** ** Pause regions *)

Lemma checkForPauses_loop_skip (obj : Binding) (skipped rest : list Pause)
      (frameToUse pct : Q) (st : State) :
Forall (fun r => ~ (pause_start r < pct < pause_end r)) skipped ->
checkForPauses_loop obj (skipped ++ rest) frameToUse pct st
= checkForPauses_loop obj rest frameToUse pct st.
Proof.
induction 1 as [|r skipped Hr _ IH]; simpl; [reflexivity|].
q_case (pause_start r) pct; q_case pct (pause_end r); simpl;
  try exact IH.
exfalso. apply Hr. split; assumption.
Qed.

Lemma checkForPauses_none (obj : Binding) (frameToUse pct : Q) (st : State) :
no_pause obj pct -> checkForPauses obj frameToUse pct st = frameToUse.
Proof.
unfold no_pause, checkForPauses. destruct (pauses obj) as [ps|]; [|reflexivity].
intros H. rewrite <- (app_nil_r (rev ps)).
apply checkForPauses_loop_skip.
apply Forall_forall. intros r Hr. rewrite Forall_forall in H.
apply H. apply in_rev. exact Hr.
Qed.

(** C5, as the code has it.  For every pause region from [a] to [b] of the
    binding and every percentage strictly between [a] and [b] that no
    region listed after it holds, the pause check returns the last frame
    moved by a tenth of its distance to the frame at [a]; it returns the
    frame at [a] once the last frame is that frame. *)
Theorem checkForPauses_eases (obj : Binding) (st : State)
      (before after : list Pause) (r : Pause) (frameToUse pct : Q) :
pauses obj = Some (before ++ r :: after) ->
pause_start r < pct < pause_end r ->
Forall (fun r' => ~ (pause_start r' < pct < pause_end r')) after ->
let held := inject_Z (frameLength obj) * pause_start r in
checkForPauses obj frameToUse pct st
== videoLastFrame st + (held - videoLastFrame st) / 10
/\ (videoLastFrame st == held -> checkForPauses obj frameToUse pct st == held).
Proof.
intros Hps [Ha Hb] Hafter held.
assert (Heq : checkForPauses obj frameToUse pct st
              = videoLastFrame st + (held - videoLastFrame st) / stepDivisor).
{ unfold checkForPauses. rewrite Hps.
  rewrite rev_app_distr. simpl. rewrite <- app_assoc.
  rewrite checkForPauses_loop_skip.
  - simpl. apply Qlt_bool_iff in Ha. apply Qlt_bool_iff in Hb.
    rewrite Ha, Hb. reflexivity.
  - apply Forall_forall. intros r' Hr'. rewrite Forall_forall in Hafter.
    apply Hafter. apply in_rev. exact Hr'. }
rewrite Heq. unfold stepDivisor. split; [reflexivity|].
intros Hheld. rewrite Hheld. field.
Qed.

Lemma checkForPauses_eases_witness :
checkForPauses paused_binding 22.5 0.375 (settled paused_binding 0.375 true [(0, 20)])
== 0 + (600 * 0.25 - 0) / 10.
Proof.
assert (Hps : pauses paused_binding
              = Some ([] ++ {| pause_start := 0.25; pause_end := 0.5 |} :: []))
  by reflexivity.
assert (Hin : pause_start {| pause_start := 0.25; pause_end := 0.5 |} < 0.375
              < pause_end {| pause_start := 0.25; pause_end := 0.5 |})
  by (split; vm_compute; reflexivity).
exact (proj1 (checkForPauses_eases paused_binding
                (settled paused_binding 0.375 true [(0, 20)])
                [] [] {| pause_start := 0.25; pause_end := 0.5 |} 22.5 0.375
                Hps Hin (Forall_nil _))).
Defined.

(** C5, as stated, fails: in the pause region from 0.25 to 0.5 of a
    binding of 600 frames, at percentage 0.375 and last frame 0, the pause
    check returns frame 15, not frame 150; at percentage 0.25, the start of
    the region, it returns the frame it was given. *)
Lemma checkForPauses_not_region_start :
checkForPauses paused_binding 22.5 0.375 (settled paused_binding 0.375 true [(0, 20)]) == 15
/\ ~ (checkForPauses paused_binding 22.5 0.375
        (settled paused_binding 0.375 true [(0, 20)])
      == inject_Z (frameLength paused_binding) * 0.25)
/\ checkForPauses paused_binding 15 0.25 (settled paused_binding 0.25 true [(0, 20)]) == 15.
Proof.
split; [vm_compute; reflexivity|]. split; [|vm_compute; reflexivity].
vm_compute. discriminate.
Qed.

(** ** The frame sought on a buffered update *)

Section eased_frame.

Variable obj : Binding.

Lemma frameToUse_of_clamp (pct : Q) (st : State) :
0 <= inject_Z (frameLength obj) ->
frameToUse_of obj pct st
== clamp 0 (inject_Z (frameLength obj))
         (videoLastFrame st
          + (inject_Z (frameLength obj) * pct - videoLastFrame st) / 10).
Proof.
intros H. rewrite (clamp_spec _ _ _ H). reflexivity.
Qed.

Lemma frameToUse_of_range (pct : Q) (st : State) :
0 <= inject_Z (frameLength obj) ->
0 <= frameToUse_of obj pct st <= inject_Z (frameLength obj).
Proof.
intros H. unfold frameToUse_of. cbv zeta.
set (v := videoLastFrame st + _).
q_case v 0; [lra|]. q_case (inject_Z (frameLength obj)) v; lra.
Qed.

Lemma seek_time_inside (t : Q) :
0 <= t <= inject_Z (frameLength obj) -> seek_time obj t = t.
Proof.
intros [H0 H1]. unfold seek_time.
apply Qlt_bool_false_iff in H0. rewrite H0.
apply Qlt_bool_false_iff in H1. rewrite H1. reflexivity.
Qed.

Lemma getTimeFromKeyframe_range (frame : Q) :
(0 < frameRate obj)%Z ->
0 <= frame <= inject_Z (frameLength obj) ->
0 <= getTimeFromKeyframe obj frame <= inject_Z (frameLength obj).
Proof.
intros Hrate [H0 H1]. unfold getTimeFromKeyframe.
assert (Hr : 1 <= inject_Z (frameRate obj)).
{ change 1 with (inject_Z 1). rewrite <- Zle_Qle. lia. }
split.
- apply Qle_shift_div_l; lra.
- apply Qle_shift_div_r; [lra|]. nra.
Qed.

End eased_frame.

(** C9, as the code has it.  For a binding with a positive frame rate and
    frame count, on every buffered update at a percentage that no pause
    region holds, the frame sought is the last frame plus a tenth of its
    distance to the target frame, clamped to [0, frameLength]; that frame
    becomes the last frame, and the video's [currentTime] is that frame
    divided by the frame rate.  Where the clamp does not act, the update
    moves the position by a tenth of the remaining distance. *)
Theorem jumpToTime_eases (obj : Binding) (st : State) (pct : Q) :
(0 < frameRate obj)%Z ->
(0 < frameLength obj)%Z ->
no_pause obj pct ->
checkBuffered obj (frameToUse_of obj pct st) st = Some true ->
let target := inject_Z (frameLength obj) * pct in
let eased := videoLastFrame st + (target - videoLastFrame st) / 10 in
let frame := clamp 0 (inject_Z (frameLength obj)) eased in
stepDivisor = 10
/\ exists st' : State,
     jumpToTime obj pct st = Some st'
     /\ videoLastFrame st' == frame
     /\ currentTime (video st') == frame / inject_Z (frameRate obj)
     /\ (0 <= eased <= inject_Z (frameLength obj) ->
         videoLastFrame st' - videoLastFrame st == (target - videoLastFrame st) / 10).
Proof.
intros Hrate Hlen Hpause Hb target eased frame.
assert (Hfl : 0 <= inject_Z (frameLength obj)).
{ change 0 with (inject_Z 0). rewrite <- Zle_Qle. lia. }
split; [reflexivity|].
exists (honoured obj pct st). split.
- unfold jumpToTime. rewrite Hb. reflexivity.
- destruct (honoured_properties obj pct st) as (_ & _ & Ht & Hlast & _).
  rewrite (checkForPauses_none obj _ pct st Hpause) in Ht, Hlast.
  rewrite Ht, Hlast.
  rewrite seek_time_inside
    by (apply getTimeFromKeyframe_range;
        [exact Hrate | apply frameToUse_of_range; exact Hfl]).
  pose proof (frameToUse_of_clamp obj pct st Hfl) as Hclamp.
  fold target in Hclamp. fold eased in Hclamp. fold frame in Hclamp.
  split; [exact Hclamp|]. split.
  + unfold getTimeFromKeyframe. rewrite Hclamp. reflexivity.
  + intros Hin. rewrite Hclamp. unfold frame.
    rewrite (clamp_spec _ _ _ Hfl).
    destruct Hin as [H0 H1].
    apply Qlt_bool_false_iff in H0. rewrite H0.
    apply Qlt_bool_false_iff in H1. rewrite H1.
    unfold eased. ring.
Qed.

Lemma jumpToTime_eases_witness :
exists st' : State,
  jumpToTime two_slides 0.75 (settled two_slides 0.75 true [(0, 20)]) = Some st'
  /\ videoLastFrame st' == clamp 0 600 (0 + (600 * 0.75 - 0) / 10).
Proof.
assert (Hrate : (0 < frameRate two_slides)%Z) by reflexivity.
assert (Hlen : (0 < frameLength two_slides)%Z) by reflexivity.
assert (Hpause : no_pause two_slides 0.75) by exact I.
assert (Hb : checkBuffered two_slides
               (frameToUse_of two_slides 0.75 (settled two_slides 0.75 true [(0, 20)]))
               (settled two_slides 0.75 true [(0, 20)]) = Some true) by reflexivity.
destruct (jumpToTime_eases two_slides (settled two_slides 0.75 true [(0, 20)]) 0.75
            Hrate Hlen Hpause Hb) as (_ & st' & Hj & Hlast & _).
exists st'. split; [exact Hj | exact Hlast].
Defined.

(** C9, as stated, fails: inside the pause region from 0.25 to 0.5 of a
    binding of 600 frames at 30 frames per second, a buffered update at
    percentage 0.375 from last frame 0 seeks frame 15 (time 0.5), not the
    frame 22.5 a tenth of the way to the target frame 225 (time 0.75). *)
Lemma jumpToTime_pause_overrides :
checkBuffered paused_binding
  (frameToUse_of paused_binding 0.375 (settled paused_binding 0.375 true [(0, 20)]))
  (settled paused_binding 0.375 true [(0, 20)]) = Some true
/\ exists st' : State,
     jumpToTime paused_binding 0.375 (settled paused_binding 0.375 true [(0, 20)]) = Some st'
     /\ videoLastFrame st' == 15
     /\ currentTime (video st') == 0.5
     /\ ~ (videoLastFrame st' == clamp 0 600 (0 + (600 * 0.375 - 0) / 10))
     /\ ~ (currentTime (video st') == clamp 0 600 (0 + (600 * 0.375 - 0) / 10) / 30).
Proof.
split; [reflexivity|].
eexists. split; [reflexivity|].
split; [vm_compute; reflexivity|]. split; [vm_compute; reflexivity|].
split; vm_compute; discriminate.
Qed.

(** ** The progress handler *)

Section progress.

Variable obj : Binding.

Lemma on_progress_stores (e : ProgressEvent) (st : State) :
Qeq_bool (scrollPct (on_progress obj e st)) (progress e) = true.
Proof.
unfold on_progress.
destruct (state e); simpl;
  destruct (Qeq_bool (scrollPct st) (progress e)) eqn:E; simpl;
  try exact E;
  try (destruct (videoShouldUpdate st)); simpl; apply Qeq_bool_refl.
Qed.

Lemma on_progress_same (e : ProgressEvent) (st : State) :
Qeq_bool (scrollPct st) (progress e) = true ->
on_progress obj e st
= match state e with
  | BEFORE | AFTER => set_videoShouldUpdate false st
  | DURING => st
  end.
Proof.
intros H. unfold on_progress. destruct (state e); simpl; rewrite H; reflexivity.
Qed.

End progress.

(** When the handler recomputes: the incoming progress differs from the
    stored percentage and no animation towards a target is under way. *)
Lemma on_progress_recomputes (obj : Binding) (e : ProgressEvent) (st : State) :
~ (scrollPct st == progress e) ->
state e <> DURING \/ videoShouldUpdate st = false ->
timers (on_progress obj e st)
= timers st ++ [{| due := (now st + 10)%Z;
                   callback := call_jumpToTime (jumpToPct_of obj (progress e)) |}]
/\ scrollPct (on_progress obj e st) = progress e.
Proof.
intros Hne Hidle. unfold on_progress.
assert (Hcmp : Qeq_bool (scrollPct st) (progress e) = false).
{ destruct (Qeq_bool (scrollPct st) (progress e)) eqn:E; [|reflexivity].
  apply Qeq_bool_iff in E. contradiction. }
destruct (state e); simpl; rewrite Hcmp; simpl; try (split; reflexivity).
destruct Hidle as [H|H]; [contradiction|]. rewrite H. split; reflexivity.
Qed.

Example scrolling_video_top_targets :
videoNextFrame_of scrolling_video_top (jumpToPct_of scrolling_video_top 0.05) == 0
/\ videoNextFrame_of scrolling_video_top (jumpToPct_of scrolling_video_top 0.1) == 0
/\ videoNextFrame_of scrolling_video_top (jumpToPct_of scrolling_video_top 0.3) == 150
/\ videoNextFrame_of scrolling_video_top (jumpToPct_of scrolling_video_top 0.9) == 600
/\ videoNextFrame_of scrolling_video_top (jumpToPct_of scrolling_video_top 1) == 600.
Proof. repeat split. Qed.

(** C8.  A second call of the progress handler with the same progress value
    changes neither the stored scroll percentage, nor the video, nor the
    fallback images, nor the still image, nor the last frame, and queues
    no update; and whenever the handler queues an update, the incoming
    progress differs from the stored scroll percentage. *)
Theorem on_progress_idempotent :
(forall (obj : Binding) (st : State) (phase1 phase2 : Phase) (p : Q),
    let st1 := on_progress obj {| state := phase1; progress := p |} st in
    let st2 := on_progress obj {| state := phase2; progress := p |} st1 in
    scrollPct st2 = scrollPct st1
    /\ video st2 = video st1
    /\ fallbackImages st2 = fallbackImages st1
    /\ stillImage st2 = stillImage st1
    /\ videoLastFrame st2 = videoLastFrame st1
    /\ timers st2 = timers st1)
/\ (forall (obj : Binding) (st : State) (e : ProgressEvent),
       timers (on_progress obj e st) <> timers st ->
       ~ (scrollPct st == progress e)).
Proof.
split.
- intros obj st phase1 phase2 p st1 st2.
  pose proof (on_progress_stores obj {| state := phase1; progress := p |} st) as Hstored.
  fold st1 in Hstored. simpl in Hstored.
  subst st2. rewrite on_progress_same by exact Hstored.
  destruct phase2; repeat split.
- intros obj st e Hchanged Heq. apply Hchanged.
  rewrite on_progress_same by (apply Qeq_bool_iff; exact Heq).
  destruct (state e); reflexivity.
Qed.

Lemma on_progress_idempotent_witness :
~ (scrollPct (settled two_slides 0.25 false []) == 0.5).
Proof.
apply (proj2 on_progress_idempotent two_slides (settled two_slides 0.25 false [])
         {| state := DURING; progress := 0.5 |}).
vm_compute. discriminate.
Defined.

(** ** What the handlers leave alone *)

Section frames.

Variable obj : Binding.

Lemma jumpToTime_frame (pct : Q) (st st' : State) :
jumpToTime obj pct st = Some st' ->
log st' = log st /\ timers st' = timers st /\ now st' = now st
/\ readyState st' = readyState st
/\ playThroughTimer st' = playThroughTimer st
/\ video_readyState (video st') = video_readyState (video st)
/\ length (fallbackImages st') = length (fallbackImages st).
Proof.
destruct (jumpToTime_cases obj pct st) as (b & _ & Hj). rewrite Hj.
intros [= <-]. destruct b.
- unfold honoured, updateStill. cbv zeta.
  destruct (Qlt_bool _ _); destruct (single_frames obj); simpl;
    rewrite forEach_length; repeat split.
- unfold degraded. simpl. rewrite forEach_length. repeat split.
Qed.

Lemma loadFallbackImages_total (index : nat) (imagesArr : list Slide) (st : State) :
exists st', loadFallbackImages index imagesArr st = Some st'.
Proof.
unfold loadFallbackImages.
destruct (Z.gtb_spec (Z.of_nat index) (Z.of_nat (length imagesArr) - 1)) as [H|H].
- eexists. reflexivity.
- destruct (nth_error imagesArr index) eqn:E; [eexists; reflexivity|].
  apply nth_error_None in E. lia.
Qed.

Lemma loadFallbackImages_frame (index : nat) (imagesArr : list Slide) (st st' : State) :
loadFallbackImages index imagesArr st = Some st' ->
timers st' = timers st /\ now st' = now st
/\ readyState st' = readyState st
/\ playThroughTimer st' = playThroughTimer st
/\ video st' = video st.
Proof.
unfold loadFallbackImages.
destruct (Z.gtb _ _); [intros [= <-]; repeat split|].
destruct (nth_error imagesArr index); [|discriminate].
intros [= <-]. repeat split.
Qed.

Lemma adjustScrollPct_frame (st : State) :
log (adjustScrollPct obj st) = log st
/\ now (adjustScrollPct obj st) = now st
/\ readyState (adjustScrollPct obj st) = readyState st
/\ playThroughTimer (adjustScrollPct obj st) = playThroughTimer st
/\ video (adjustScrollPct obj st) = video st
/\ fallbackImages (adjustScrollPct obj st) = fallbackImages st
/\ timers (adjustScrollPct obj st)
   = timers st ++ [{| due := (now st + 10)%Z;
                      callback := call_jumpToTime (jumpToPct_of obj (scrollPct st)) |}].
Proof. repeat split. Qed.

Lemma on_progress_frame (e : ProgressEvent) (st : State) :
log (on_progress obj e st) = log st
/\ now (on_progress obj e st) = now st
/\ readyState (on_progress obj e st) = readyState st
/\ playThroughTimer (on_progress obj e st) = playThroughTimer st
/\ video (on_progress obj e st) = video st
/\ fallbackImages (on_progress obj e st) = fallbackImages st
/\ (timers (on_progress obj e st) = timers st
    \/ exists pct, timers (on_progress obj e st)
                   = timers st ++ [{| due := (now st + 10)%Z;
                                      callback := call_jumpToTime pct |}]).
Proof.
unfold on_progress.
destruct (state e); simpl;
  destruct (Qeq_bool (scrollPct st) (progress e)); simpl;
  try (destruct (videoShouldUpdate st)); simpl;
  repeat split; try (left; reflexivity); right; eexists; reflexivity.
Qed.

Lemma on_timeupdate_frame (st : State) :
log (on_timeupdate obj st) = log st
/\ now (on_timeupdate obj st) = now st
/\ readyState (on_timeupdate obj st) = readyState st
/\ playThroughTimer (on_timeupdate obj st) = playThroughTimer st
/\ video (on_timeupdate obj st) = video st
/\ fallbackImages (on_timeupdate obj st) = fallbackImages st
/\ (timers (on_timeupdate obj st) = timers st
    \/ exists pct, timers (on_timeupdate obj st)
                   = timers st ++ [{| due := (now st + 10)%Z;
                                      callback := call_jumpToTime pct |}]).
Proof.
unfold on_timeupdate. destruct (videoShouldUpdate st); simpl;
  repeat split; try (left; reflexivity); right; eexists; reflexivity.
Qed.

End frames.

(** ** A video that never becomes playable *)

Section unready_video.

Variable obj : Binding.

Lemma fire_unready (t : Z) (ev : Event) (st st' : State) :
match ev with ev_media rs _ => (rs <= 3)%Z | _ => True end ->
unready st ->
fire obj t ev st = Some st' ->
unready st'.
Proof.
intros Hev [Hflag Hvideo]. unfold fire.
destruct (Z.ltb t (now st)); [discriminate|].
destruct ev as [e| | |k|index| |rs buf].
- intros [= <-].
  destruct (on_progress_frame obj e (set_now t st)) as (_ & _ & H1 & _ & H2 & _).
  split; [rewrite H1 | rewrite H2]; assumption.
- intros [= <-].
  destruct (on_timeupdate_frame obj (set_now t st)) as (_ & _ & H1 & _ & H2 & _).
  split; [rewrite H1 | rewrite H2]; assumption.
- simpl. destruct (playThroughTimer st); [|discriminate].
  intros [= <-]. unfold playThroughTimer_tick. simpl.
  destruct (Z.gtb_spec (video_readyState (video st)) 3) as [H|H]; [lia|].
  split; assumption.
- simpl. destruct (nth_error (timers st) k) as [tm|]; [|discriminate].
  destruct (Z.leb (due tm) t); [|discriminate].
  destruct (callback tm) as [pct|index]; simpl; intros Hrun.
  + apply jumpToTime_frame in Hrun.
    destruct Hrun as (_ & _ & _ & H1 & _ & H2 & _).
    split; [rewrite H1 | rewrite H2]; assumption.
  + apply loadFallbackImages_frame in Hrun.
    destruct Hrun as (_ & _ & H1 & _ & H2).
    split; [rewrite H1 | rewrite H2]; assumption.
- destruct (in_flight (set_now t st) index); [|discriminate].
  intros [= <-]. unfold fallback_onload.
  destruct (Nat.eqb index 0); split; assumption.
- intros [= <-]. split; assumption.
- intros [= <-]. split; [exact Hflag | exact Hev].
Qed.

Lemma run_unready (evs : list (Z * Event)) (st st' : State) :
never_playable evs ->
unready st ->
run obj evs st = Some st' ->
unready st'.
Proof.
revert st. induction evs as [|[t ev] evs IH]; intros st Hevs Hst; simpl.
- intros [= <-]. exact Hst.
- inversion Hevs as [|? ? Hev Hrest]; subst.
  destruct (fire obj t ev st) as [st1|] eqn:Hfire; [|discriminate].
  apply IH; [exact Hrest|]. exact (fire_unready t ev st st1 Hev Hst Hfire).
Qed.

Lemma create_total (t0 : Z) (vid : Video) (still : StillImage) :
exists st0, create obj t0 vid still = Some st0.
Proof. apply loadFallbackImages_total. Qed.

Lemma create_unready (t0 : Z) (vid : Video) (still : StillImage) (st0 : State) :
(video_readyState vid <= 3)%Z ->
create obj t0 vid still = Some st0 ->
unready st0.
Proof.
intros Hvid Hcreate. apply loadFallbackImages_frame in Hcreate.
destruct Hcreate as (_ & _ & H1 & _ & H2). split.
- rewrite H1. reflexivity.
- rewrite H2. exact Hvid.
Qed.

End unready_video.

(** ** The grace period of [setSrc] *)

Lemma update_video_nth (k : nat) (v : Init.VideoEl) (pg : Init.Page) :
(k < length (Init.videos pg))%nat ->
nth_error (Init.videos (Init.update_video k v pg)) k = Some v.
Proof.
intros Hk. unfold Init.update_video. cbn [Init.videos].
rewrite nth_error_app2 by (rewrite length_firstn; lia).
rewrite length_firstn. replace (k - Nat.min k (length (Init.videos pg)))%nat with 0%nat by lia.
reflexivity.
Qed.

Lemma update_video_length (k : nat) (v : Init.VideoEl) (pg : Init.Page) :
(k < length (Init.videos pg))%nat ->
length (Init.videos (Init.update_video k v pg)) = length (Init.videos pg).
Proof.
intros Hk. unfold Init.update_video. cbn [Init.videos].
rewrite length_app. cbn [length].
rewrite length_firstn, length_skipn. lia.
Qed.

Lemma update_video_other (k j : nat) (v : Init.VideoEl) (pg : Init.Page) :
(k < length (Init.videos pg))%nat -> j <> k ->
nth_error (Init.videos (Init.update_video k v pg)) j = nth_error (Init.videos pg) j.
Proof.
intros Hk Hj. unfold Init.update_video. cbn [Init.videos].
destruct (Nat.lt_ge_cases j k) as [Hlt|Hge].
- rewrite nth_error_app1 by (rewrite length_firstn; lia).
  rewrite nth_error_firstn.
  destruct (Nat.ltb_spec j k); [reflexivity | lia].
- rewrite nth_error_app2 by (rewrite length_firstn; lia).
  rewrite length_firstn. replace (Nat.min k (length (Init.videos pg))) with k by lia.
  destruct (j - k)%nat as [|d] eqn:Hd; [lia|]. cbn [nth_error].
  rewrite nth_error_skipn. f_equal. lia.
Qed.

Lemma loadVideosAsync_starts (pg : Init.Page) :
(Init.vidsLoaded pg < length (Init.videos pg))%nat ->
Init.loadVideosAsync pg
= {| Init.clock := Init.clock pg;
     Init.vidsLoaded := S (Init.vidsLoaded pg);
     Init.videos :=
       Init.videos
         (Init.update_video (Init.vidsLoaded pg)
            {| Init.loadNextVideo := Some (Init.clock pg + 7500)%Z;
               Init.canplaythrough_listener := true;
               Init.playing := true |} pg) |}.
Proof.
intros H. unfold Init.loadVideosAsync.
destruct (Nat.ltb_spec (Init.vidsLoaded pg) (length (Init.videos pg))); [reflexivity | lia].
Qed.

Lemma loadVideosAsync_counts (pg : Init.Page) :
Init.vidsLoaded (Init.loadVideosAsync pg) = S (Init.vidsLoaded pg).
Proof.
unfold Init.loadVideosAsync. destruct (Nat.ltb _ _); reflexivity.
Qed.

(** What the timeout of video [k] and its [canplaythrough] event both do
    once the video is loading. *)
Lemma deliver_next (pg : Init.Page) (k : nat) (t : Z) :
Init.vidsLoaded pg = k ->
(k < length (Init.videos pg))%nat ->
(Init.clock pg <= t)%Z ->
let loading := Init.loadVideosAsync pg in
let at_t := {| Init.clock := t; Init.vidsLoaded := Init.vidsLoaded loading;
               Init.videos := Init.videos loading |} in
Init.deliver t (Init.ev_canplaythrough k) loading = Some (Init.next k at_t)
/\ Init.deliver t (Init.ev_loadNextVideo k) loading
   = (if (Init.clock pg + 7500 <=? t)%Z then Some (Init.next k at_t) else None).
Proof.
intros Hk Hlen Ht loading at_t. subst loading at_t.
rewrite loadVideosAsync_starts by lia. rewrite Hk.
unfold Init.deliver. cbn [Init.clock Init.vidsLoaded Init.videos].
destruct (Z.ltb_spec t (Init.clock pg)); [lia|].
rewrite update_video_nth by exact Hlen.
cbn [Init.canplaythrough_listener Init.loadNextVideo]. split; reflexivity.
Qed.

(** ** The loader of the fallback images *)

Lemma req_indices_app (l1 l2 : list (Z * Action)) :
req_indices (l1 ++ l2) = req_indices l1 ++ req_indices l2.
Proof. apply flat_map_app. Qed.

Lemma load_indices_app (l1 l2 : list (Z * Action)) :
load_indices (l1 ++ l2) = load_indices l1 ++ load_indices l2.
Proof. apply flat_map_app. Qed.

Lemma logged_request (i : nat) (st : State) :
logged (request_fallback i) st = true <-> In i (req_indices (log st)).
Proof.
unfold logged. induction (log st) as [|[t a] l IH]; simpl.
- split; [discriminate | intros []].
- rewrite orb_true_iff, IH, in_app_iff. destruct a as [j|j]; simpl.
  + rewrite Nat.eqb_eq. intuition.
  + intuition discriminate.
Qed.

Lemma logged_onload (i : nat) (st : State) :
logged (onload_fallback i) st = true <-> In i (load_indices (log st)).
Proof.
unfold logged. induction (log st) as [|[t a] l IH]; simpl.
- split; [discriminate | intros []].
- rewrite orb_true_iff, IH, in_app_iff. destruct a as [j|j]; simpl.
  + intuition discriminate.
  + rewrite Nat.eqb_eq. intuition.
Qed.

Lemma in_flight_iff (st : State) (i : nat) :
in_flight st i = true
<-> In i (req_indices (log st)) /\ ~ In i (load_indices (log st)).
Proof.
unfold in_flight. rewrite andb_true_iff, negb_true_iff, logged_request.
rewrite <- logged_onload.
destruct (logged (onload_fallback i) st); intuition congruence.
Qed.

(** Under the invariant the only image in flight is the one requested
    last, and only while the loader waits for its [onload]. *)
Lemma in_flight_loading (obj : Binding) (st : State) (k i : nat) :
loader_inv obj st k ->
in_flight st i = true ->
exists j, k = S j /\ i = j
          /\ load_indices (log st) = seq 0 j
          /\ loader_timers (timers st) = [].
Proof.
intros Hinv Hfl. apply in_flight_iff in Hfl. destruct Hfl as [Hreq Hnot].
rewrite (inv_requests obj st k Hinv) in Hreq. apply in_seq in Hreq.
destruct (inv_phase obj st k Hinv) as [j Hk Hloads Htimers|t' j Hk Hloads _ _|Hloads _].
- exists j. rewrite Hloads in Hnot. rewrite in_seq in Hnot.
  repeat split; try assumption. lia.
- exfalso. apply Hnot. rewrite Hloads. apply in_seq. lia.
- exfalso. apply Hnot. rewrite Hloads. apply in_seq. lia.
Qed.

Lemma app_cons_snoc {A : Type} (pre post l : list A) (x y : A) :
pre ++ x :: post = l ++ [y] ->
(post = [] /\ pre = l /\ x = y)
\/ exists post', post = post' ++ [y] /\ l = pre ++ x :: post'.
Proof.
intros H.
assert (Hpost : post = [] \/ exists post' z, post = post' ++ [z]).
{ destruct post as [|a post]; [left; reflexivity|]. right.
  destruct (@exists_last _ (a :: post)) as (post' & z & Hz); [discriminate|].
  exists post', z. exact Hz. }
destruct Hpost as [->|(post' & z & ->)].
- left. apply app_inj_tail in H. destruct H as [H1 H2]. auto.
- right. exists post'.
  change (pre ++ x :: post' ++ [z]) with (pre ++ (x :: post') ++ [z]) in H.
  rewrite app_assoc in H. apply app_inj_tail in H. destruct H as [H1 H2].
  subst. auto.
Qed.

Lemma spaced_onload (l : list (Z * Action)) (t : Z) (i : nat) :
spaced l -> spaced (l ++ [(t, onload_fallback i)]).
Proof.
intros Hl pre t1 i1 post Heq. symmetry in Heq.
apply app_cons_snoc in Heq. destruct Heq as [(_ & _ & Hx)|(post' & _ & Hl')].
- discriminate.
- exact (Hl pre t1 i1 post' Hl').
Qed.

Lemma spaced_request (l : list (Z * Action)) (t t' : Z) (j : nat) :
spaced l ->
In (t', onload_fallback j) l ->
(t' + 100 <= t)%Z ->
spaced (l ++ [(t, request_fallback (S j))]).
Proof.
intros Hl Hin Ht pre t1 i1 post Heq. symmetry in Heq.
apply app_cons_snoc in Heq. destruct Heq as [(_ & -> & Hx)|(post' & _ & Hl')].
- injection Hx as -> ->. exists t'. split; assumption.
- exact (Hl pre t1 i1 post' Hl').
Qed.

Lemma loader_timers_app (ts1 ts2 : list Timer) :
loader_timers (ts1 ++ ts2) = loader_timers ts1 ++ loader_timers ts2.
Proof. apply filter_app. Qed.

(** Removing the timer that runs: a [jumpToTime] timer leaves the loader's
    timers as they were; a loader timer was the only one. *)
Lemma loader_timers_remove (ts : list Timer) (k : nat) (tm : Timer) :
nth_error ts k = Some tm ->
(is_loader tm = false ->
 loader_timers (firstn k ts ++ skipn (S k) ts) = loader_timers ts)
/\ (is_loader tm = true ->
    forall x, loader_timers ts = [x] ->
              tm = x /\ loader_timers (firstn k ts ++ skipn (S k) ts) = [])
/\ (is_loader tm = true -> loader_timers ts <> []).
Proof.
intros Hk. pose proof (firstn_skipn_middle k ts Hk) as Hsplit.
assert (Hfilter : loader_timers ts
                  = loader_timers (firstn k ts)
                    ++ (if is_loader tm then [tm] else [])
                    ++ loader_timers (skipn (S k) ts)).
{ rewrite <- Hsplit at 1. rewrite loader_timers_app.
  change (tm :: skipn (S k) ts) with ([tm] ++ skipn (S k) ts).
  rewrite loader_timers_app.
  assert (Hone : loader_timers [tm] = if is_loader tm then [tm] else [])
    by (unfold loader_timers; cbn [filter]; destruct (is_loader tm); reflexivity).
  rewrite Hone. reflexivity. }
rewrite loader_timers_app. split; [|split].
- intros Hno. rewrite Hfilter, Hno. reflexivity.
- intros Hyes x Hx. rewrite Hfilter, Hyes in Hx.
  destruct (loader_timers (firstn k ts)) as [|a l]; cbn [app] in Hx.
  + injection Hx as Htm Hrest. split; [exact Htm | exact Hrest].
  + injection Hx as _ Hrest. destruct l; discriminate.
- intros Hyes Hnil. rewrite Hfilter, Hyes in Hnil.
  destruct (loader_timers (firstn k ts)); discriminate.
Qed.

Section loader.

Variable obj : Binding.

Lemma loader_inv_ext (st st' : State) (k : nat) :
log st' = log st ->
loader_timers (timers st') = loader_timers (timers st) ->
length (fallbackImages st') = length (fallbackImages st) ->
loader_inv obj st k ->
loader_inv obj st' k.
Proof.
intros Hlog Htimers Himgs [Hreq Hlen Hbound Hphase Hspaced].
constructor; rewrite ?Hlog, ?Himgs; try assumption.
destruct Hphase as [j Hk Hloads Hts|t' j Hk Hloads Hin Hts|Hloads Hts].
- apply (phase_loading st' k j); rewrite ?Hlog, ?Htimers; assumption.
- apply (phase_waiting st' k t' j); rewrite ?Hlog, ?Htimers; assumption.
- apply phase_idle; rewrite ?Hlog, ?Htimers; assumption.
Qed.

(** A queued [jumpToTime] does not count among the loader's timers. *)
Lemma loader_timers_queue (st st' : State) :
timers st' = timers st
\/ (exists pct, timers st' = timers st ++ [{| due := (now st + 10)%Z;
                                              callback := call_jumpToTime pct |}]) ->
loader_timers (timers st') = loader_timers (timers st).
Proof.
intros [->|(pct & ->)]; [reflexivity|].
rewrite loader_timers_app. simpl. apply app_nil_r.
Qed.

Lemma create_loader_inv (t0 : Z) (vid : Video) (still : StillImage) (st0 : State) :
create obj t0 vid still = Some st0 ->
exists k, loader_inv obj st0 k.
Proof.
unfold create, loadFallbackImages.
destruct (Z.gtb_spec (Z.of_nat 0) (Z.of_nat (length (slides obj)) - 1)) as [H|H].
- intros [= <-]. exists 0%nat. constructor; simpl; try reflexivity; try lia.
  + apply phase_idle; reflexivity.
  + intros pre t i post Heq. destruct pre; discriminate.
- destruct (nth_error (slides obj) 0) as [s|] eqn:Hs; [|discriminate].
  intros [= <-]. exists 1%nat. constructor; simpl; try reflexivity; try lia.
  + apply (phase_loading _ 1 0); reflexivity.
  + intros pre t i post Heq.
    destruct pre as [|x [|y pre]]; discriminate.
Qed.

Lemma fire_loader_inv (t : Z) (ev : Event) (st st' : State) (k : nat) :
loader_inv obj st k ->
fire obj t ev st = Some st' ->
exists k', loader_inv obj st' k'.
Proof.
intros Hinv0. unfold fire.
destruct (Z.ltb t (now st)); [discriminate|].
assert (Hinv : loader_inv obj (set_now t st) k)
  by (apply (loader_inv_ext st); [reflexivity | reflexivity | reflexivity | exact Hinv0]).
assert (Hnow : now (set_now t st) = t) by reflexivity.
set (st1 := set_now t st) in *. clearbody st1. clear Hinv0.
destruct ev as [e| | |n|index| |rs buf].
- intros [= <-]. exists k.
  destruct (on_progress_frame obj e st1) as (Hlog & _ & _ & _ & _ & Himgs & Hts).
  apply (loader_inv_ext st1); try assumption.
  + apply loader_timers_queue. exact Hts.
  + rewrite Himgs. reflexivity.
- intros [= <-]. exists k.
  destruct (on_timeupdate_frame obj st1) as (Hlog & _ & _ & _ & _ & Himgs & Hts).
  apply (loader_inv_ext st1); try assumption.
  + apply loader_timers_queue. exact Hts.
  + rewrite Himgs. reflexivity.
- destruct (playThroughTimer st1); [|discriminate].
  intros [= <-]. exists k. unfold playThroughTimer_tick.
  destruct (Z.gtb _ _); apply (loader_inv_ext st1); try reflexivity; exact Hinv.
- destruct (nth_error (timers st1) n) as [tm|] eqn:Htm; [|discriminate].
  destruct (Z.leb_spec (due tm) t) as [Hdue|]; [|discriminate].
  destruct (loader_timers_remove (timers st1) n tm Htm) as (Hjump & Hload & Hsome).
  set (st2 := set_timers (firstn n (timers st1) ++ skipn (S n) (timers st1)) st1).
  destruct tm as [d [pct|index]]; simpl in Hdue; cbn [callback run_callback].
  + intros Hrun. exists k.
    apply jumpToTime_frame in Hrun.
    destruct Hrun as (Hlog & Hts & _ & _ & _ & _ & Himgs).
    apply (loader_inv_ext st1); try assumption.
    rewrite Hts. apply Hjump. reflexivity.
  + intros Hrun.
    destruct Hinv as [Hreq Hlen Hbound Hphase Hspaced].
    destruct Hphase as [j Hk Hloads Hts|t' j Hk Hloads Hin Hts|Hloads Hts];
      try (exfalso; apply Hsome; [reflexivity | exact Hts]).
    destruct (Hload eq_refl _ Hts) as [Hsame Hgone].
    injection Hsame as Hd Hindex. subst d index.
    unfold loadFallbackImages in Hrun.
    destruct (Z.gtb_spec (Z.of_nat k) (Z.of_nat (length (slides obj)) - 1)) as [Hk'|Hk'].
    * injection Hrun as <-. exists k.
      constructor; try assumption. apply phase_idle; assumption.
    * destruct (nth_error (slides obj) k) as [s|] eqn:Hs; [|discriminate].
      injection Hrun as <-. exists (S k).
      constructor; cbn [log fallbackImages set_log set_fallbackImages timers now st2 set_timers].
      -- rewrite req_indices_app, Hreq, seq_S. reflexivity.
      -- rewrite length_app. simpl. lia.
      -- lia.
      -- apply (phase_loading _ (S k) k); cbn [log set_log timers]; try reflexivity.
         ++ rewrite load_indices_app, Hloads. apply app_nil_r.
         ++ exact Hgone.
      -- rewrite Hk. rewrite Hnow. apply (spaced_request _ t t' j); first [assumption | lia].
- destruct (in_flight st1 index) eqn:Hfl; [|discriminate].
  intros [= <-].
  destruct (in_flight_loading obj st1 k index Hinv Hfl) as (j & Hk & -> & Hloads & Hts).
  destruct Hinv as [Hreq Hlen Hbound _ Hspaced].
  exists k.
  assert (Hlog : log (fallback_onload j st1) = log st1 ++ [(t, onload_fallback j)]).
  { unfold fallback_onload. rewrite <- Hnow. destruct (Nat.eqb j 0); reflexivity. }
  assert (Htimers : timers (fallback_onload j st1)
                    = timers st1 ++ [{| due := (t + 100)%Z;
                                        callback := call_loadFallbackImages (S j) |}]).
  { unfold fallback_onload. rewrite <- Hnow. destruct (Nat.eqb j 0); reflexivity. }
  assert (Himgs : length (fallbackImages (fallback_onload j st1))
                  = length (fallbackImages st1)).
  { unfold fallback_onload. destruct (Nat.eqb j 0); simpl;
      rewrite ?forEach_length; reflexivity. }
  constructor; rewrite ?Hlog, ?Himgs; try assumption.
  + rewrite req_indices_app, Hreq. apply app_nil_r.
  + apply (phase_waiting _ k t j); rewrite ?Hlog, ?Htimers; try assumption.
    * rewrite load_indices_app, Hloads, Hk, seq_S. reflexivity.
    * apply in_or_app. right. left. reflexivity.
    * rewrite loader_timers_app, Hts, Hk. reflexivity.
  + apply spaced_onload. exact Hspaced.
- intros [= <-]. exists k. apply (loader_inv_ext st1); try reflexivity. exact Hinv.
- intros [= <-]. exists k. apply (loader_inv_ext st1); try reflexivity. exact Hinv.
Qed.

Lemma run_loader_inv (evs : list (Z * Event)) (st st' : State) (k : nat) :
loader_inv obj st k ->
run obj evs st = Some st' ->
exists k', loader_inv obj st' k'.
Proof.
revert st k. induction evs as [|[t ev] evs IH]; intros st k Hinv; simpl.
- intros [= <-]. exists k. exact Hinv.
- destruct (fire obj t ev st) as [st1|] eqn:Hfire; [|discriminate].
  destruct (fire_loader_inv t ev st st1 k Hinv Hfire) as (k1 & Hinv1).
  apply (IH st1 k1 Hinv1).
Qed.

End loader.

(** No handler throws: every deliverable event yields a state. *)
Lemma fire_deliverable (obj : Binding) (t : Z) (ev : Event) (st : State) :
deliverable t ev st -> exists st', fire obj t ev st = Some st'.
Proof.
intros [Ht Hev]. unfold fire.
destruct (Z.ltb_spec t (now st)); [lia|].
destruct ev as [e| | |k|index| |rs buf]; try (eexists; reflexivity).
- cbn [playThroughTimer set_now]. rewrite Hev. eexists. reflexivity.
- destruct Hev as (tm & Htm & Hdue). cbn [timers set_now]. rewrite Htm.
  destruct (Z.leb_spec (due tm) t); [|lia].
  destruct (callback tm) as [pct|index]; cbn [run_callback].
  + apply jumpToTime_total.
  + apply loadFallbackImages_total.
- change (in_flight (set_now t st) index) with (in_flight st index).
  rewrite Hev. eexists. reflexivity.
Qed.

(** C6.  [create] starts the loader, and in every state the binding then
    reaches: each request of an image [i + 1] is recorded after an [onload]
    of image [i] that ran at least 100 ms earlier; at most one fallback
    image is in flight; and the images requested so far are the first
    slides, in slide order. *)
Theorem fallback_images_sequential (obj : Binding) (t0 : Z) (vid : Video)
      (still : StillImage) (evs : list (Z * Event)) :
exists st0 : State,
  create obj t0 vid still = Some st0
  /\ forall st : State,
       run obj evs st0 = Some st ->
       (forall pre t i post,
           log st = pre ++ (t, request_fallback (S i)) :: post ->
           exists t', In (t', onload_fallback i) pre /\ (t' + 100 <= t)%Z)
       /\ (forall i j, in_flight st i = true -> in_flight st j = true -> i = j)
       /\ exists k, (k <= length (slides obj))%nat
                    /\ req_indices (log st) = seq 0 k.
Proof.
destruct (create_total obj t0 vid still) as (st0 & Hcreate).
exists st0. split; [exact Hcreate|].
intros st Hrun.
destruct (create_loader_inv obj t0 vid still st0 Hcreate) as (k0 & Hinv0).
destruct (run_loader_inv obj evs st0 st k0 Hinv0 Hrun) as (k & Hinv).
split; [exact (inv_spaced obj st k Hinv)|]. split.
- intros i j Hi Hj.
  destruct (in_flight_loading obj st k i Hinv Hi) as (ji & Hki & -> & _).
  destruct (in_flight_loading obj st k j Hinv Hj) as (jj & Hkj & -> & _).
  lia.
- exists k. split; [exact (inv_bound obj st k Hinv) | exact (inv_requests obj st k Hinv)].
Qed.


Lemma two_slides_create :
create two_slides 0 empty_video blank_still = Some two_slides_created.
Proof. vm_compute. reflexivity. Qed.

Lemma two_loads_log :
option_map log (run two_slides two_loads two_slides_created)
= Some [ (0%Z, request_fallback 0); (5%Z, onload_fallback 0);
         (105%Z, request_fallback 1); (110%Z, onload_fallback 1) ].
Proof. vm_compute. reflexivity. Qed.

Lemma fallback_images_sequential_witness :
exists st : State,
  run two_slides two_loads two_slides_created = Some st
  /\ exists k, (k <= length (slides two_slides))%nat
               /\ req_indices (log st) = seq 0 k.
Proof.
destruct (fallback_images_sequential two_slides 0 empty_video blank_still two_loads)
  as (st0 & Hcreate & Hall).
rewrite two_slides_create in Hcreate. injection Hcreate as <-.
destruct (run two_slides two_loads two_slides_created) as [st|] eqn:Hrun.
- exists st. split; [reflexivity|].
  destruct (Hall st eq_refl) as (_ & _ & Hk). exact Hk.
- pose proof two_loads_log as H. rewrite Hrun in H. discriminate.
Defined.

(** The second image cannot be requested before the delay has passed, nor
    before the first has loaded. *)
Example loader_waits :
run two_slides [(5%Z, ev_fallback_onload 0); (104%Z, ev_timeout 0)] two_slides_created = None
/\ run two_slides [(5%Z, ev_timeout 0)] two_slides_created = None
/\ run two_slides [(5%Z, ev_fallback_onload 1)] two_slides_created = None.
Proof.
split; [|split]; vm_compute; reflexivity.
Qed.

(** * Further properties of the player *)

(** ** The normalised percentage *)

(** X1.  Whatever the scroll range of the binding and the scroll
    percentage, the percentage handed to [jumpToTime] lies in [0, 1]. *)
Theorem jumpToPct_in_unit_interval (obj : Binding) (p : Q) :
0 <= jumpToPct_of obj p <= 1.
Proof. apply jumpToPct_of_range. Qed.

Lemma jumpToPct_of_cases (obj : Binding) (p : Q) :
(startScroll obj < p < endScroll obj
 /\ 0 <= (p - startScroll obj) / (endScroll obj - startScroll obj) <= 1
 /\ jumpToPct_of obj p = (p - startScroll obj) / (endScroll obj - startScroll obj))
\/ (endScroll obj <= p /\ jumpToPct_of obj p = 1)
\/ (p <= startScroll obj /\ p < endScroll obj /\ jumpToPct_of obj p = 0).
Proof.
unfold jumpToPct_of.
q_case (startScroll obj) p; q_case p (endScroll obj); simpl.
- left. split; [split; assumption|].
  assert (Hpos : 0 < endScroll obj - startScroll obj) by lra.
  assert (H0 : 0 <= (p - startScroll obj) / (endScroll obj - startScroll obj))
    by (apply Qle_shift_div_l; lra).
  assert (H1 : (p - startScroll obj) / (endScroll obj - startScroll obj) <= 1)
    by (apply Qle_shift_div_r; lra).
  split; [split; assumption|].
  apply Qlt_bool_false_iff in H1. rewrite H1.
  apply Qlt_bool_false_iff in H0. rewrite H0. reflexivity.
- right. left. split; [exact E0|]. apply Qle_bool_iff in E0. rewrite E0. reflexivity.
- right. right. split; [exact E|]. split; [exact E0|].
  apply Qle_bool_false_iff in E0. rewrite E0. reflexivity.
- right. left. split; [exact E0|]. apply Qle_bool_iff in E0. rewrite E0. reflexivity.
Qed.

(** X2.  Whatever the scroll range of the binding, scrolling further never
    lowers the percentage handed to [jumpToTime]. *)
Theorem jumpToPct_monotone (obj : Binding) (p q : Q) :
p <= q -> jumpToPct_of obj p <= jumpToPct_of obj q.
Proof.
intros Hpq.
destruct (jumpToPct_of_cases obj p) as [(Hp & Hrp & ->)|[(Hp & ->)|(Hp & Hp' & ->)]];
  destruct (jumpToPct_of_cases obj q) as [(Hq & Hrq & ->)|[(Hq & ->)|(Hq & Hq' & ->)]];
  try lra.
unfold Qdiv. apply Qmult_le_compat_r; [lra|].
apply Qinv_le_0_compat. lra.
Qed.

Lemma jumpToPct_monotone_witness :
jumpToPct_of scrolling_video_top 0.3 <= jumpToPct_of scrolling_video_top 0.5.
Proof.
apply (jumpToPct_monotone scrolling_video_top 0.3 0.5). vm_compute. discriminate.
Defined.

(** ** The last frame *)

Section last_frame.

Variable obj : Binding.

Hypothesis frameLength_nonneg : 0 <= inject_Z (frameLength obj).

Lemma checkForPauses_loop_range (rest : list Pause) (frameToUse pct : Q) (st : State) :
Forall (fun r => 0 <= pause_start r <= 1) rest ->
0 <= frameToUse <= inject_Z (frameLength obj) ->
frame_in_range obj st ->
0 <= checkForPauses_loop obj rest frameToUse pct st <= inject_Z (frameLength obj).
Proof.
intros Hps Hf [H0 H1]. induction Hps as [|r rest [Ha0 Ha1] _ IH]; simpl; [exact Hf|].
destruct (_ && _); [|exact IH].
unfold stepDivisor.
assert (Hx : 0 <= inject_Z (frameLength obj) * pause_start r <= inject_Z (frameLength obj))
  by (split; nra).
set (x := inject_Z (frameLength obj) * pause_start r) in *.
assert (Heq : videoLastFrame st + (x - videoLastFrame st) / 10
              == (9 # 10) * videoLastFrame st + (1 # 10) * x) by field.
rewrite Heq. split; lra.
Qed.

Lemma checkForPauses_range (frameToUse pct : Q) (st : State) :
pauses_start_in_range obj ->
0 <= frameToUse <= inject_Z (frameLength obj) ->
frame_in_range obj st ->
0 <= checkForPauses obj frameToUse pct st <= inject_Z (frameLength obj).
Proof.
unfold pauses_start_in_range, checkForPauses.
destruct (pauses obj) as [ps|]; [|intros _ Hf _; exact Hf].
intros Hps. apply checkForPauses_loop_range.
apply Forall_forall. intros r Hr. rewrite Forall_forall in Hps.
apply Hps. apply in_rev. exact Hr.
Qed.

Lemma jumpToTime_frame_in_range (pct : Q) (st st' : State) :
pauses_start_in_range obj ->
frame_in_range obj st ->
jumpToTime obj pct st = Some st' ->
frame_in_range obj st'.
Proof.
intros Hps Hst.
destruct (jumpToTime_cases obj pct st) as (b & _ & Hj). rewrite Hj.
intros [= <-]. unfold frame_in_range. destruct b.
- destruct (honoured_properties obj pct st) as (_ & _ & _ & -> & _).
  apply checkForPauses_range; try assumption.
  apply frameToUse_of_range. exact frameLength_nonneg.
- destruct (degraded_properties obj pct st) as (_ & _ & _ & -> & _).
  apply frameToUse_of_range. exact frameLength_nonneg.
Qed.

Lemma fire_frame_in_range (t : Z) (ev : Event) (st st' : State) :
pauses_start_in_range obj ->
frame_in_range obj st ->
fire obj t ev st = Some st' ->
frame_in_range obj st'.
Proof.
intros Hps Hst. unfold fire.
destruct (Z.ltb t (now st)); [discriminate|].
destruct ev as [e| | |k|index| |rs buf].
- intros [= <-]. unfold on_progress, frame_in_range.
  destruct (state e); simpl; destruct (Qeq_bool _ _); simpl;
    try (destruct (videoShouldUpdate st)); exact Hst.
- intros [= <-]. unfold on_timeupdate, frame_in_range.
  simpl. destruct (videoShouldUpdate st); exact Hst.
- simpl. destruct (playThroughTimer st); [|discriminate].
  intros [= <-]. unfold playThroughTimer_tick, frame_in_range.
  simpl. destruct (Z.gtb _ _); exact Hst.
- simpl. destruct (nth_error (timers st) k) as [tm|]; [|discriminate].
  destruct (Z.leb (due tm) t); [|discriminate].
  destruct (callback tm) as [pct|index]; simpl; intros Hrun.
  + apply (jumpToTime_frame_in_range pct _ st' Hps) in Hrun; [exact Hrun | exact Hst].
  + unfold loadFallbackImages in Hrun.
    destruct (Z.gtb _ _); [injection Hrun as <-; exact Hst|].
    destruct (nth_error (slides obj) index); [|discriminate].
    injection Hrun as <-. exact Hst.
- destruct (in_flight (set_now t st) index); [|discriminate].
  intros [= <-]. unfold fallback_onload, frame_in_range.
  destruct (Nat.eqb index 0); exact Hst.
- intros [= <-]. exact Hst.
- intros [= <-]. exact Hst.
Qed.

Lemma run_frame_in_range (evs : list (Z * Event)) (st st' : State) :
pauses_start_in_range obj ->
frame_in_range obj st ->
run obj evs st = Some st' ->
frame_in_range obj st'.
Proof.
intros Hps. revert st. induction evs as [|[t ev] evs IH]; intros st Hst; simpl.
- intros [= <-]. exact Hst.
- destruct (fire obj t ev st) as [st1|] eqn:Hfire; [|discriminate].
  apply IH. exact (fire_frame_in_range t ev st st1 Hps Hst Hfire).
Qed.

End last_frame.

(** X3.  For a binding with a frame count that is not negative and pause
    regions that start inside [0, 1], the last frame of the player never
    leaves [0, frameLength], whatever events the browser delivers after
    [create]. *)
Theorem last_frame_stays_in_video (obj : Binding) (t0 : Z) (vid : Video)
      (still : StillImage) (evs : list (Z * Event)) (st0 st : State) :
(0 <= frameLength obj)%Z ->
pauses_start_in_range obj ->
create obj t0 vid still = Some st0 ->
run obj evs st0 = Some st ->
0 <= videoLastFrame st <= inject_Z (frameLength obj).
Proof.
intros Hlen Hps Hcreate Hrun.
assert (Hfl : 0 <= inject_Z (frameLength obj)).
{ change 0 with (inject_Z 0). rewrite <- Zle_Qle. exact Hlen. }
apply (run_frame_in_range obj Hfl evs st0 st Hps); [|exact Hrun].
unfold create, loadFallbackImages in Hcreate.
destruct (Z.gtb _ _); [injection Hcreate as <-; split; simpl; lra|].
destruct (nth_error (slides obj) 0); [|discriminate].
injection Hcreate as <-. split; simpl; lra.
Qed.

Lemma two_loads_runs :
exists st : State, run two_slides two_loads two_slides_created = Some st.
Proof.
destruct (run two_slides two_loads two_slides_created) as [st|] eqn:Hrun.
- exists st. reflexivity.
- pose proof two_loads_log as H. rewrite Hrun in H. discriminate.
Qed.

Lemma last_frame_stays_in_video_witness :
exists st : State,
  run two_slides two_loads two_slides_created = Some st
  /\ 0 <= videoLastFrame st <= 600.
Proof.
destruct two_loads_runs as (st & Hrun). exists st. split; [exact Hrun|].
assert (Hlen : (0 <= frameLength two_slides)%Z) by (simpl; lia).
assert (Hps : pauses_start_in_range two_slides) by exact I.
exact (last_frame_stays_in_video two_slides 0 empty_video blank_still two_loads
         two_slides_created st Hlen Hps two_slides_create Hrun).
Defined.

(** One update without pause moves the last frame a tenth of the way to
    the target frame, on either branch, when the clamp does not act. *)
Lemma jumpToTime_step (obj : Binding) (pct : Q) (st st' : State) :
0 <= inject_Z (frameLength obj) ->
no_pause obj pct ->
0 <= pct <= 1 ->
frame_in_range obj st ->
jumpToTime obj pct st = Some st' ->
videoLastFrame st'
= videoLastFrame st
  + (inject_Z (frameLength obj) * pct - videoLastFrame st) / stepDivisor.
Proof.
intros Hfl Hpause [Hp0 Hp1] [H0 H1] Hj.
assert (Hframe : frameToUse_of obj pct st
                 = videoLastFrame st
                   + (inject_Z (frameLength obj) * pct - videoLastFrame st) / stepDivisor).
{ unfold frameToUse_of, videoNextFrame_of. cbv zeta.
  set (x := inject_Z (frameLength obj) * pct).
  assert (Hx : 0 <= x <= inject_Z (frameLength obj)) by (subst x; split; nra).
  assert (Heq : videoLastFrame st + (x - videoLastFrame st) / stepDivisor
                == (9 # 10) * videoLastFrame st + (1 # 10) * x)
    by (unfold stepDivisor; field).
  assert (Hlow : Qlt_bool (videoLastFrame st + (x - videoLastFrame st) / stepDivisor) 0
                 = false)
    by (apply Qlt_bool_false_iff; rewrite Heq; lra).
  assert (Hhigh : Qlt_bool (inject_Z (frameLength obj))
                    (videoLastFrame st + (x - videoLastFrame st) / stepDivisor) = false)
    by (apply Qlt_bool_false_iff; rewrite Heq; lra).
  rewrite Hlow, Hhigh. reflexivity. }
destruct (jumpToTime_cases obj pct st) as (b & _ & Hcases).
rewrite Hcases in Hj. injection Hj as <-. destruct b.
- destruct (honoured_properties obj pct st) as (_ & _ & _ & -> & _).
  rewrite (checkForPauses_none obj _ pct st Hpause). exact Hframe.
- destruct (degraded_properties obj pct st) as (_ & _ & _ & -> & _). exact Hframe.
Qed.

(** X4.  For a binding with a frame count that is not negative, at a
    percentage in [0, 1] that no pause region holds, [n] updates in a row
    return and leave the last frame at (9/10)^n of its first distance to
    the target frame, whether the video is buffered or not. *)
Theorem jumpToTime_converges (obj : Binding) (n : nat) (pct : Q) (st : State) :
(0 <= frameLength obj)%Z ->
no_pause obj pct ->
0 <= pct <= 1 ->
0 <= videoLastFrame st <= inject_Z (frameLength obj) ->
exists st' : State,
  jumpToTime_n obj n pct st = Some st'
  /\ videoLastFrame st' - inject_Z (frameLength obj) * pct
     == (9 # 10) ^ Z.of_nat n * (videoLastFrame st - inject_Z (frameLength obj) * pct).
Proof.
intros Hlen Hpause Hpct.
assert (Hfl : 0 <= inject_Z (frameLength obj)).
{ change 0 with (inject_Z 0). rewrite <- Zle_Qle. exact Hlen. }
revert st. induction n as [|n IH]; intros st Hst.
- exists st. split; [reflexivity|]. simpl. ring.
- destruct (jumpToTime_total obj pct st) as (st1 & Hj).
  pose proof (jumpToTime_step obj pct st st1 Hfl Hpause Hpct Hst Hj) as Hstep.
  assert (Hpauses : frame_in_range obj st1).
  { unfold frame_in_range. rewrite Hstep.
    destruct Hpct as [Hp0 Hp1]. destruct Hst as [H0 H1].
    set (x := inject_Z (frameLength obj) * pct).
    assert (Hx : 0 <= x <= inject_Z (frameLength obj)) by (subst x; split; nra).
    assert (Heq : videoLastFrame st + (x - videoLastFrame st) / stepDivisor
                  == (9 # 10) * videoLastFrame st + (1 # 10) * x)
      by (unfold stepDivisor; field).
    rewrite Heq. split; lra. }
  destruct (IH st1 Hpauses) as (st' & Hn & Hdist).
  exists st'. split; [simpl; rewrite Hj; exact Hn|].
  rewrite Hdist, Hstep.
  rewrite Nat2Z.inj_succ, <- Z.add_1_r.
  rewrite Qpower_plus by (intros H; discriminate H).
  unfold stepDivisor. simpl (_ ^ 1). field.
Qed.

Lemma jumpToTime_converges_witness :
exists st' : State,
  jumpToTime_n two_slides 3 0.75 (settled two_slides 0.75 true [(0, 20)]) = Some st'
  /\ videoLastFrame st' - 600 * 0.75 == (9 # 10) ^ 3 * (0 - 600 * 0.75).
Proof.
assert (Hlen : (0 <= frameLength two_slides)%Z) by (simpl; lia).
assert (Hpause : no_pause two_slides 0.75) by exact I.
assert (Hpct : 0 <= 0.75 <= 1) by (split; vm_compute; discriminate).
assert (Hst : 0 <= videoLastFrame (settled two_slides 0.75 true [(0, 20)])
              <= inject_Z (frameLength two_slides))
  by (split; vm_compute; discriminate).
exact (jumpToTime_converges two_slides 3 0.75 (settled two_slides 0.75 true [(0, 20)])
         Hlen Hpause Hpct Hst).
Defined.

(** ** The ready flag *)

Section ready_flag.

Variable obj : Binding.

Lemma ready_unchanged (ev : Event) (st st' : State) :
readyState st' = readyState st ->
playThroughTimer st' = playThroughTimer st ->
(polling_until_ready st -> polling_until_ready st')
/\ (readyState st = true -> readyState st' = true)
/\ (readyState st = false -> readyState st' = true ->
    ev = ev_interval /\ (3 < video_readyState (video st))%Z
    /\ currentTime (video st') = 0).
Proof.
unfold polling_until_ready. intros -> ->. split; [tauto|]. split; [tauto|].
intros Hdown Hup. congruence.
Qed.

Lemma fire_ready (t : Z) (ev : Event) (st st' : State) :
fire obj t ev st = Some st' ->
(polling_until_ready st -> polling_until_ready st')
/\ (readyState st = true -> readyState st' = true)
/\ (readyState st = false -> readyState st' = true ->
    ev = ev_interval /\ (3 < video_readyState (video st))%Z
    /\ currentTime (video st') = 0).
Proof.
unfold fire.
destruct (Z.ltb t (now st)); [discriminate|].
destruct ev as [e| | |k|index| |rs buf].
- intros [= <-].
  destruct (on_progress_frame obj e (set_now t st)) as (_ & _ & H1 & H2 & _).
  apply ready_unchanged; assumption.
- intros [= <-].
  destruct (on_timeupdate_frame obj (set_now t st)) as (_ & _ & H1 & H2 & _).
  apply ready_unchanged; assumption.
- simpl. destruct (playThroughTimer st) eqn:Hpoll; [|discriminate].
  intros [= <-]. unfold playThroughTimer_tick. simpl.
  destruct (Z.gtb_spec (video_readyState (video st)) 3) as [H|H].
  + unfold polling_until_ready. simpl. split; [reflexivity|]. split; [reflexivity|].
    intros _ _. split; [reflexivity|]. split; [lia | reflexivity].
  + apply ready_unchanged; reflexivity.
- simpl. destruct (nth_error (timers st) k) as [tm|]; [|discriminate].
  destruct (Z.leb (due tm) t); [|discriminate].
  destruct (callback tm) as [pct|index]; simpl; intros Hrun.
  + apply jumpToTime_frame in Hrun.
    destruct Hrun as (_ & _ & _ & H1 & H2 & _).
    apply ready_unchanged; assumption.
  + apply loadFallbackImages_frame in Hrun.
    destruct Hrun as (_ & _ & H1 & H2 & _).
    apply ready_unchanged; assumption.
- destruct (in_flight (set_now t st) index); [|discriminate].
  intros [= <-]. unfold fallback_onload.
  destruct (Nat.eqb index 0); apply ready_unchanged; reflexivity.
- intros [= <-]. apply ready_unchanged; reflexivity.
- intros [= <-]. apply ready_unchanged; reflexivity.
Qed.

Lemma run_ready (evs : list (Z * Event)) (st st' : State) :
run obj evs st = Some st' ->
(polling_until_ready st -> polling_until_ready st')
/\ (readyState st = true -> readyState st' = true).
Proof.
revert st. induction evs as [|[t ev] evs IH]; intros st; simpl.
- intros [= <-]. tauto.
- destruct (fire obj t ev st) as [st1|] eqn:Hfire; [|discriminate].
  intros Hrun. destruct (fire_ready t ev st st1 Hfire) as (H1 & H2 & _).
  destruct (IH st1 Hrun) as (H3 & H4). tauto.
Qed.

End ready_flag.

(** X5.  In every state a binding reaches after [create], the polling
    interval is set exactly while the ready flag is down; once the flag is
    up no later event takes it down, and the poll cannot tick again. *)
Theorem ready_flag_sticky (obj : Binding) (t0 : Z) (vid : Video) (still : StillImage)
      (evs evs' : list (Z * Event)) (st0 st st' : State) :
create obj t0 vid still = Some st0 ->
run obj evs st0 = Some st ->
run obj evs' st = Some st' ->
playThroughTimer st = negb (readyState st)
/\ (readyState st = true ->
    readyState st' = true /\ forall t, fire obj t ev_interval st' = None).
Proof.
intros Hcreate Hrun Hrun'.
assert (H0 : polling_until_ready st0).
{ apply loadFallbackImages_frame in Hcreate.
  destruct Hcreate as (_ & _ & H1 & H2 & _).
  unfold polling_until_ready. rewrite H1, H2. reflexivity. }
destruct (run_ready obj evs st0 st Hrun) as (Hpoll & _).
destruct (run_ready obj evs' st st' Hrun') as (Hpoll' & Hkeep).
split; [exact (Hpoll H0)|].
intros Hready. split; [exact (Hkeep Hready)|].
intros t. unfold fire. destruct (Z.ltb t (now st')); [reflexivity|].
cbn [playThroughTimer set_now].
rewrite (Hpoll' (Hpoll H0)), (Hkeep Hready). reflexivity.
Qed.

Lemma becomes_ready_runs :
option_map readyState (run two_slides becomes_ready two_slides_created) = Some true.
Proof. vm_compute. reflexivity. Qed.

Lemma ready_flag_sticky_witness :
exists st : State,
  run two_slides becomes_ready two_slides_created = Some st
  /\ readyState st = true
  /\ playThroughTimer st = false
  /\ fire two_slides 30 ev_interval st = None.
Proof.
destruct (run two_slides becomes_ready two_slides_created) as [st|] eqn:Hrun.
- exists st. split; [reflexivity|].
  pose proof becomes_ready_runs as Hready. rewrite Hrun in Hready.
  injection Hready as Hready.
  destruct (ready_flag_sticky two_slides 0 empty_video blank_still becomes_ready []
              two_slides_created st st two_slides_create Hrun eq_refl) as (Hpoll & Hafter).
  destruct (Hafter Hready) as (_ & Hnone).
  split; [exact Hready|]. split; [rewrite Hpoll, Hready; reflexivity | apply Hnone].
- pose proof becomes_ready_runs as H. rewrite Hrun in H. discriminate.
Defined.

(** ** The fallback images in place *)

Lemma forEach_from_map_start (f : FallbackImage -> nat -> FallbackImage)
      (index : nat) (imgs : list FallbackImage) :
(forall img i, start (f img i) = start img) ->
map start (forEach_from f index imgs) = map start imgs.
Proof.
intros Hf. revert index. induction imgs as [|img imgs IH]; intros index; simpl.
- reflexivity.
- rewrite Hf, IH. reflexivity.
Qed.

Lemma forEach_map_start (f : FallbackImage -> nat -> FallbackImage)
      (imgs : list FallbackImage) :
(forall img i, start (f img i) = start img) ->
map start (forEach f imgs) = map start imgs.
Proof. apply forEach_from_map_start. Qed.

Lemma showFallback_starts (st : State) :
map start (fallbackImages (showFallback st)) = map start (fallbackImages st).
Proof.
simpl. apply forEach_map_start. intros img i. destruct (_ || _); reflexivity.
Qed.

Lemma hideFallback_starts (st : State) :
map start (fallbackImages (hideFallback st)) = map start (fallbackImages st).
Proof.
simpl. apply forEach_map_start. intros img i. reflexivity.
Qed.

Lemma jumpToTime_starts (obj : Binding) (pct : Q) (st st' : State) :
jumpToTime obj pct st = Some st' ->
map start (fallbackImages st') = map start (fallbackImages st).
Proof.
destruct (jumpToTime_cases obj pct st) as (b & _ & Hj). rewrite Hj.
intros [= <-]. destruct b.
- rewrite honoured_fallbackImages. apply (hideFallback_starts st).
- apply (showFallback_starts st).
Qed.

Lemma firstn_snoc {A : Type} (l : list A) (k : nat) (x : A) :
nth_error l k = Some x -> firstn (S k) l = firstn k l ++ [x].
Proof.
revert k. induction l as [|a l IH]; intros [|k]; try discriminate.
- intros [= ->]. reflexivity.
- intros H. change (a :: firstn (S k) l = a :: (firstn k l ++ [x])).
  f_equal. apply IH. exact H.
Qed.

Lemma mirrors_slides_ext (obj : Binding) (st st' : State) :
map start (fallbackImages st') = map start (fallbackImages st) ->
mirrors_slides obj st -> mirrors_slides obj st'.
Proof.
unfold mirrors_slides. intros Hmap Hst.
assert (Hlen : length (fallbackImages st') = length (fallbackImages st)).
{ rewrite <- (length_map start (fallbackImages st')), Hmap. apply length_map. }
rewrite Hmap, Hlen. exact Hst.
Qed.

Lemma fire_mirrors_slides (obj : Binding) (t : Z) (ev : Event) (st st' : State) (k : nat) :
loader_inv obj st k ->
mirrors_slides obj st ->
fire obj t ev st = Some st' ->
mirrors_slides obj st'.
Proof.
intros Hinv Hst. unfold fire.
destruct (Z.ltb t (now st)); [discriminate|].
destruct ev as [e| | |n|index| |rs buf].
- intros [= <-]. apply (mirrors_slides_ext obj st); [|exact Hst].
  destruct (on_progress_frame obj e (set_now t st)) as (_ & _ & _ & _ & _ & H & _).
  rewrite H. reflexivity.
- intros [= <-]. apply (mirrors_slides_ext obj st); [|exact Hst].
  destruct (on_timeupdate_frame obj (set_now t st)) as (_ & _ & _ & _ & _ & H & _).
  rewrite H. reflexivity.
- cbn [playThroughTimer set_now]. destruct (playThroughTimer st); [|discriminate].
  intros [= <-]. apply (mirrors_slides_ext obj st); [|exact Hst].
  unfold playThroughTimer_tick. destruct (Z.gtb _ _); reflexivity.
- cbn [timers set_now].
  destruct (nth_error (timers st) n) as [tm|] eqn:Htm; [|discriminate].
  destruct (Z.leb (due tm) t); [|discriminate].
  destruct (loader_timers_remove (timers st) n tm Htm) as (_ & Hload & Hsome).
  destruct tm as [d [pct|index]]; cbn [callback run_callback].
  + intros Hrun. apply jumpToTime_starts in Hrun.
    apply (mirrors_slides_ext obj st); [|exact Hst]. rewrite Hrun. reflexivity.
  + intros Hrun.
    destruct Hinv as [_ Hlen _ Hphase _].
    destruct Hphase as [j Hk Hloads Hts|t' j Hk Hloads Hin Hts|Hloads Hts];
      try (exfalso; apply Hsome; [reflexivity | exact Hts]).
    destruct (Hload eq_refl _ Hts) as [Hsame _].
    injection Hsame as _ Hindex. subst index.
    unfold loadFallbackImages in Hrun.
    destruct (Z.gtb _ _); [injection Hrun as <-; exact Hst|].
    destruct (nth_error (slides obj) k) as [s|] eqn:Hs; [|discriminate].
    injection Hrun as <-. unfold mirrors_slides in *.
    cbn [fallbackImages set_log set_fallbackImages set_timers set_now].
    rewrite length_app, map_app, Hst, Hlen. cbn [length map].
    replace (k + 1)%nat with (S k) by lia.
    rewrite (firstn_snoc _ _ _ Hs), map_app. reflexivity.
- destruct (in_flight (set_now t st) index); [|discriminate].
  intros [= <-]. apply (mirrors_slides_ext obj st); [|exact Hst].
  unfold fallback_onload. destruct (Nat.eqb index 0); [|reflexivity].
  cbn [fallbackImages setTimeout set_timers set_fallbackImages set_log set_now].
  apply forEach_map_start. intros img i. destruct (Nat.eqb i index); reflexivity.
- intros [= <-]. exact Hst.
- intros [= <-]. exact Hst.
Qed.

Lemma run_mirrors_slides (obj : Binding) (evs : list (Z * Event)) (st st' : State) (k : nat) :
loader_inv obj st k ->
mirrors_slides obj st ->
run obj evs st = Some st' ->
mirrors_slides obj st'.
Proof.
revert st k. induction evs as [|[t ev] evs IH]; intros st k Hinv Hst; simpl.
- intros [= <-]. exact Hst.
- destruct (fire obj t ev st) as [st1|] eqn:Hfire; [|discriminate].
  destruct (fire_loader_inv obj t ev st st1 k Hinv Hfire) as (k1 & Hinv1).
  apply (IH st1 k1 Hinv1).
  exact (fire_mirrors_slides obj t ev st st1 k Hinv Hst Hfire).
Qed.

(** X6.  In every state a binding reaches after [create], the fallback
    images in place are those of the first slides, in slide order: image
    [i] starts at the percentage of slide [i], and there are never more
    images than slides. *)
Theorem fallback_images_mirror_slides (obj : Binding) (t0 : Z) (vid : Video)
      (still : StillImage) (evs : list (Z * Event)) (st0 st : State) :
create obj t0 vid still = Some st0 ->
run obj evs st0 = Some st ->
(length (fallbackImages st) <= length (slides obj))%nat
/\ map start (fallbackImages st)
   = map percent (firstn (length (fallbackImages st)) (slides obj)).
Proof.
intros Hcreate Hrun.
destruct (create_loader_inv obj t0 vid still st0 Hcreate) as (k0 & Hinv0).
destruct (run_loader_inv obj evs st0 st k0 Hinv0 Hrun) as (k & Hinv).
split.
- rewrite (inv_images obj st k Hinv). exact (inv_bound obj st k Hinv).
- apply (run_mirrors_slides obj evs st0 st k0 Hinv0); [|exact Hrun].
  unfold create, loadFallbackImages in Hcreate. unfold mirrors_slides.
  destruct (Z.gtb _ _); [injection Hcreate as <-; reflexivity|].
  destruct (nth_error (slides obj) 0) as [s|] eqn:Hs; [|discriminate].
  injection Hcreate as <-. simpl.
  destruct (slides obj) as [|s' rest]; [discriminate|].
  simpl in Hs. injection Hs as ->. reflexivity.
Qed.

Lemma fallback_images_mirror_slides_witness :
exists st : State,
  run two_slides two_loads two_slides_created = Some st
  /\ map start (fallbackImages st)
     = map percent (firstn (length (fallbackImages st)) (slides two_slides)).
Proof.
destruct two_loads_runs as (st & Hrun). exists st. split; [exact Hrun|].
exact (proj2 (fallback_images_mirror_slides two_slides 0 empty_video blank_still
                two_loads two_slides_created st two_slides_create Hrun)).
Defined.

(** ** What [showFallback] shows *)

Lemma showFallback_shown (st : State) (i : nat) (a : FallbackImage) :
nth_error (fallbackImages (showFallback st)) i = Some a ->
exists img,
  nth_error (fallbackImages st) i = Some img
  /\ start a = start img
  /\ (g_show a = true <->
      (start img <= scrollPct st /\ 0 < scrollPct st)
      \/ (scrollPct st < start img /\ i = 0%nat)).
Proof.
intros Ha.
destruct (nth_error (fallbackImages st) i) as [img|] eqn:Himg.
- destruct (showFallback_nth st i img Himg) as (img' & Himg' & Hstart & Hshow).
  rewrite Himg' in Ha. injection Ha as <-.
  exists img. split; [reflexivity|]. split; assumption.
- simpl in Ha. rewrite forEach_nth, Himg in Ha. discriminate.
Qed.

(** X7.  When the starts of the fallback images do not decrease along the
    list, the images [showFallback] marks as shown form an initial segment
    of the list: every image before a shown image is shown too. *)
Theorem showFallback_shows_prefix (st : State) (i j : nat) (a b : FallbackImage) :
starts_ordered (fallbackImages st) ->
(j <= i)%nat ->
nth_error (fallbackImages (showFallback st)) i = Some a ->
nth_error (fallbackImages (showFallback st)) j = Some b ->
g_show a = true ->
g_show b = true.
Proof.
intros Hord Hji Ha Hb Hshown.
destruct (showFallback_shown st i a Ha) as (x & Hx & _ & Hxa).
destruct (showFallback_shown st j b Hb) as (y & Hy & _ & Hyb).
apply Hyb. apply Hxa in Hshown.
destruct Hshown as [[Hle Hpos]|[Hlt ->]].
- left. split; [|exact Hpos].
  pose proof (Hord j i y x Hji Hy Hx) as Hyx. lra.
- assert (j = 0%nat) by lia. subst j.
  rewrite Hx in Hy. injection Hy as <-. right. split; [exact Hlt | reflexivity].
Qed.

Lemma two_slides_ordered (pct : Q) (ready : bool) (buf : list (Q * Q)) :
starts_ordered (fallbackImages (settled two_slides pct ready buf)).
Proof.
intros i j a b Hij Ha Hb.
assert (Hi : (i < 2)%nat).
{ apply (proj1 (nth_error_Some (fallbackImages (settled two_slides pct ready buf)) i)).
  rewrite Ha. discriminate. }
assert (Hj : (j < 2)%nat).
{ apply (proj1 (nth_error_Some (fallbackImages (settled two_slides pct ready buf)) j)).
  rewrite Hb. discriminate. }
destruct i as [|[|i]]; destruct j as [|[|j]]; try lia;
  simpl in Ha, Hb; injection Ha as <-; injection Hb as <-;
  vm_compute; discriminate.
Qed.

Lemma showFallback_shows_prefix_witness :
exists a b : FallbackImage,
  nth_error (fallbackImages (showFallback (settled two_slides 0.75 false []))) 1 = Some a
  /\ nth_error (fallbackImages (showFallback (settled two_slides 0.75 false []))) 0 = Some b
  /\ g_show b = true.
Proof.
eexists. eexists. split; [reflexivity|]. split; [reflexivity|].
eapply (showFallback_shows_prefix (settled two_slides 0.75 false []) 1 0);
  [apply two_slides_ordered | lia | reflexivity | reflexivity | reflexivity].
Defined.



(** ** The buffering check while the images load *)




(** ** The videos load one after the other *)

Lemma nth_error_bound {A : Type} (l : list A) (n : nat) (x : A) :
nth_error l n = Some x -> (n < length l)%nat.
Proof.
intros H. apply nth_error_Some. rewrite H. discriminate.
Qed.

Lemma nth_error_repeat_idle (n j : nat) (v : Init.VideoEl) :
nth_error (repeat idle_video n) j = Some v -> v = idle_video.
Proof.
intros H. apply nth_error_In in H. apply repeat_spec in H. exact H.
Qed.

(** [loadVideosAsync] on a page where every video is idle and [m] have
    been counted starts video [m] and no other. *)
Lemma loadVideosAsync_one_loading (n m : nat) (pg : Init.Page) :
Init.vidsLoaded pg = m ->
length (Init.videos pg) = n ->
(forall j v, nth_error (Init.videos pg) j = Some v -> v = idle_video) ->
one_loading n (Init.loadVideosAsync pg) m.
Proof.
intros Hcount Hlen Hidle. unfold one_loading.
destruct (Nat.lt_ge_cases m n) as [Hlt|Hge].
- rewrite loadVideosAsync_starts by lia. cbn [Init.vidsLoaded Init.videos].
  rewrite Hcount. split; [reflexivity|].
  split; [rewrite update_video_length; lia|].
  intros j v Hv. split.
  + intros ->. rewrite update_video_nth in Hv by lia.
    injection Hv as <-. eexists. reflexivity.
  + intros Hne. rewrite update_video_other in Hv by lia. exact (Hidle j v Hv).
- unfold Init.loadVideosAsync.
  destruct (Nat.ltb_spec (Init.vidsLoaded pg) (length (Init.videos pg))); [lia|].
  cbn [Init.vidsLoaded Init.videos]. split; [lia|]. split; [exact Hlen|].
  intros j v Hv. split.
  + intros ->. apply nth_error_bound in Hv. lia.
  + intros _. exact (Hidle j v Hv).
Qed.

Lemma deliver_one_loading (n m : nat) (t : Z) (ev : Init.LoadEvent) (pg pg' : Init.Page) :
one_loading n pg m ->
Init.deliver t ev pg = Some pg' ->
(m < n)%nat /\ one_loading n pg' (S m).
Proof.
intros (Hcount & Hlen & Hvideos). unfold Init.deliver.
destruct (Z.ltb t (Init.clock pg)); [discriminate|].
set (pg_t := {| Init.clock := t; Init.vidsLoaded := Init.vidsLoaded pg;
                Init.videos := Init.videos pg |}).
assert (Hk : forall k v, nth_error (Init.videos pg) k = Some v ->
                         Init.canplaythrough_listener v = true
                         \/ Init.loadNextVideo v <> None ->
                         k = m).
{ intros k v Hv Hloading. destruct (Nat.eq_dec k m) as [->|Hne]; [reflexivity|].
  destruct (Hvideos k v Hv) as (_ & Hidle). rewrite (Hidle Hne) in Hloading.
  destruct Hloading as [H|H]; [discriminate | exfalso; apply H; reflexivity]. }
assert (Hnext : forall k v, nth_error (Init.videos pg) k = Some v -> k = m ->
                            (m < n)%nat /\ one_loading n (Init.next k pg_t) (S m)).
{ intros k v Hv ->. assert (Hm : (m < n)%nat).
  { rewrite <- Hlen. apply nth_error_bound in Hv. exact Hv. }
  split; [exact Hm|]. unfold Init.next.
  apply loadVideosAsync_one_loading.
  - cbn [Init.vidsLoaded Init.update_video]. exact Hcount.
  - rewrite update_video_length; cbn [Init.videos pg_t]; lia.
  - intros j w Hw. destruct (Nat.eq_dec j m) as [->|Hne].
    + rewrite update_video_nth in Hw by (cbn [Init.videos pg_t]; lia).
      injection Hw as <-. reflexivity.
    + rewrite update_video_other in Hw by (cbn [Init.videos pg_t]; lia).
      destruct (Hvideos j w Hw) as (_ & Hidle). exact (Hidle Hne). }
destruct ev as [k|k]; cbn [Init.videos pg_t].
- destruct (nth_error (Init.videos pg) k) as [v|] eqn:Hv; [|discriminate].
  destruct (Init.canplaythrough_listener v) eqn:Hl; [|discriminate].
  intros [= <-]. apply (Hnext k v Hv). apply (Hk k v Hv). left. exact Hl.
- destruct (nth_error (Init.videos pg) k) as [v|] eqn:Hv; [|discriminate].
  destruct (Init.loadNextVideo v) as [d|] eqn:Hd; [|discriminate].
  destruct (Z.leb d t); [|discriminate].
  intros [= <-]. apply (Hnext k v Hv). apply (Hk k v Hv). right. rewrite Hd. discriminate.
Qed.

Lemma run_loads_one_loading (n : nat) (evs : list (Z * Init.LoadEvent))
      (pg pg' : Init.Page) (m : nat) :
one_loading n pg m ->
(m <= n)%nat ->
run_loads evs pg = Some pg' ->
(m + length evs <= n)%nat /\ one_loading n pg' (m + length evs).
Proof.
revert pg m. induction evs as [|[t ev] evs IH]; intros pg m Hinv Hmn; simpl.
- intros [= <-]. rewrite Nat.add_0_r. split; assumption.
- destruct (Init.deliver t ev pg) as [pg1|] eqn:Hdeliver; [|discriminate].
  intros Hrun.
  destruct (deliver_one_loading n m t ev pg pg1 Hinv Hdeliver) as (Hm & Hinv1).
  destruct (IH pg1 (S m) Hinv1 Hm Hrun) as (Hbound & Hinv').
  replace (m + S (length evs))%nat with (S m + length evs)%nat by lia.
  split; assumption.
Qed.

(** X10.  After [init], whatever load events the browser delivers: the
    number of delivered events never exceeds the number of videos, each
    runs [next] once so that [vidsLoaded] is one more than their number,
    and the only video that is loading (listener registered or timeout
    armed) is the one whose index is that number. *)
Theorem videos_load_in_turn (t0 : Z) (n : nat) (evs : list (Z * Init.LoadEvent))
      (pg : Init.Page) :
run_loads evs (init_page t0 n) = Some pg ->
(length evs <= n)%nat
/\ Init.vidsLoaded pg = S (length evs)
/\ (forall j v, nth_error (Init.videos pg) j = Some v -> loading v -> j = length evs)
/\ ((length evs < n)%nat ->
    exists v, nth_error (Init.videos pg) (length evs) = Some v /\ loading v).
Proof.
intros Hrun.
assert (Hinit : one_loading n (init_page t0 n) 0).
{ apply loadVideosAsync_one_loading; cbn [Init.vidsLoaded Init.videos].
  - reflexivity.
  - apply repeat_length.
  - intros j v. apply nth_error_repeat_idle. }
destruct (run_loads_one_loading n evs _ pg 0 Hinit (Nat.le_0_l n) Hrun)
  as (Hbound & Hcount & Hlen & Hvideos).
cbn [Nat.add] in *.
split; [exact Hbound|]. split; [exact Hcount|]. split.
- intros j v Hv Hloading.
  destruct (Nat.eq_dec j (length evs)) as [Heq|Hne]; [exact Heq|].
  destruct (Hvideos j v Hv) as (_ & Hidle). rewrite (Hidle Hne) in Hloading.
  destruct Hloading as [H|H]; [discriminate | exfalso; apply H; reflexivity].
- intros Hlt.
  destruct (nth_error (Init.videos pg) (length evs)) as [v|] eqn:Hv.
  + exists v. split; [reflexivity|].
    destruct (Hvideos _ v Hv) as (Harmed & _).
    destruct (Harmed eq_refl) as (d & ->). left. reflexivity.
  + apply nth_error_None in Hv. lia.
Qed.

Lemma videos_load_in_turn_witness :
exists pg : Init.Page,
  run_loads [(100%Z, Init.ev_canplaythrough 0); (7700%Z, Init.ev_loadNextVideo 1)]
            (init_page 0 2) = Some pg
  /\ Init.vidsLoaded pg = 3%nat.
Proof.
eexists. split; [reflexivity|].
exact (proj1 (proj2 (videos_load_in_turn 0 2
                       [(100%Z, Init.ev_canplaythrough 0); (7700%Z, Init.ev_loadNextVideo 1)]
                       _ eq_refl))).
Defined.

(** ** The size chosen by [setSrc], on any list *)

(** The size chosen by [setSrc] is among the sizes of the current aspect. *)
Lemma setSrc_size_in_declared (self_desktop self_mobile : list Z) (aspect : Init.Aspect)
      (winWidth : Q) :
let declared := match aspect with
                | Init.desktop => map Init.to_int32 self_desktop
                | Init.mobile => map Init.to_int32 self_mobile
                end in
(forall size, Init.setSrc_size self_desktop self_mobile aspect winWidth = Some size ->
              In size declared)
/\ (Init.setSrc_size self_desktop self_mobile aspect winWidth = None <-> declared = []).
Proof.
intros declared.
assert (Hlast : forall size, nth_error declared (length declared - 1) = Some size ->
                             In size declared)
  by (intros size; apply nth_error_In).
assert (Hnone : nth_error declared (length declared - 1) = None <-> declared = []).
{ split.
  - intros H. apply nth_error_None in H. destruct declared; [reflexivity|simpl in H; lia].
  - intros ->. reflexivity. }
assert (Heq : Init.setSrc_size self_desktop self_mobile aspect winWidth
              = match find (fun s => Qlt_bool winWidth (Init.times_1_1 s)) declared with
                | Some s => if (s =? 0)%Z
                            then nth_error declared (length declared - 1)
                            else Some s
                | None => nth_error declared (length declared - 1)
                end)
  by (subst declared; destruct aspect; reflexivity).
rewrite Heq.
destruct (find _ declared) as [s|] eqn:Hfind.
- apply find_some in Hfind. destruct Hfind as (Hin & _).
  destruct (Z.eqb s 0).
  + split; [exact Hlast | exact Hnone].
  + split; [intros size [= <-]; exact Hin|].
    split; [discriminate | intros ->; destruct Hin].
- split; [exact Hlast | exact Hnone].
Qed.

(** X11.  Whatever the declared sizes and the viewport width, [setSrc]
    chooses one of the sizes declared for the current aspect (after [|0]),
    never one of the other aspect; it has no size only when none is
    declared for the current aspect. *)
Theorem setSrc_size_declared (self_desktop self_mobile : list Z) (aspect : Init.Aspect)
      (winWidth : Q) :
let declared := match aspect with
                | Init.desktop => map Init.to_int32 self_desktop
                | Init.mobile => map Init.to_int32 self_mobile
                end in
(forall size, Init.setSrc_size self_desktop self_mobile aspect winWidth = Some size ->
              In size declared)
/\ (Init.setSrc_size self_desktop self_mobile aspect winWidth = None <-> declared = []).
Proof.
exact (setSrc_size_in_declared self_desktop self_mobile aspect winWidth).
Qed.

Lemma setSrc_size_declared_witness :
In 640%Z (map Init.to_int32 [640; 800]%Z)
/\ Init.setSrc_size [] [960]%Z Init.desktop 700 = None.
Proof.
split.
- exact (proj1 (setSrc_size_declared [640; 800]%Z [960]%Z Init.desktop 700) 640%Z eq_refl).
- exact (proj2 (proj2 (setSrc_size_declared [] [960]%Z Init.desktop 700)) eq_refl).
Defined.

(** The declared sizes hold a size that passes the test of [setSrc], or
    none does. *)
Lemma adequate_somewhere (declared : list Z) (winWidth : Q) :
(exists s, In s declared /\ adequate winWidth s)
\/ (forall s, In s declared -> ~ adequate winWidth s).
Proof.
induction declared as [|a l IH].
- right. intros s [].
- destruct (Qlt_le_dec winWidth (Init.times_1_1 a)) as [H|H].
  + left. exists a. split; [left; reflexivity | exact H].
  + destruct IH as [(s & Hs & Had)|Hnone].
    * left. exists s. split; [right; exact Hs | exact Had].
    * right. intros s [<-|Hs]; [unfold adequate; lra | exact (Hnone s Hs)].
Qed.

(** X12.  On an ascending list of declared sizes (positive, below 2^31) a
    wider viewport never gets a smaller size. *)
Theorem setSrc_size_monotone (declared other : list Z) (w1 w2 : Q) (size1 size2 : Z) :
declared <> [] ->
StronglySorted Z.le declared ->
Forall (fun s => 0 < s < 2 ^ 31)%Z declared ->
w1 <= w2 ->
Init.setSrc_size declared other Init.desktop w1 = Some size1 ->
Init.setSrc_size declared other Init.desktop w2 = Some size2 ->
(size1 <= size2)%Z.
Proof.
intros Hne Hsorted Hpos Hw H1 H2.
destruct (setSrc_size_sorted declared w1 Hne Hsorted Hpos)
  as (s1 & Hd1 & _ & Hin1 & Hsome1 & Hnone1).
destruct (setSrc_size_sorted declared w2 Hne Hsorted Hpos)
  as (s2 & Hd2 & _ & Hin2 & Hsome2 & Hnone2).
rewrite Hd1 in H1. injection H1 as <-.
rewrite Hd2 in H2. injection H2 as <-.
destruct (adequate_somewhere declared w2) as [Hex|Hno].
- destruct (Hsome2 Hex) as (Had2 & _).
  assert (Had1 : adequate w1 s2) by (unfold adequate in *; lra).
  destruct Hsome1 as (_ & Hmin); [exists s2; split; assumption|].
  apply Hmin; assumption.
- apply Hnone2; assumption.
Qed.

Lemma setSrc_size_monotone_witness :
(640 <= 800)%Z.
Proof.
assert (Hne : [640; 800]%Z <> []) by discriminate.
assert (Hsorted : StronglySorted Z.le [640; 800]%Z) by (repeat constructor; lia).
assert (Hpos : Forall (fun s => 0 < s < 2 ^ 31)%Z [640; 800]%Z)
  by (repeat constructor; lia).
assert (Hw : 700 <= 1000) by (vm_compute; discriminate).
exact (setSrc_size_monotone [640; 800]%Z [960]%Z 700 1000 640 800
         Hne Hsorted Hpos Hw eq_refl eq_refl).
Defined.

(** * The utilities around the player *)

(** ** [debounce] *)

Section debounce_properties.

Variables Args Result : Type.
Variable func : Args -> Result.
Variable wait : Z.

Lemma burst_snoc (immediate : bool) (calls : list (Z * Args)) (t : Z) (args : Args)
      (c : Debounce.Closure Args Result) :
Debounce.burst func wait immediate (calls ++ [(t, args)]) c
= snd (Debounce.call func wait immediate t args
         (Debounce.burst func wait immediate calls c)).
Proof.
revert c. induction calls as [|[t1 a1] calls IH]; intros c; simpl.
- reflexivity.
- apply IH.
Qed.

Lemma trailing_burst (calls : list (Z * Args)) (c : Debounce.Closure Args Result) :
Debounce.invoked (Debounce.burst func wait false calls c) = Debounce.invoked c
/\ Debounce.result (Debounce.burst func wait false calls c) = Debounce.result c.
Proof.
revert c. induction calls as [|[t1 a1] calls IH]; intros c.
- split; reflexivity.
- change (Debounce.burst func wait false ((t1, a1) :: calls) c)
    with (Debounce.burst func wait false calls
            (snd (Debounce.call func wait false t1 a1 c))).
  destruct (IH (snd (Debounce.call func wait false t1 a1 c))) as (H1 & H2).
  rewrite H1, H2. split; reflexivity.
Qed.

Lemma leading_burst (calls : list (Z * Args)) (c : Debounce.Closure Args Result) :
Debounce.timeout c <> None ->
Debounce.invoked (Debounce.burst func wait true calls c) = Debounce.invoked c
/\ Debounce.result (Debounce.burst func wait true calls c) = Debounce.result c
/\ Debounce.timeout (Debounce.burst func wait true calls c) <> None.
Proof.
revert c. induction calls as [|[t1 a1] calls IH]; intros c Hc.
- repeat split. exact Hc.
- destruct (Debounce.timeout c) as [p|] eqn:Hp; [|contradiction].
  change (Debounce.burst func wait true ((t1, a1) :: calls) c)
    with (Debounce.burst func wait true calls
            (snd (Debounce.call func wait true t1 a1 c))).
  set (c1 := snd (Debounce.call func wait true t1 a1 c)).
  assert (Hc1 : Debounce.timeout c1 = Some ((t1 + wait)%Z, a1)).
  { subst c1. unfold Debounce.call. rewrite Hp. reflexivity. }
  assert (Hsame : Debounce.invoked c1 = Debounce.invoked c
                  /\ Debounce.result c1 = Debounce.result c).
  { subst c1. unfold Debounce.call. rewrite Hp. split; reflexivity. }
  destruct (IH c1) as (H1 & H2 & H3); [rewrite Hc1; discriminate|].
  destruct Hsame as (Hi & Hr). rewrite H1, H2, Hi, Hr.
  repeat split. exact H3.
Qed.

End debounce_properties.

(** X13.  In the trailing mode ([immediate] false) a burst of calls does
    not run [func]: every call returns the result stored before the
    burst; only the timer of the last call stays pending, it cannot run
    before [wait] ms have passed since that call, and when it runs it
    calls [func] once, with the arguments of the last call. *)
Theorem debounce_trailing (Args Result : Type) (func : Args -> Result) (wait : Z)
      (calls : list (Z * Args)) (t : Z) (args : Args) (c : Debounce.Closure Args Result) :
let before := Debounce.burst func wait false calls c in
let after := snd (Debounce.call func wait false t args before) in
fst (Debounce.call func wait false t args before) = Debounce.result c
/\ Debounce.invoked after = Debounce.invoked c
/\ Debounce.timeout after = Some ((t + wait)%Z, args)
/\ forall t' : Z,
     Debounce.later func false t' after
     = if (t + wait <=? t')%Z
       then Some {| Debounce.result := Some (func args);
                    Debounce.timeout := None;
                    Debounce.invoked := Debounce.invoked c ++ [(t', args)] |}
       else None.
Proof.
intros before after.
destruct (trailing_burst Args Result func wait calls c) as (Hi & Hr).
fold before in Hi, Hr. subst after. unfold Debounce.call. simpl.
split; [exact Hr|]. split; [exact Hi|]. split; [reflexivity|].
intros t'. unfold Debounce.later. simpl. rewrite Hi. reflexivity.
Qed.

(** X14.  In the immediate mode a call made while no timer is pending runs
    [func] at once; the calls that follow in the burst do not run it and
    return the result of that first run; the timer, when it runs, does not
    call [func] either: it only lets the next call run it again. *)
Theorem debounce_leading (Args Result : Type) (func : Args -> Result) (wait : Z)
      (t1 : Z) (a1 : Args) (calls : list (Z * Args)) (c : Debounce.Closure Args Result) :
Debounce.timeout c = None ->
let after := Debounce.burst func wait true ((t1, a1) :: calls) c in
Debounce.invoked after = Debounce.invoked c ++ [(t1, a1)]
/\ Debounce.result after = Some (func a1)
/\ (exists due args, Debounce.timeout after = Some (due, args))
/\ forall t' c', Debounce.later func true t' after = Some c' ->
                 Debounce.invoked c' = Debounce.invoked after
                 /\ Debounce.result c' = Debounce.result after
                 /\ Debounce.timeout c' = None.
Proof.
intros Hc after. subst after.
change (Debounce.burst func wait true ((t1, a1) :: calls) c)
  with (Debounce.burst func wait true calls
          (snd (Debounce.call func wait true t1 a1 c))).
set (c1 := snd (Debounce.call func wait true t1 a1 c)).
assert (Hc1 : Debounce.timeout c1 = Some ((t1 + wait)%Z, a1)
              /\ Debounce.invoked c1 = Debounce.invoked c ++ [(t1, a1)]
              /\ Debounce.result c1 = Some (func a1)).
{ subst c1. unfold Debounce.call. rewrite Hc. repeat split. }
destruct Hc1 as (Ht & Hi & Hr).
destruct (leading_burst Args Result func wait calls c1) as (H1 & H2 & H3);
  [rewrite Ht; discriminate|].
rewrite H1, H2, Hi, Hr. split; [reflexivity|]. split; [reflexivity|].
assert (Hpending : exists due args,
           Debounce.timeout (Debounce.burst func wait true calls c1) = Some (due, args)).
{ destruct (Debounce.timeout (Debounce.burst func wait true calls c1)) as [[due args]|];
    [eexists; eexists; reflexivity | contradiction]. }
split; [exact Hpending|].
intros t' c'. unfold Debounce.later.
destruct Hpending as (due & args & ->).
destruct (Z.leb due t'); [|discriminate].
intros [= <-]. simpl. rewrite H1, H2, Hi, Hr. repeat split.
Qed.

Lemma debounce_leading_witness :
Debounce.invoked (Debounce.burst (fun n : nat => S n) 250 true
                    [(0%Z, 1%nat); (100%Z, 2%nat); (200%Z, 3%nat)]
                    (Debounce.fresh nat nat))
= [(0%Z, 1%nat)].
Proof.
exact (proj1 (debounce_leading nat nat (fun n => S n) 250 0 1%nat
                [(100%Z, 2%nat); (200%Z, 3%nat)] (Debounce.fresh nat nat) eq_refl)).
Defined.

(** ** The resize listeners *)

Lemma listeners_throttled (bindings : list nat) (st : Resize.State) :
Resize.throttled st = true ->
fold_left (fun st binding => Resize.listener binding st) bindings st = st.
Proof.
intros H. induction bindings as [|b bindings IH]; simpl; [reflexivity|].
unfold Resize.listener at 2. rewrite H. simpl. exact IH.
Qed.

(** One resize event: the first listener recomputes and sets the flag, the
    listeners of the other bindings find it set. *)
Lemma resize_first_only (n : nat) (st : Resize.State) :
Resize.throttled st = false ->
fold_left (fun st binding => Resize.listener binding st) (seq 0 (S n)) st
= {| Resize.clock := Resize.clock st; Resize.throttled := true;
     Resize.pending := Resize.pending st ++ [(Resize.clock st + 150)%Z];
     Resize.recomputed := Resize.recomputed st ++ [(Resize.clock st, 0%nat)] |}.
Proof.
intros H. cbn [seq fold_left]. unfold Resize.listener at 2. rewrite H. simpl.
apply listeners_throttled. reflexivity.
Qed.

Lemma apart_snoc (l : list (Z * nat)) (t : Z) (b : nat) :
Resize.apart l ->
Forall (fun entry => (fst entry + 150 <= t)%Z) l ->
Resize.apart (l ++ [(t, b)]).
Proof.
induction l as [|[t1 b1] l IH]; intros Hl Hall.
- simpl. tauto.
- inversion Hall as [|? ? H1 Hrest]; subst. simpl in H1.
  destruct Hl as (Hnext & Hl). specialize (IH Hl Hrest).
  change (((t1, b1) :: l) ++ [(t, b)]) with ((t1, b1) :: (l ++ [(t, b)])).
  split; [|exact IH].
  destruct l as [|[t2 b2] l]; simpl; [lia | exact Hnext].
Qed.

Lemma apart_before_last (l : list (Z * nat)) (t : Z) (b : nat) :
Resize.apart l ->
last l (0%Z, 0%nat) = (t, b) ->
l <> [] ->
Forall (fun entry => (fst entry <= t)%Z) l.
Proof.
induction l as [|[t1 b1] l IH]; intros Hl Hlast Hne; [contradiction|].
destruct l as [|[t2 b2] l].
- simpl in Hlast. injection Hlast as -> ->. constructor; [simpl; lia | constructor].
- destruct Hl as (Hnext & Hl).
  assert (Hrest : Forall (fun entry => (fst entry <= t)%Z) ((t2, b2) :: l))
    by (apply IH; [exact Hl | exact Hlast | discriminate]).
  constructor; [|exact Hrest].
  inversion Hrest as [|? ? H2 _]; subst. simpl in *. lia.
Qed.

Lemma resize_fire_inv (n : nat) (t : Z) (ev : Resize.Event) (st st' : Resize.State) :
Resize.inv st ->
Resize.fire n t ev st = Some st' ->
Resize.inv st'.
Proof.
intros (Hapart & Hzero & Hflag). unfold Resize.fire.
destruct (Z.ltb_spec t (Resize.clock st)) as [|Ht]; [discriminate|].
set (st_t := {| Resize.clock := t; Resize.throttled := Resize.throttled st;
                Resize.pending := Resize.pending st;
                Resize.recomputed := Resize.recomputed st |}).
assert (Hzero_t : Forall (fun entry => snd entry = 0%nat /\ (fst entry <= t)%Z)
                         (Resize.recomputed st)).
{ eapply Forall_impl; [|exact Hzero]. intros [t1 b1] [H1 H2]. simpl in *. split; lia. }
destruct ev as [|k].
- intros [= <-].
  destruct (Resize.throttled st) eqn:Hthr.
  + rewrite listeners_throttled by reflexivity.
    unfold Resize.inv. cbn [Resize.recomputed Resize.clock Resize.throttled Resize.pending st_t].
    try rewrite Hthr. repeat split; assumption.
  + destruct Hflag as (Hpending & Hold).
    assert (Hold_t : Forall (fun entry => (fst entry + 150 <= t)%Z) (Resize.recomputed st)).
    { eapply Forall_impl; [|exact Hold]. intros [t1 b1] H1. simpl in *. lia. }
    destruct n as [|n].
    * simpl. unfold Resize.inv.
      cbn [Resize.recomputed Resize.clock Resize.throttled Resize.pending st_t].
      try rewrite Hthr. repeat split; assumption.
    * rewrite resize_first_only by reflexivity.
      unfold Resize.inv.
      cbn [Resize.recomputed Resize.clock Resize.throttled Resize.pending st_t].
      split; [apply apart_snoc; assumption|]. split.
      -- apply Forall_app. split; [exact Hzero_t|].
         constructor; [simpl; split; [reflexivity | lia] | constructor].
      -- exists t, 0%nat. rewrite last_last, Hpending. repeat split.
         intros H. apply app_eq_nil in H. destruct H as [_ H]. discriminate.
- cbn [Resize.pending st_t].
  destruct (nth_error (Resize.pending st) k) as [due|] eqn:Hdue; [|discriminate].
  destruct (Z.leb_spec due t) as [Hle|]; [|discriminate].
  intros [= <-]. unfold Resize.inv.
  cbn [Resize.recomputed Resize.clock Resize.throttled Resize.pending st_t].
  destruct (Resize.throttled st) eqn:Hthr.
  + destruct Hflag as (t1 & b1 & Hlast & Hne & Hpending).
    rewrite Hpending in Hdue |- *.
    destruct k as [|k]; [|destruct k; discriminate].
    simpl in Hdue. injection Hdue as <-.
    split; [exact Hapart|]. split; [exact Hzero_t|]. split; [reflexivity|].
    pose proof (apart_before_last _ t1 b1 Hapart Hlast Hne) as Hbound.
    eapply Forall_impl; [|exact Hbound]. intros [t2 b2] H2. simpl in *. lia.
  + destruct Hflag as (Hpending & _). rewrite Hpending in Hdue.
    destruct k; discriminate.
Qed.

Lemma resize_run_inv (n : nat) (evs : list (Z * Resize.Event)) (st st' : Resize.State) :
Resize.inv st ->
Resize.run n evs st = Some st' ->
Resize.inv st'.
Proof.
revert st. induction evs as [|[t ev] evs IH]; intros st Hinv; simpl.
- intros [= <-]. exact Hinv.
- destruct (Resize.fire n t ev st) as [st1|] eqn:Hfire; [|discriminate].
  apply IH. exact (resize_fire_inv n t ev st st1 Hinv Hfire).
Qed.

(** X15.  Whatever resize events and timers the browser delivers to a page
    with any number of bindings, two recomputations of a scene are at
    least 150 ms apart, and every recomputation is of the first binding:
    the listeners of the other bindings always find the shared flag set. *)
Theorem resize_throttled (n : nat) (t0 : Z) (evs : list (Z * Resize.Event))
      (st : Resize.State) :
Resize.run n evs (Resize.start t0) = Some st ->
Resize.apart (Resize.recomputed st)
/\ forall t binding, In (t, binding) (Resize.recomputed st) -> binding = 0%nat.
Proof.
intros Hrun.
assert (H0 : Resize.inv (Resize.start t0)).
{ unfold Resize.inv. simpl. repeat split; constructor. }
destruct (resize_run_inv n evs _ st H0 Hrun) as (Hapart & Hzero & _).
split; [exact Hapart|].
intros t binding Hin. rewrite Forall_forall in Hzero.
destruct (Hzero _ Hin) as (H & _). exact H.
Qed.

Lemma resize_throttled_witness :
exists st : Resize.State,
  Resize.run 2 [(10%Z, Resize.resize); (50%Z, Resize.resize);
                (160%Z, Resize.timer 0); (170%Z, Resize.resize)]
             (Resize.start 0) = Some st
  /\ Resize.recomputed st = [(10%Z, 0%nat); (170%Z, 0%nat)]
  /\ Resize.apart (Resize.recomputed st).
Proof.
eexists. split; [reflexivity|]. split; [reflexivity|].
exact (proj1 (resize_throttled 2 0 [(10%Z, Resize.resize); (50%Z, Resize.resize);
                                   (160%Z, Resize.timer 0); (170%Z, Resize.resize)]
                _ eq_refl)).
Defined.

(** ** The classes on the root element *)

Section class_list.

Import String.

Lemma contains_add (c x : string) (html : list string) :
Environment.contains (Environment.add c html) x
= (String.eqb x c || Environment.contains html x)%bool.
Proof.
unfold Environment.add, Environment.contains.
destruct (existsb (String.eqb c) html) eqn:Hc.
- destruct (String.eqb_spec x c) as [->|_]; [rewrite Hc|]; reflexivity.
- rewrite existsb_app. simpl. rewrite orb_false_r. apply orb_comm.
Qed.

Lemma contains_remove (c x : string) (html : list string) :
Environment.contains (Environment.remove c html) x
= (negb (String.eqb x c) && Environment.contains html x)%bool.
Proof.
unfold Environment.remove, Environment.contains.
induction html as [|a html IH]; simpl.
- rewrite andb_false_r. reflexivity.
- destruct (String.eqb_spec c a) as [->|Hca]; simpl.
  + rewrite IH. destruct (String.eqb_spec x a); reflexivity.
  + rewrite IH. destruct (String.eqb_spec x a) as [->|Hxa]; simpl.
    * destruct (String.eqb_spec a c) as [->|_]; [contradiction | reflexivity].
    * reflexivity.
Qed.

Lemma contains_toggle (entry : string * bool) (x : string) (html : list string) :
Environment.contains (Environment.toggle html entry) x
= if String.eqb x (fst entry) then snd entry else Environment.contains html x.
Proof.
unfold Environment.toggle. destruct entry as [c [|]]; simpl.
- rewrite contains_add. destruct (String.eqb x c); reflexivity.
- rewrite contains_remove. destruct (String.eqb x c); reflexivity.
Qed.

Lemma toggles_other (l : list (string * bool)) (html : list string) (x : string) :
~ In x (map fst l) ->
Environment.contains (fold_left Environment.toggle l html) x
= Environment.contains html x.
Proof.
revert html. induction l as [|p l IH]; intros html Hx; simpl.
- reflexivity.
- rewrite IH by (intros H; apply Hx; right; exact H).
  rewrite contains_toggle.
  destruct (String.eqb_spec x (fst p)) as [->|_]; [|reflexivity].
  exfalso. apply Hx. left. reflexivity.
Qed.

Lemma toggles_decided (l : list (string * bool)) (html : list string)
      (x : string) (on : bool) :
NoDup (map fst l) ->
In (x, on) l ->
Environment.contains (fold_left Environment.toggle l html) x = on.
Proof.
revert html. induction l as [|p l IH]; intros html Hnodup Hin; simpl.
- destruct Hin.
- inversion Hnodup as [|? ? Hfresh Hrest]; subst.
  destruct Hin as [->|Hin].
  + rewrite toggles_other by exact Hfresh.
    rewrite contains_toggle. simpl. rewrite String.eqb_refl. reflexivity.
  + apply IH; assumption.
Qed.

Lemma fold_left_map {A B C : Type} (f : A -> C -> A) (g : B -> C) (l : list B) (a : A) :
fold_left f (map g l) a = fold_left (fun a x => f a (g x)) l a.
Proof.
revert a. induction l as [|x l IH]; intros a; simpl; [reflexivity | apply IH].
Qed.

Lemma prepEnvironment_toggles (br : Environment.Browser)
      (clientWidth innerWidth clientHeight innerHeight : Q) (html : list string) :
snd (Environment.prepEnvironment br clientWidth innerWidth clientHeight innerHeight html)
= fold_left Environment.toggle
    (Environment.decided br
       (Environment.setViewport clientWidth innerWidth clientHeight innerHeight))
    html.
Proof.
unfold Environment.prepEnvironment, Environment.decided. cbv zeta.
cbn [snd]. rewrite fold_left_app, !fold_left_map. reflexivity.
Qed.

Lemma decided_names_spec (br : Environment.Browser) (vp : Environment.Viewport) :
map fst (Environment.decided br vp) = Environment.decided_names.
Proof. reflexivity. Qed.

Lemma nodupb_NoDup (l : list string) : Environment.nodupb l = true -> NoDup l.
Proof.
induction l as [|x l IH]; simpl; intros H; constructor.
- apply andb_true_iff in H. destruct H as [H _].
  apply negb_true_iff in H. intros Hin.
  assert (Hex : existsb (String.eqb x) l = true).
  { apply existsb_exists. exists x. split; [exact Hin | apply String.eqb_refl]. }
  congruence.
- apply IH. apply andb_true_iff in H. tauto.
Qed.

Lemma decided_names_NoDup : NoDup Environment.decided_names.
Proof. apply nodupb_NoDup. vm_compute. reflexivity. Qed.

End class_list.

Section environment_properties.

Import String.

Lemma Qlt_div_iff (c w h : Q) : 0 < h -> (c < w / h <-> c * h < w).
Proof.
intros Hh.
assert (Heq : w / h * h == w) by (field; lra).
rewrite <- (Qmult_lt_r c (w / h) h Hh). rewrite Heq. reflexivity.
Qed.

(** X16.  After [prepEnvironment] on a viewport of positive height,
    whatever classes the root element had: the class of each breakpoint is
    present exactly when the viewport is at least as wide as the
    breakpoint, the class of each test of [getState] is present exactly
    when the test holds, and every other class is present exactly when it
    was before.  The viewport is the larger of the two widths and of the
    two heights; the landscape class is present exactly when it is wider
    than high, the portrait class exactly when it is not, the wide screen
    class exactly when its width exceeds 1440/1029 of its height, the small
    screen class up to a width of 740 and the large screen class from a
    width of 1150. *)
Theorem prepEnvironment_mirrors (br : Environment.Browser)
      (clientWidth innerWidth clientHeight innerHeight : Q) (html : list string) :
let vp := Environment.setViewport clientWidth innerWidth clientHeight innerHeight in
let html' :=
  snd (Environment.prepEnvironment br clientWidth innerWidth clientHeight innerHeight html) in
let w := Qmax clientWidth innerWidth in
let h := Qmax clientHeight innerHeight in
0 < h ->
(forall name bw,
    In (name, bw) Environment.breakpoints ->
    Environment.contains html' (String.append "g-viewport-" name)
    = (Environment.width vp >=? inject_Z bw))
/\ (forall fnName result,
       In (fnName, result) (Environment.getState br vp) ->
       Environment.contains html' (String.append "g-page-" (Environment.toLowerCase fnName))
       = result)
/\ (forall className,
       ~ In className Environment.decided_names ->
       Environment.contains html' className = Environment.contains html className)
/\ Environment.width vp = w
/\ Environment.height vp = h
/\ (Environment.contains html' "g-page-islandscape" = true <-> h < w)
/\ (Environment.contains html' "g-page-isportrait" = true <-> w <= h)
/\ (Environment.contains html' "g-page-iswidescreen" = true <-> 1440 * h < 1029 * w)
/\ (Environment.contains html' "g-page-issmallscreen" = true <-> w <= 740)
/\ (Environment.contains html' "g-page-islargescreen" = true <-> 1150 <= w).
Proof.
intros vp html' w h Hh.
assert (Htests : forall fnName result,
           In (fnName, result) (Environment.getState br vp) ->
           Environment.contains html'
             (String.append "g-page-" (Environment.toLowerCase fnName))
           = result).
{ subst html'. rewrite prepEnvironment_toggles. fold vp.
  pose proof decided_names_NoDup as Hnodup.
  rewrite <- (decided_names_spec br vp) in Hnodup.
  intros fnName result Hin. apply toggles_decided; [exact Hnodup|].
  unfold Environment.decided. apply in_or_app. right.
  apply (in_map (fun entry =>
                   (String.append Environment.classNamePrefixes_env
                      (String.append "-" (Environment.toLowerCase (fst entry))),
                    snd entry))
                (Environment.getState br vp) (fnName, result) Hin). }
assert (Hland : Environment.isLandscape vp = true <-> h < w).
{ unfold Environment.isLandscape. rewrite Qlt_bool_iff.
  change (Environment.aspectRatio vp) with (w / h).
  rewrite (Qlt_div_iff 1 w h Hh). split; intros H; lra. }
split; [|split; [exact Htests|split]].
- subst html'. rewrite prepEnvironment_toggles. fold vp.
  pose proof decided_names_NoDup as Hnodup.
  rewrite <- (decided_names_spec br vp) in Hnodup.
  intros name bw Hin. apply toggles_decided; [exact Hnodup|].
  unfold Environment.decided. apply in_or_app. left.
  apply (in_map (fun breakpoint =>
                   (String.append Environment.classNamePrefixes_breakpoint
                      (String.append "-" (Environment.bp_name breakpoint)),
                    Environment.active breakpoint))
                (Environment.getBreakpoints vp)
                {| Environment.bp_width := bw; Environment.bp_name := name;
                   Environment.active := Environment.width vp >=? inject_Z bw |}).
  unfold Environment.getBreakpoints.
  apply (in_map (fun entry =>
                   {| Environment.bp_width := snd entry;
                      Environment.bp_name := fst entry;
                      Environment.active :=
                        Environment.width vp >=? inject_Z (snd entry) |})
                Environment.breakpoints (name, bw) Hin).
- subst html'. rewrite prepEnvironment_toggles. fold vp.
  intros className Hother. apply toggles_other.
  rewrite decided_names_spec. exact Hother.
- split; [reflexivity|]. split; [reflexivity|].
  split; [|split; [|split; [|split]]].
  + pose proof (Htests "isLandscape"%string (Environment.isLandscape vp) ltac:(simpl; tauto)) as Ht.
    change (String.append "g-page-" (Environment.toLowerCase "isLandscape"))
      with "g-page-islandscape"%string in Ht.
    rewrite Ht.
    exact Hland.
  + pose proof (Htests "isPortrait"%string (Environment.isPortrait vp) ltac:(simpl; tauto)) as Ht.
    change (String.append "g-page-" (Environment.toLowerCase "isPortrait"))
      with "g-page-isportrait"%string in Ht.
    rewrite Ht.
    unfold Environment.isPortrait. rewrite negb_true_iff, <- not_true_iff_false, Hland.
    split; intros H; [apply Qnot_lt_le; exact H | apply Qle_not_lt; exact H].
  + pose proof (Htests "isWideScreen"%string (Environment.isWideScreen vp) ltac:(simpl; tauto)) as Ht.
    change (String.append "g-page-" (Environment.toLowerCase "isWideScreen"))
      with "g-page-iswidescreen"%string in Ht.
    rewrite Ht.
    unfold Environment.isWideScreen. rewrite Qlt_bool_iff.
    change (Environment.aspectRatio vp) with (w / h).
    rewrite (Qlt_div_iff _ w h Hh).
    assert (Hratio : inject_Z Environment.breakpoints_xxlarge / 1029 == 1440 / 1029)
      by reflexivity.
    rewrite Hratio. split; intros H.
    * assert (H' : 1440 / 1029 * h * 1029 < w * 1029)
        by (apply Qmult_lt_compat_r; [reflexivity | exact H]).
      assert (Heq : 1440 / 1029 * h * 1029 == 1440 * h) by field.
      rewrite Heq in H'. lra.
    * assert (Heq : 1440 / 1029 * h == 1440 * h / 1029) by field.
      rewrite Heq. apply Qlt_shift_div_r; [reflexivity | lra].
  + pose proof (Htests "isSmallScreen"%string (Environment.isSmallScreen vp) ltac:(simpl; tauto)) as Ht.
    change (String.append "g-page-" (Environment.toLowerCase "isSmallScreen"))
      with "g-page-issmallscreen"%string in Ht.
    rewrite Ht.
    unfold Environment.isSmallScreen. rewrite Qle_bool_iff. reflexivity.
  + pose proof (Htests "isLargeScreen"%string (Environment.isLargeScreen vp) ltac:(simpl; tauto)) as Ht.
    change (String.append "g-page-" (Environment.toLowerCase "isLargeScreen"))
      with "g-page-islargescreen"%string in Ht.
    rewrite Ht.
    unfold Environment.isLargeScreen. rewrite Qle_bool_iff. reflexivity.
Qed.

Lemma prepEnvironment_mirrors_witness :
Environment.contains
  (snd (Environment.prepEnvironment
          {| Environment.isApp := false; Environment.isIos := false;
             Environment.isAndroid := true; Environment.isIphone := false;
             Environment.isMobile := true; Environment.isHighDensity := true;
             Environment.isRetina := false |}
          360 360 640 640 ["g-viewport-large"%string; "g-page-production"%string]))
  "g-page-isportrait"%string
= true.
Proof.
assert (Hh : 0 < Qmax 640 640) by (vm_compute; reflexivity).
apply (proj1 (proj2 (proj2 (proj2 (proj2 (proj2 (proj2
         (prepEnvironment_mirrors
            {| Environment.isApp := false; Environment.isIos := false;
               Environment.isAndroid := true; Environment.isIphone := false;
               Environment.isMobile := true; Environment.isHighDensity := true;
               Environment.isRetina := false |}
            360 360 640 640 ["g-viewport-large"%string; "g-page-production"%string]
            Hh)))))))).
vm_compute. discriminate.
Defined.

Lemma sorted_nth {A : Type} (R : A -> A -> Prop) (l : list A) (i j : nat) (x y : A) :
StronglySorted R l ->
(j < i)%nat ->
nth_error l j = Some y ->
nth_error l i = Some x ->
R y x.
Proof.
intros Hs. revert i j. induction Hs as [|a l Hs IH Hall]; intros i j Hji Hy Hx.
- destruct j; discriminate.
- destruct i as [|i]; [lia|]. destruct j as [|j]; simpl in Hx, Hy.
  + injection Hy as <-. rewrite Forall_forall in Hall.
    apply Hall. exact (nth_error_In _ _ Hx).
  + apply (IH i j); [lia | exact Hy | exact Hx].
Qed.

Lemma breakpoints_sorted :
StronglySorted (fun a b : string * Z => (snd a <= snd b)%Z) Environment.breakpoints.
Proof.
unfold Environment.breakpoints.
repeat (constructor; [|repeat constructor; simpl; lia]). constructor.
Qed.

(** X17.  Whatever the viewport, the active breakpoints form an initial
    segment of the list [getBreakpoints] returns: every breakpoint before
    an active one is active. *)
Theorem getBreakpoints_prefix (vp : Environment.Viewport) (i j : nat)
      (a b : Environment.Breakpoint) :
(j <= i)%nat ->
nth_error (Environment.getBreakpoints vp) i = Some a ->
nth_error (Environment.getBreakpoints vp) j = Some b ->
Environment.active a = true ->
Environment.active b = true.
Proof.
intros Hji Ha Hb Hactive.
destruct (Nat.eq_dec j i) as [->|Hne]; [congruence|].
unfold Environment.getBreakpoints in Ha, Hb.
rewrite nth_error_map in Ha, Hb.
destruct (nth_error Environment.breakpoints i) as [x|] eqn:Hx; [|discriminate].
destruct (nth_error Environment.breakpoints j) as [y|] eqn:Hy; [|discriminate].
injection Ha as <-. injection Hb as <-. simpl in *.
pose proof (sorted_nth _ _ i j x y breakpoints_sorted ltac:(lia) Hy Hx) as Hle.
simpl in Hle. apply Qle_bool_iff in Hactive. apply Qle_bool_iff.
rewrite Zle_Qle in Hle. lra.
Qed.

Lemma getBreakpoints_prefix_witness :
exists a b : Environment.Breakpoint,
  nth_error (Environment.getBreakpoints (Environment.setViewport 800 800 600 600)) 3 = Some a
  /\ nth_error (Environment.getBreakpoints (Environment.setViewport 800 800 600 600)) 1 = Some b
  /\ Environment.active b = true.
Proof.
eexists. eexists. split; [reflexivity|]. split; [reflexivity|].
eapply (getBreakpoints_prefix (Environment.setViewport 800 800 600 600) 3 1);
  [lia | reflexivity | reflexivity | vm_compute; reflexivity].
Defined.

(** X18.  No viewport is both a small and a large screen, and every wide
    screen is in landscape and not in portrait. *)
Theorem screen_tests_consistent (vp : Environment.Viewport) :
(Environment.isSmallScreen vp && Environment.isLargeScreen vp = false)
/\ (Environment.isWideScreen vp = true ->
    Environment.isLandscape vp = true /\ Environment.isPortrait vp = false).
Proof.
unfold Environment.isSmallScreen, Environment.isLargeScreen, Environment.isWideScreen,
  Environment.isPortrait, Environment.isLandscape.
split.
- q_case_le (Environment.width vp) (inject_Z Environment.breakpoints_medium);
    [|reflexivity].
  q_case_le (inject_Z Environment.breakpoints_xlarge) (Environment.width vp);
    [|reflexivity].
  exfalso.
  assert (H : inject_Z Environment.breakpoints_medium
              < inject_Z Environment.breakpoints_xlarge) by (vm_compute; reflexivity).
  lra.
- intros Hwide. apply Qlt_bool_iff in Hwide.
  assert (H : 1 < inject_Z Environment.breakpoints_xxlarge / 1029)
    by (vm_compute; reflexivity).
  assert (Hland : Qlt_bool 1 (Environment.aspectRatio vp) = true)
    by (apply Qlt_bool_iff; lra).
  rewrite Hland. split; reflexivity.
Qed.

Lemma screen_tests_consistent_witness :
Environment.isLandscape (Environment.setViewport 1920 1920 1080 1080) = true
/\ Environment.isPortrait (Environment.setViewport 1920 1920 1080 1080) = false.
Proof.
apply (proj2 (screen_tests_consistent (Environment.setViewport 1920 1920 1080 1080))).
vm_compute. reflexivity.
Defined.

End environment_properties.

(** ** [slugify] *)

Section slugify_properties.

Import String Ascii.

Lemma toLowerCase_ascii_space (ch : ascii) :
Ascii.eqb (Environment.toLowerCase_ascii ch) " " = Ascii.eqb ch " ".
Proof.
destruct ch as [[] [] [] [] [] [] [] []]; reflexivity.
Qed.

Lemma toLowerCase_ascii_idempotent (ch : ascii) :
Environment.toLowerCase_ascii (Environment.toLowerCase_ascii ch)
= Environment.toLowerCase_ascii ch.
Proof.
destruct ch as [[] [] [] [] [] [] [] []]; reflexivity.
Qed.

Lemma toLowerCase_spaces (s : string) :
Environment.spaces (Environment.toLowerCase s) = Environment.spaces s
/\ String.length (Environment.toLowerCase s) = String.length s.
Proof.
induction s as [|ch s [IH1 IH2]]; simpl; [split; reflexivity|].
rewrite toLowerCase_ascii_space, IH1, IH2. split; reflexivity.
Qed.

Lemma replace_space_spaces (s : string) :
Environment.spaces (Environment.replace_space s) = pred (Environment.spaces s)
/\ String.length (Environment.replace_space s) = String.length s.
Proof.
induction s as [|ch s [IH1 IH2]]; simpl; [split; reflexivity|].
destruct (Ascii.eqb ch " ") eqn:E; simpl.
- split; reflexivity.
- rewrite E, IH1, IH2. split; reflexivity.
Qed.

Lemma toLowerCase_replace_space (s : string) :
Environment.toLowerCase (Environment.replace_space s)
= Environment.replace_space (Environment.toLowerCase s).
Proof.
induction s as [|ch s IH]; simpl; [reflexivity|].
rewrite toLowerCase_ascii_space.
destruct (Ascii.eqb ch " "); simpl; [reflexivity|].
rewrite IH. reflexivity.
Qed.

Lemma toLowerCase_idempotent (s : string) :
Environment.toLowerCase (Environment.toLowerCase s) = Environment.toLowerCase s.
Proof.
induction s as [|ch s IH]; simpl; [reflexivity|].
rewrite toLowerCase_ascii_idempotent, IH. reflexivity.
Qed.

Lemma replace_space_none (s : string) :
Environment.spaces s = 0%nat -> Environment.replace_space s = s.
Proof.
induction s as [|ch s IH]; simpl; [reflexivity|].
destruct (Ascii.eqb ch " "); [discriminate|].
intros H. rewrite (IH H). reflexivity.
Qed.

Lemma replace_space_first (pre post : string) :
Environment.spaces pre = 0%nat ->
Environment.replace_space (pre ++ String " " post) = (pre ++ String "_" post)%string.
Proof.
induction pre as [|ch pre IH]; simpl; [reflexivity|].
destruct (Ascii.eqb ch " "); [discriminate|].
intros H. rewrite (IH H). reflexivity.
Qed.

Lemma toLowerCase_append (pre post : string) :
Environment.toLowerCase (pre ++ post)
= (Environment.toLowerCase pre ++ Environment.toLowerCase post)%string.
Proof.
induction pre as [|ch pre IH]; simpl; [reflexivity|].
rewrite IH. reflexivity.
Qed.

Lemma toLowerCase_get (s : string) (i : nat) (ch : ascii) :
String.get i s = Some ch ->
String.get i (Environment.toLowerCase s) = Some (Environment.toLowerCase_ascii ch).
Proof.
revert i. induction s as [|c s IH]; intros i; simpl; [discriminate|].
destruct i as [|i]; [intros [= ->]; reflexivity | apply IH].
Qed.

(** X19.  On a string of ASCII characters [slugify] lower-cases the
    letters A to Z and keeps every other character, except that the first
    space, and only that one, becomes an underscore: a string without space
    is only lower-cased, and a string [pre ++ " " ++ post] with no space in
    [pre] becomes the lower-cased [pre], an underscore and the lower-cased
    [post], whose spaces all stay.  The length is kept. *)
Theorem slugify_first_space_only (s pre post : string) :
Environment.is_ascii s ->
(Environment.spaces s = 0%nat -> Environment.slugify s = Environment.toLowerCase s)
/\ (s = (pre ++ String " " post)%string ->
    Environment.spaces pre = 0%nat ->
    Environment.slugify s
    = (Environment.toLowerCase pre ++ String "_" (Environment.toLowerCase post))%string
    /\ Environment.spaces (Environment.toLowerCase post) = Environment.spaces post)
/\ (forall i ch,
       String.get i s = Some ch ->
       String.get i (Environment.toLowerCase s)
       = Some (if ((65 <=? nat_of_ascii ch) && (nat_of_ascii ch <=? 90))%nat
               then ascii_of_nat (nat_of_ascii ch + 32)
               else ch))
/\ String.length (Environment.slugify s) = String.length s
/\ Environment.spaces (Environment.slugify s) = pred (Environment.spaces s)
/\ Environment.toLowerCase (Environment.slugify s) = Environment.slugify s.
Proof.
intros _. unfold Environment.slugify.
destruct (replace_space_spaces (Environment.toLowerCase s)) as (H1 & H2).
destruct (toLowerCase_spaces s) as (H3 & H4).
split; [|split; [|split]].
- intros Hnone. apply replace_space_none. rewrite H3. exact Hnone.
- intros -> Hpre. split; [|exact (proj1 (toLowerCase_spaces post))].
  rewrite toLowerCase_append.
  change (Environment.toLowerCase (String " " post))
    with (String " " (Environment.toLowerCase post)).
  apply replace_space_first.
  rewrite (proj1 (toLowerCase_spaces pre)). exact Hpre.
- intros i ch Hget. exact (toLowerCase_get s i ch Hget).
- rewrite H1, H2, H3, H4. repeat split.
  rewrite toLowerCase_replace_space, toLowerCase_idempotent. reflexivity.
Qed.

Lemma slugify_first_space_only_witness :
Environment.slugify "Windows Server 2003" = "windows_server 2003"%string.
Proof.
assert (H : Environment.is_ascii "Windows Server 2003")
  by (simpl; repeat split; apply Nat.ltb_lt; vm_compute; reflexivity).
exact (proj1 (proj1 (proj2 (slugify_first_space_only "Windows Server 2003"
                               "Windows" "Server 2003" H))
                eq_refl eq_refl)).
Defined.

End slugify_properties.

(** ** The sprite of a slider *)

Lemma Qfloor_div_Z (a s : Z) :
(0 < s)%Z -> Qfloor (inject_Z a / inject_Z s) = (a / s)%Z.
Proof.
intros Hs. destruct s as [|p|p]; try lia.
unfold Qdiv, Qinv, Qmult, inject_Z, Qfloor. simpl.
rewrite Z.mul_1_r. reflexivity.
Qed.

(** X20.  For an integer value [v] and a depth whose root is at least 1,
    the horizontal offset of the sprite is 300 times [v - 1], negated: it
    does not depend on the depth.  When the root of the depth is the
    integer [s], the vertical offset is that of row [(v - 1) / s], and the
    horizontal offset is that of column [(v - 1) mod s] moved left by that
    many sheet widths of [300 * s]. *)
Theorem getSpritePos_offsets (Math_sqrt : Q -> Q) (value depth : Q) (v : Z) :
value == inject_Z v ->
1 <= Math_sqrt depth ->
fst (getSpritePos Math_sqrt value depth) == -300 * inject_Z (v - 1)
/\ forall s : Z,
     Math_sqrt depth == inject_Z s ->
     snd (getSpritePos Math_sqrt value depth) == -300 * inject_Z ((v - 1) / s)
     /\ fst (getSpritePos Math_sqrt value depth)
        == -300 * inject_Z ((v - 1) mod s)
           - inject_Z (300 * s) * inject_Z ((v - 1) / s).
Proof.
intros Hvalue Hroot.
assert (Hv : value - 1 == inject_Z (v - 1)).
{ rewrite Hvalue. unfold Zminus. rewrite inject_Z_plus. reflexivity. }
split.
- unfold getSpritePos. cbn [fst]. rewrite <- Hv. ring.
- intros s Hsqrt.
  assert (Hs : (0 < s)%Z).
  { rewrite Hsqrt in Hroot. change 1 with (inject_Z 1) in Hroot.
    rewrite <- Zle_Qle in Hroot. lia. }
  assert (Hfloor : Qfloor ((value - 1) / Math_sqrt depth) = ((v - 1) / s)%Z).
  { rewrite <- (Qfloor_div_Z (v - 1) s Hs).
    apply Qfloor_comp. rewrite Hsqrt, Hv. reflexivity. }
  unfold getSpritePos. cbn [fst snd]. rewrite Hfloor. split; [ring|].
  rewrite Hv.
  rewrite (Z.div_mod (v - 1) s) at 2 by lia.
  rewrite inject_Z_plus, !inject_Z_mult. ring.
Qed.

Lemma getSpritePos_offsets_witness :
fst (getSpritePos sqrt_of_square 17 49) == -300 * 16
/\ snd (getSpritePos sqrt_of_square 17 49) == -300 * 2
/\ fst (getSpritePos sqrt_of_square 17 49) == -300 * 2 - 2100 * 2.
Proof.
assert (Hvalue : 17 == inject_Z 17) by reflexivity.
assert (Hroot : 1 <= sqrt_of_square 49) by (vm_compute; discriminate).
assert (Hsqrt : sqrt_of_square 49 == inject_Z 7) by reflexivity.
split.
- exact (proj1 (getSpritePos_offsets sqrt_of_square 17 49 17%Z Hvalue Hroot)).
- exact (proj2 (getSpritePos_offsets sqrt_of_square 17 49 17%Z Hvalue Hroot) 7%Z Hsqrt).
Defined.

(** ** The aspect of the window *)

Lemma aspect_of_mobile (winWidth winHeight : Q) :
0 < winWidth ->
(aspect_of winWidth winHeight = Init.mobile <-> winWidth < winHeight).
Proof.
intros Hw. unfold aspect_of. cbv zeta.
q_case 1 (winHeight / winWidth).
- split; [intros _|reflexivity].
  assert (Heq : winHeight == winHeight / winWidth * winWidth) by (field; lra).
  assert (H : 1 * winWidth < winHeight / winWidth * winWidth)
    by (apply Qmult_lt_compat_r; assumption).
  rewrite <- Heq in H. lra.
- split; [discriminate|]. intros Hlt. exfalso.
  assert (H : 1 < winHeight / winWidth) by (apply Qlt_shift_div_l; lra).
  lra.
Qed.

(** X21.  On a window of positive width, [setSrc] takes its size from the
    sizes declared for mobile exactly when the window is higher than wide,
    and from those declared for desktop otherwise. *)
Theorem setSrc_size_by_aspect (self_desktop self_mobile : list Z)
      (winWidth winHeight : Q) (size : Z) :
0 < winWidth ->
Init.setSrc_size self_desktop self_mobile (aspect_of winWidth winHeight) winWidth
= Some size ->
(winWidth < winHeight -> In size (map Init.to_int32 self_mobile))
/\ (winHeight <= winWidth -> In size (map Init.to_int32 self_desktop)).
Proof.
intros Hw Hsize.
destruct (setSrc_size_in_declared self_desktop self_mobile
            (aspect_of winWidth winHeight) winWidth) as (Hin & _).
specialize (Hin size Hsize).
pose proof (aspect_of_mobile winWidth winHeight Hw) as Hmobile.
destruct (aspect_of winWidth winHeight) eqn:Haspect.
- split; [|intros _; exact Hin].
  intros Hlt. apply Hmobile in Hlt. discriminate.
- split; [intros _; exact Hin|].
  intros Hle. assert (Hlt : winWidth < winHeight) by (apply Hmobile; reflexivity). lra.
Qed.

Lemma setSrc_size_by_aspect_witness :
In 800%Z (map Init.to_int32 [800; 800]%Z).
Proof.
assert (Hw : 0 < 400) by (vm_compute; reflexivity).
assert (Hsize : Init.setSrc_size [1024; 1024]%Z [800; 800]%Z (aspect_of 400 700) 400
                = Some 800%Z) by reflexivity.
apply (proj1 (setSrc_size_by_aspect [1024; 1024]%Z [800; 800]%Z 400 700 800 Hw Hsize)).
vm_compute. reflexivity.
Defined.

(** ** The loader does not stall *)

Lemma rests_when_done_ext (obj : Binding) (st st' : State) :
log st' = log st ->
loader_timers (timers st') = loader_timers (timers st) ->
length (fallbackImages st') = length (fallbackImages st) ->
rests_when_done obj st -> rests_when_done obj st'.
Proof.
unfold rests_when_done. intros -> -> ->. tauto.
Qed.

Lemma seq_shorter (j : nat) : seq 0 j <> seq 0 (S j).
Proof.
intros H. apply (f_equal (@length nat)) in H. rewrite !length_seq in H. lia.
Qed.

Lemma fire_rests_when_done (obj : Binding) (t : Z) (ev : Event) (st st' : State) (k : nat) :
loader_inv obj st k ->
rests_when_done obj st ->
fire obj t ev st = Some st' ->
rests_when_done obj st'.
Proof.
intros Hinv Hst. unfold fire.
destruct (Z.ltb t (now st)); [discriminate|].
destruct ev as [e| | |n|index| |rs buf].
- intros [= <-].
  destruct (on_progress_frame obj e (set_now t st)) as (Hlog & _ & _ & _ & _ & Himgs & Hts).
  apply (rests_when_done_ext obj st); try assumption.
  + apply (loader_timers_queue (set_now t st)). exact Hts.
  + rewrite Himgs. reflexivity.
- intros [= <-].
  destruct (on_timeupdate_frame obj (set_now t st)) as (Hlog & _ & _ & _ & _ & Himgs & Hts).
  apply (rests_when_done_ext obj st); try assumption.
  + apply (loader_timers_queue (set_now t st)). exact Hts.
  + rewrite Himgs. reflexivity.
- cbn [playThroughTimer set_now]. destruct (playThroughTimer st); [|discriminate].
  intros [= <-]. unfold playThroughTimer_tick.
  destruct (Z.gtb _ _); apply (rests_when_done_ext obj st); try reflexivity; exact Hst.
- cbn [timers set_now].
  destruct (nth_error (timers st) n) as [tm|] eqn:Htm; [|discriminate].
  destruct (Z.leb (due tm) t); [|discriminate].
  destruct (loader_timers_remove (timers st) n tm Htm) as (Hjump & Hload & Hsome).
  destruct tm as [d [pct|index]]; cbn [callback run_callback].
  + intros Hrun. apply jumpToTime_frame in Hrun.
    destruct Hrun as (Hlog & Hts & _ & _ & _ & _ & Himgs).
    apply (rests_when_done_ext obj st); try assumption.
    rewrite Hts. apply Hjump. reflexivity.
  + intros Hrun.
    destruct Hinv as [Hreq Hlen Hbound Hphase _].
    destruct Hphase as [j Hk Hloads Hts|t' j Hk Hloads Hin Hts|Hloads Hts];
      try (exfalso; apply Hsome; [reflexivity | exact Hts]).
    destruct (Hload eq_refl _ Hts) as [Hsame _].
    injection Hsame as _ Hindex. subst index.
    unfold loadFallbackImages in Hrun.
    destruct (Z.gtb_spec (Z.of_nat k) (Z.of_nat (length (slides obj)) - 1)) as [Hk'|Hk'].
    * injection Hrun as <-. intros _ _.
      cbn [fallbackImages set_timers set_now]. lia.
    * destruct (nth_error (slides obj) k) as [s|] eqn:Hs; [|discriminate].
      injection Hrun as <-. intros Hrest _. exfalso.
      cbn [log set_log set_fallbackImages set_timers set_now] in Hrest.
      rewrite load_indices_app, req_indices_app, Hloads, Hreq in Hrest.
      apply (f_equal (@length nat)) in Hrest.
      rewrite !length_app, !length_seq in Hrest. simpl in Hrest. lia.
- destruct (in_flight (set_now t st) index); [|discriminate].
  intros [= <-]. intros _ Hts. exfalso.
  assert (Htimers : timers (fallback_onload index (set_now t st))
                    = timers st ++ [{| due := (t + 100)%Z;
                                       callback := call_loadFallbackImages (S index) |}]).
  { unfold fallback_onload. destruct (Nat.eqb index 0); reflexivity. }
  rewrite Htimers, loader_timers_app in Hts.
  apply app_eq_nil in Hts. destruct Hts as [_ Hts]. discriminate.
- intros [= <-]. exact Hst.
- intros [= <-]. exact Hst.
Qed.

Lemma run_rests_when_done (obj : Binding) (evs : list (Z * Event)) (st st' : State) (k : nat) :
loader_inv obj st k ->
rests_when_done obj st ->
run obj evs st = Some st' ->
rests_when_done obj st'.
Proof.
revert st k. induction evs as [|[t ev] evs IH]; intros st k Hinv Hst; simpl.
- intros [= <-]. exact Hst.
- destruct (fire obj t ev st) as [st1|] eqn:Hfire; [|discriminate].
  destruct (fire_loader_inv obj t ev st st1 k Hinv Hfire) as (k1 & Hinv1).
  apply (IH st1 k1 Hinv1).
  exact (fire_rests_when_done obj t ev st st1 k Hinv Hst Hfire).
Qed.

(** X22.  In every state a binding reaches after [create], as long as some
    slide has no fallback image, the loader is busy: an image is in
    flight, or the timer that will request the next image is pending. *)
Theorem loader_never_stalls (obj : Binding) (t0 : Z) (vid : Video) (still : StillImage)
      (evs : list (Z * Event)) (st0 st : State) :
create obj t0 vid still = Some st0 ->
run obj evs st0 = Some st ->
(length (fallbackImages st) < length (slides obj))%nat ->
(exists index, in_flight st index = true)
\/ (exists tm, In tm (timers st)
               /\ callback tm = call_loadFallbackImages (length (fallbackImages st))).
Proof.
intros Hcreate Hrun Hmissing.
destruct (create_loader_inv obj t0 vid still st0 Hcreate) as (k0 & Hinv0).
destruct (run_loader_inv obj evs st0 st k0 Hinv0 Hrun) as (k & Hinv).
assert (Hrest0 : rests_when_done obj st0).
{ unfold create, loadFallbackImages in Hcreate. unfold rests_when_done.
  destruct (Z.gtb_spec (Z.of_nat 0) (Z.of_nat (length (slides obj)) - 1)) as [H|H].
  - injection Hcreate as <-. intros _ _. simpl. lia.
  - destruct (nth_error (slides obj) 0); [|discriminate].
    injection Hcreate as <-. simpl. discriminate. }
pose proof (run_rests_when_done obj evs st0 st k0 Hinv0 Hrest0 Hrun) as Hrest.
destruct Hinv as [Hreq Hlen Hbound Hphase _].
destruct Hphase as [j Hk Hloads Hts|t' j Hk Hloads Hin Hts|Hloads Hts].
- left. exists j. apply in_flight_iff. rewrite Hreq, Hloads, !in_seq. lia.
- right. eexists. split.
  + apply (proj1 (filter_In is_loader _ (timers st))).
    fold (loader_timers (timers st)). rewrite Hts. left. reflexivity.
  + rewrite Hlen. reflexivity.
- exfalso. unfold rests_when_done in Hrest.
  rewrite Hloads, Hreq in Hrest. specialize (Hrest eq_refl Hts). lia.
Qed.

Lemma loader_never_stalls_witness :
(exists index, in_flight two_slides_created index = true)
\/ (exists tm, In tm (timers two_slides_created)
               /\ callback tm
                  = call_loadFallbackImages (length (fallbackImages two_slides_created))).
Proof.
apply (loader_never_stalls two_slides 0 empty_video blank_still [] two_slides_created
         two_slides_created two_slides_create eq_refl).
simpl. lia.
Defined.

(** ** How [showFallback] and [hideFallback] compose *)

Lemma forEach_from_forEach_from {A B C : Type} (f : B -> nat -> C) (g : A -> nat -> B)
      (index : nat) (arr : list A) :
forEach_from f index (forEach_from g index arr)
= forEach_from (fun value i => f (g value i) i) index arr.
Proof.
revert index. induction arr as [|a arr IH]; intros index; simpl; [reflexivity|].
rewrite IH. reflexivity.
Qed.

Lemma forEach_from_ext {A B : Type} (f g : A -> nat -> B) (index : nat) (arr : list A) :
(forall value i, f value i = g value i) ->
forEach_from f index arr = forEach_from g index arr.
Proof.
intros H. revert index. induction arr as [|a arr IH]; intros index; simpl; [reflexivity|].
rewrite H, IH. reflexivity.
Qed.

(** X23.  What [showFallback] shows does not depend on what was shown
    before: running it after [hideFallback], or twice, gives the fallback
    images and the video style of one run. *)
Theorem showFallback_overrides (st : State) :
fallbackImages (showFallback (hideFallback st)) = fallbackImages (showFallback st)
/\ fallbackImages (showFallback (showFallback st)) = fallbackImages (showFallback st)
/\ video (showFallback (hideFallback st)) = video (showFallback st)
/\ video (showFallback (showFallback st)) = video (showFallback st).
Proof.
unfold showFallback, hideFallback, forEach. simpl.
rewrite !forEach_from_forEach_from.
repeat split; try reflexivity; apply forEach_from_ext; intros img i; simpl;
  match goal with |- _ = (if ?c then _ else _) => destruct c eqn:Hshown end;
  simpl; try rewrite Hshown; reflexivity.
Qed.

(** ** The buffering decision *)








(** ** A video that never becomes playable *)

Lemma unplayable_scroll_runs :
option_map (fun st => (scrollPct st, map start (fallbackImages st)))
           (run two_slides unplayable_scroll two_slides_created)
= Some (0.75, [0.25]).
Proof. vm_compute. reflexivity. Qed.

(** No handler takes a fallback image away. *)
Lemma fire_images_grow (obj : Binding) (t : Z) (ev : Event) (st st' : State) :
fire obj t ev st = Some st' ->
(length (fallbackImages st) <= length (fallbackImages st'))%nat.
Proof.
unfold fire. destruct (Z.ltb t (now st)); [discriminate|].
destruct ev as [e| | |n|index| |rs buf].
- intros [= <-].
  destruct (on_progress_frame obj e (set_now t st)) as (_ & _ & _ & _ & _ & Himgs & _).
  rewrite Himgs. apply Nat.le_refl.
- intros [= <-].
  destruct (on_timeupdate_frame obj (set_now t st)) as (_ & _ & _ & _ & _ & Himgs & _).
  rewrite Himgs. apply Nat.le_refl.
- cbn [playThroughTimer set_now]. destruct (playThroughTimer st); [|discriminate].
  intros [= <-]. unfold playThroughTimer_tick.
  destruct (Z.gtb _ _); apply Nat.le_refl.
- cbn [timers set_now].
  destruct (nth_error (timers st) n) as [tm|]; [|discriminate].
  destruct (Z.leb (due tm) t); [|discriminate].
  destruct (callback tm) as [pct|index]; cbn [run_callback]; intros Hrun.
  + apply jumpToTime_frame in Hrun.
    destruct Hrun as (_ & _ & _ & _ & _ & _ & Himgs). rewrite Himgs. apply Nat.le_refl.
  + unfold loadFallbackImages in Hrun.
    destruct (Z.gtb _ _); [injection Hrun as <-; apply Nat.le_refl|].
    destruct (nth_error (slides obj) index); [|discriminate].
    injection Hrun as <-. cbn [fallbackImages set_log set_fallbackImages set_timers set_now].
    rewrite length_app. lia.
- destruct (in_flight (set_now t st) index); [|discriminate].
  intros [= <-]. unfold fallback_onload.
  destruct (Nat.eqb index 0); simpl; [rewrite forEach_length|]; apply Nat.le_refl.
- intros [= <-]. apply Nat.le_refl.
- intros [= <-]. apply Nat.le_refl.
Qed.

Lemma run_images_grow (obj : Binding) (evs : list (Z * Event)) (st st' : State) :
run obj evs st = Some st' ->
(length (fallbackImages st) <= length (fallbackImages st'))%nat.
Proof.
revert st. induction evs as [|[t ev] evs IH]; intros st; simpl.
- intros [= <-]. apply Nat.le_refl.
- destruct (fire obj t ev st) as [st1|] eqn:Hfire; [|discriminate].
  intros Hrun. apply fire_images_grow in Hfire. apply IH in Hrun. lia.
Qed.

(** [create] puts the image of the first slide in place. *)
Lemma create_first_image (obj : Binding) (t0 : Z) (vid : Video) (still : StillImage)
      (st0 : State) :
slides obj <> [] ->
create obj t0 vid still = Some st0 ->
length (fallbackImages st0) = 1%nat.
Proof.
intros Hne. unfold create, loadFallbackImages.
destruct (slides obj) as [|s l] eqn:Hslides; [contradiction|].
destruct (Z.gtb_spec (Z.of_nat 0) (Z.of_nat (length (s :: l)) - 1)) as [H|H].
- cbn [length] in H. lia.
- simpl. intros [= <-]. reflexivity.
Qed.

(** C7, as the code has it.  If the video of a binding never becomes
    playable, then in every state the binding reaches the ready flag is
    down and the buffering check fails for every frame; every update
    returns, leaves the flag down and the video hidden at its old position,
    and shows the fallback images that start at or below the scroll
    percentage when that percentage is positive, and the first image when
    the percentage is below its start.  A binding with a slide always has
    its first image in place, so the first image is shown whenever the
    scroll percentage is positive or below its start.  And
    once [setSrc] has run on a video, the timeout it arms cannot run before
    7500 ms have passed; when it runs, it does what the [canplaythrough]
    event would have done: the loading of the next video starts. *)
Theorem silent_degradation :
(forall (obj : Binding) (t0 : Z) (vid : Video) (still : StillImage)
        (evs : list (Z * Event)),
    (video_readyState vid <= 3)%Z ->
    never_playable evs ->
    exists st0 : State,
      create obj t0 vid still = Some st0
      /\ forall st : State,
           run obj evs st0 = Some st ->
           readyState st = false
           /\ (forall frame : Q, checkBuffered obj frame st = Some false)
           /\ (slides obj <> [] ->
               exists first, nth_error (fallbackImages st) 0 = Some first)
           /\ forall pct : Q,
                exists st' : State,
                  jumpToTime obj pct st = Some st'
                  /\ readyState st' = false
                  /\ visibility (video st') = hidden
                  /\ opacity (video st') = 0
                  /\ currentTime (video st') = currentTime (video st)
                  /\ (forall i img,
                         nth_error (fallbackImages st) i = Some img ->
                         exists img',
                           nth_error (fallbackImages st') i = Some img'
                           /\ start img' = start img
                           /\ (g_show img' = true <->
                               (start img <= scrollPct st /\ 0 < scrollPct st)
                               \/ (scrollPct st < start img /\ i = 0%nat)))
                  /\ (forall first,
                         nth_error (fallbackImages st) 0 = Some first ->
                         0 < scrollPct st \/ scrollPct st < start first ->
                         exists img',
                           nth_error (fallbackImages st') 0 = Some img'
                           /\ g_show img' = true))
/\ (forall (pg : Init.Page) (k : nat) (t : Z),
       Init.vidsLoaded pg = k ->
       (k < length (Init.videos pg))%nat ->
       let loading := Init.loadVideosAsync pg in
       ((Init.clock pg <= t < Init.clock pg + 7500)%Z ->
        Init.deliver t (Init.ev_loadNextVideo k) loading = None)
       /\ ((Init.clock pg + 7500 <= t)%Z ->
           exists pg' : Init.Page,
             Init.deliver t (Init.ev_loadNextVideo k) loading = Some pg'
             /\ Init.deliver t (Init.ev_canplaythrough k) loading = Some pg'
             /\ Init.vidsLoaded pg' = S (S k)
             /\ ((S k < length (Init.videos pg))%nat ->
                 nth_error (Init.videos pg') (S k)
                 = Some {| Init.loadNextVideo := Some (t + 7500)%Z;
                           Init.canplaythrough_listener := true;
                           Init.playing := true |}))).
Proof.
split.
- intros obj t0 vid still evs Hvid Hevs.
  destruct (create_total obj t0 vid still) as (st0 & Hcreate).
  exists st0. split; [exact Hcreate|].
  intros st Hrun.
  pose proof (create_unready obj t0 vid still st0 Hvid Hcreate) as H0.
  destruct (run_unready obj evs st0 st Hevs H0 Hrun) as [Hflag _].
  split; [exact Hflag|].
  split; [intros frame; exact (checkBuffered_not_ready obj frame st Hflag)|].
  split.
  { intros Hne.
    pose proof (create_first_image obj t0 vid still st0 Hne Hcreate) as Hone.
    pose proof (run_images_grow obj evs st0 st Hrun) as Hgrow.
    destruct (fallbackImages st) as [|first rest]; [simpl in Hgrow; lia|].
    exists first. reflexivity. }
  intros pct. exists (degraded obj pct st). split.
  + unfold jumpToTime.
    rewrite (checkBuffered_not_ready obj (frameToUse_of obj pct st) st Hflag). reflexivity.
  + split; [exact Hflag|]. do 3 (split; [reflexivity|]). split.
    * intros i img Himg. exact (showFallback_nth st i img Himg).
    * intros first Hfirst Hpos.
      destruct (showFallback_nth st 0 first Hfirst) as (img' & Hn & _ & Hshow).
      exists img'. split; [exact Hn|]. apply Hshow.
      destruct (Qlt_le_dec (scrollPct st) (start first)) as [Hlt|Hle].
      -- right. split; [exact Hlt | reflexivity].
      -- left. split; [exact Hle|]. destruct Hpos as [Hpos|Hpos]; [exact Hpos | lra].
- intros pg k t Hk Hlen loading. split.
  + intros Ht.
    destruct (deliver_next pg k t Hk Hlen) as [_ Hto]; [lia|].
    fold loading in Hto. rewrite Hto.
    destruct (Z.leb_spec (Init.clock pg + 7500) t); [lia | reflexivity].
  + intros Ht.
    destruct (deliver_next pg k t Hk Hlen) as [Hcp Hto]; [lia|].
    fold loading in Hcp, Hto.
    destruct (Z.leb_spec (Init.clock pg + 7500) t); [|lia].
    eexists. split; [exact Hto|]. split; [exact Hcp|].
    assert (Hloading : Init.vidsLoaded loading = S k
                       /\ length (Init.videos loading) = length (Init.videos pg)).
    { subst loading. rewrite loadVideosAsync_starts by lia. cbn [Init.vidsLoaded Init.videos].
      rewrite update_video_length by lia. split; [lia | reflexivity]. }
    destruct Hloading as [Hcount Hsame].
    unfold Init.next. split.
    * rewrite loadVideosAsync_counts. cbn [Init.vidsLoaded Init.update_video]. lia.
    * intros Hnext.
      rewrite loadVideosAsync_starts.
      -- cbn [Init.videos Init.vidsLoaded Init.clock Init.update_video].
         rewrite Hcount.
         apply (update_video_nth (S k) _
                  (Init.update_video k _ {| Init.clock := t;
                                            Init.vidsLoaded := Init.vidsLoaded loading;
                                            Init.videos := Init.videos loading |})).
         rewrite update_video_length; cbn [Init.videos]; lia.
      -- cbn [Init.vidsLoaded Init.update_video].
         rewrite Hcount.
         change (S k < length (Init.videos (Init.update_video k
                  {| Init.loadNextVideo := None; Init.canplaythrough_listener := false;
                     Init.playing := false |}
                  {| Init.clock := t; Init.vidsLoaded := Init.vidsLoaded loading;
                     Init.videos := Init.videos loading |})))%nat.
         rewrite update_video_length; cbn [Init.videos]; lia.
Qed.

Lemma silent_degradation_witness :
(exists st st' : State,
    run two_slides unplayable_scroll two_slides_created = Some st
    /\ jumpToTime two_slides 0.75 st = Some st'
    /\ visibility (video st') = hidden
    /\ exists img', nth_error (fallbackImages st') 0 = Some img' /\ g_show img' = true)
/\ Init.deliver 7500 (Init.ev_loadNextVideo 0) (Init.loadVideosAsync two_videos)
   = Init.deliver 7500 (Init.ev_canplaythrough 0) (Init.loadVideosAsync two_videos).
Proof.
split.
- assert (Hvid : (video_readyState empty_video <= 3)%Z) by (simpl; lia).
  assert (Hevs : never_playable unplayable_scroll) by (repeat constructor; simpl; lia).
  destruct (proj1 silent_degradation two_slides 0%Z empty_video blank_still
              unplayable_scroll Hvid Hevs) as (st0 & Hcreate & Hall).
  rewrite two_slides_create in Hcreate. injection Hcreate as <-.
  pose proof unplayable_scroll_runs as Hfacts.
  destruct (run two_slides unplayable_scroll two_slides_created) as [st|] eqn:Hrun;
    [|discriminate].
  injection Hfacts as Hpct Hstarts.
  destruct (fallbackImages st) as [|first rest] eqn:Himgs; [discriminate|].
  destruct (Hall st eq_refl) as (_ & _ & _ & Hupdate).
  destruct (Hupdate 0.75) as (st' & Hj & _ & Hhidden & _ & _ & _ & Hfirst).
  exists st, st'. split; [reflexivity|]. split; [exact Hj|]. split; [exact Hhidden|].
  apply (Hfirst first).
  + rewrite Himgs. reflexivity.
  + left. rewrite Hpct. reflexivity.
- assert (Hk : Init.vidsLoaded two_videos = 0%nat) by reflexivity.
  assert (Hlen : (0 < length (Init.videos two_videos))%nat) by (simpl; lia).
  destruct (proj2 silent_degradation two_videos 0%nat 7500%Z Hk Hlen) as [_ Hafter].
  destruct Hafter as (pg' & Hto & Hcp & _); [simpl; lia|].
  rewrite Hto, Hcp. reflexivity.
Defined.

(** C7, as stated, fails: a binding whose first slide starts at 0, with a
    video that never becomes playable, scrolled to 0.5 and back to the top,
    ends with the video hidden, no fallback image shown and the still image
    not shown either. *)
Lemma silent_degradation_blank_at_top :
never_playable back_to_top
/\ option_map
     (fun st => (readyState st, scrollPct st, visibility (video st),
                 map start (fallbackImages st), map g_show (fallbackImages st),
                 still_g_show (stillImage st)))
     (match create from_top 0 empty_video blank_still with
      | Some st0 => run from_top back_to_top st0
      | None => None
      end)
   = Some (false, 0, hidden, [0; 0.5], [false; false], false).
Proof.
split.
- repeat constructor.
- vm_compute. reflexivity.
Qed.
